(** * SVGPanAndZoom: a shallow embedding of [svgpanandzoom.js]

    The library turns mouse, keyboard and touch events into two operations
    on one [Viewer]: a relative pan and a relative zoom.  This development
    embeds the [Viewer], the wheel normaliser and the three event handlers,
    and states the properties of the specification over them.

    Numbers.  A JavaScript number is modelled by [number]: a real, one of
    the two infinities, or NaN.  The operations follow ECMAScript on the
    special values; on finite values they are exact (no rounding, no
    overflow, no underflow), and the two zeros are not told apart (a
    division by zero takes the zero as +0).  A property that would depend
    on this exactness is stated on inputs on which the code's own
    arithmetic is exact as well (whole levels, whole pixels), with its
    numbers given as the code's expressions, or under the hypotheses the
    code's own tests and results provide.  The lemmas that give a result
    as a real formula (the Euclidean distance, the displaced center) are
    facts over exact arithmetic.

    Effects.  A handler runs in the monad [M E S]: it reads and writes its
    own object ([S]), appends the calls it makes on its collaborators to a
    trace ([E]), and may stop on a [TypeError]. *)

From Stdlib Require Import Reals Lra ZArith List.
From stdpp Require Import base list.
Import ListNotations.
Open Scope R_scope.

(** ** JavaScript numbers *)

Module JSNum.

Inductive number : Type :=
  | Fin (r : R)
  | PInf
  | NInf
  | NaN.

(** A property read may also give [undefined]. *)
Inductive value : Type :=
  | undefined
  | num (x : number).

(** Unary minus. *)
Definition neg (x : number) : number :=
  match x with
  | Fin a => Fin (- a)
  | PInf => NInf
  | NInf => PInf
  | NaN => NaN
  end.

(** [x + y] *)
Definition add (x y : number) : number :=
  match x, y with
  | NaN, _ | _, NaN => NaN
  | Fin a, Fin b => Fin (a + b)
  | PInf, NInf | NInf, PInf => NaN
  | PInf, _ | _, PInf => PInf
  | NInf, _ | _, NInf => NInf
  end.

(** [x - y] *)
Definition sub (x y : number) : number := add x (neg y).

(** The infinity whose sign is the sign of [a]; NaN when [a] is zero. *)
Definition signed_inf (a : R) : number :=
  if Rlt_dec 0 a then PInf else if Rlt_dec a 0 then NInf else NaN.

(** [x * y] *)
Definition mul (x y : number) : number :=
  match x, y with
  | NaN, _ | _, NaN => NaN
  | Fin a, Fin b => Fin (a * b)
  | Fin a, PInf | PInf, Fin a => signed_inf a
  | Fin a, NInf | NInf, Fin a => signed_inf (- a)
  | PInf, PInf | NInf, NInf => PInf
  | PInf, NInf | NInf, PInf => NInf
  end.

(** [x / y] *)
Definition div (x y : number) : number :=
  match x, y with
  | NaN, _ | _, NaN => NaN
  | Fin a, Fin b => if Req_dec_T b 0 then signed_inf a else Fin (a / b)
  | Fin _, PInf | Fin _, NInf => Fin 0
  | PInf, Fin b => if Rlt_dec b 0 then NInf else PInf
  | NInf, Fin b => if Rlt_dec b 0 then PInf else NInf
  | _, _ => NaN
  end.

(** [x < y]: false as soon as one side is NaN. *)
Definition ltb (x y : number) : bool :=
  match x, y with
  | NaN, _ | _, NaN => false
  | Fin a, Fin b => if Rlt_dec a b then true else false
  | _, NInf => false
  | NInf, _ => true
  | PInf, _ => false
  | Fin _, PInf => true
  end.

Definition is_NaN (x : number) : bool :=
  match x with NaN => true | _ => false end.

(** [Math.max(x, y)] and [Math.min(x, y)]: NaN when an argument is NaN. *)
Definition Math_max (x y : number) : number :=
  if is_NaN x || is_NaN y then NaN else if ltb x y then y else x.

Definition Math_min (x y : number) : number :=
  if is_NaN x || is_NaN y then NaN else if ltb y x then y else x.

(** The integer a real is, when it is one. *)
Definition integer_of (e : R) : option Z :=
  let n := Int_part e in
  if Req_dec_T (IZR n) e then Some n else None.

Definition odd_integer (e : R) : bool :=
  match integer_of e with
  | Some n => Z.odd n
  | None => false
  end.

(** [Math.pow(base, exponent)], after ECMAScript's Number::exponentiate. *)
Definition Math_pow (base exponent : number) : number :=
  match exponent with
  | NaN => NaN
  | PInf =>
      match base with
      | NaN => NaN
      | PInf | NInf => PInf
      | Fin b =>
          if Rlt_dec 1 (Rabs b) then PInf
          else if Req_dec_T (Rabs b) 1 then NaN
          else Fin 0
      end
  | NInf =>
      match base with
      | NaN => NaN
      | PInf | NInf => Fin 0
      | Fin b =>
          if Rlt_dec 1 (Rabs b) then Fin 0
          else if Req_dec_T (Rabs b) 1 then NaN
          else PInf
      end
  | Fin e =>
      if Req_dec_T e 0 then Fin 1
      else
        match base with
        | NaN => NaN
        | PInf => if Rlt_dec 0 e then PInf else Fin 0
        | NInf =>
            if Rlt_dec 0 e then (if odd_integer e then NInf else PInf)
            else Fin 0
        | Fin b =>
            if Rlt_dec 0 b then Fin (Rpower b e)
            else if Req_dec_T b 0 then (if Rlt_dec 0 e then Fin 0 else PInf)
            else
              match integer_of e with
              | Some n => Fin (powerRZ b n)
              | None => NaN
              end
        end
  end.

(** [Math.sqrt(x)] *)
Definition Math_sqrt (x : number) : number :=
  match x with
  | NaN | NInf => NaN
  | PInf => PInf
  | Fin a => if Rlt_dec a 0 then NaN else Fin (sqrt a)
  end.

(** ToBoolean, as [if (x)] and [x && y] apply it to a number. *)
Definition truthy_number (x : number) : bool :=
  match x with
  | NaN => false
  | Fin a => if Req_dec_T a 0 then false else true
  | PInf | NInf => true
  end.

Definition ToBoolean (v : value) : bool :=
  match v with
  | undefined => false
  | num x => truthy_number x
  end.

(** ToNumber, as the arithmetic operators apply it to their operands. *)
Definition ToNumber (v : value) : number :=
  match v with
  | undefined => NaN
  | num x => x
  end.

Definition finite (x : number) : Prop := exists r : R, x = Fin r.

End JSNum.

Import JSNum.

Declare Scope js_scope.
Delimit Scope js_scope with js.
Bind Scope js_scope with number.
Notation "x + y" := (add x y) : js_scope.
Notation "x - y" := (sub x y) : js_scope.
Notation "x * y" := (mul x y) : js_scope.
Notation "x / y" := (div x y) : js_scope.
Notation "- x" := (neg x) : js_scope.
Notation "x <? y" := (ltb x y) : js_scope.

(** ** Handlers as programs: state, trace of calls, TypeError *)

Module Eff.

Inductive exn : Type := TypeError.

Inductive result (A : Type) : Type :=
  | Ok (a : A)
  | Throw (e : exn).
Arguments Ok {A} a.
Arguments Throw {A} e.

(** A program over the object [S], emitting calls [E], returning [A]. *)
Definition M (E S A : Type) : Type := S -> result A * S * list E.

Definition ret {E S A} (a : A) : M E S A := fun s => (Ok a, s, []).

Definition bind {E S A B} (m : M E S A) (k : A -> M E S B) : M E S B :=
  fun s =>
    match m s with
    | (Ok a, s1, t1) =>
        match k a s1 with
        | (r, s2, t2) => (r, s2, t1 ++ t2)
        end
    | (Throw e, s1, t1) => (Throw e, s1, t1)
    end.

Definition get {E S} : M E S S := fun s => (Ok s, s, []).
Definition modify {E S} (f : S -> S) : M E S unit := fun s => (Ok tt, f s, []).
Definition emit {E S} (c : E) : M E S unit := fun s => (Ok tt, s, [c]).
Definition throw {E S A} (e : exn) : M E S A := fun s => (Throw e, s, []).

(** Reading a property of [o]: a TypeError when [o] is null or undefined. *)
Definition deref {E S A} (o : option A) : M E S A :=
  match o with
  | Some a => ret a
  | None => throw TypeError
  end.

Definition outcome {E S A} (x : result A * S * list E) : result A := fst (fst x).
Definition final {E S A} (x : result A * S * list E) : S := snd (fst x).
Definition trace {E S A} (x : result A * S * list E) : list E := snd x.

End Eff.

Import Eff.

Declare Scope eff_scope.
Delimit Scope eff_scope with eff.
Notation "x <- m ;; k" := (bind m (fun x => k))
  (at level 100, m at next level, right associativity) : eff_scope.
Notation "m ;; k" := (bind m (fun _ => k))
  (at level 100, k at level 200, right associativity) : eff_scope.
Open Scope eff_scope.

(** ** The Viewer *)

Module Viewer.

(** The fields of a [Viewer].  The field [doc] is the SVG element of the
    host: what the viewer does to it is in the trace. *)
Record Viewer : Type := mkViewer {
  maxWidth : number;
  maxHeight : number;
  centerX : number;
  centerY : number;
  zoom : number;
  divider : number;
  containerRatio : number
}.

(** [doc.setAttribute('viewBox', topX + ' ' + topY + ' ' + viewWidth + ' ' +
    viewHeight)]: the four numbers of the attribute. *)
Inductive doc_call : Type :=
  | setAttribute_viewBox (topX topY viewWidth viewHeight : number).

Definition set_centerX (x : number) (v : Viewer) : Viewer :=
  mkViewer (maxWidth v) (maxHeight v) x (centerY v) (zoom v) (divider v)
    (containerRatio v).

Definition set_centerY (y : number) (v : Viewer) : Viewer :=
  mkViewer (maxWidth v) (maxHeight v) (centerX v) y (zoom v) (divider v)
    (containerRatio v).

Definition set_zoom (z : number) (v : Viewer) : Viewer :=
  mkViewer (maxWidth v) (maxHeight v) (centerX v) (centerY v) z (divider v)
    (containerRatio v).

Definition set_divider (d : number) (v : Viewer) : Viewer :=
  mkViewer (maxWidth v) (maxHeight v) (centerX v) (centerY v) (zoom v) d
    (containerRatio v).

(** [new SVGPAZ.Viewer(elt, width, height)]; [offsetWidth] is
    [document.defaultView.frameElement.offsetWidth]. *)
Definition new (width height offsetWidth : number) : Viewer :=
  {| maxWidth := width;
     maxHeight := height;
     centerX := (width / Fin 2)%js;
     centerY := (height / Fin 2)%js;
     zoom := Fin 1;
     divider := Fin 1;
     containerRatio := (width / offsetWidth)%js |}.

(** [Viewer.prototype.redraw] *)
Definition redraw : M doc_call Viewer unit :=
  this <- get ;;
  let viewWidth := (maxWidth this / divider this)%js in
  let viewHeight := (maxHeight this / divider this)%js in
  let topX := (centerX this - viewWidth / Fin 2)%js in
  let topY := (centerY this - viewHeight / Fin 2)%js in
  emit (setAttribute_viewBox topX topY viewWidth viewHeight).

(** [Viewer.prototype.panningSet] *)
Definition panningSet (deltaX deltaY : number) : M doc_call Viewer unit :=
  modify (fun this =>
    set_centerX
      (centerX this + deltaX * containerRatio this / divider this)%js this) ;;
  modify (fun this =>
    set_centerY
      (centerY this + deltaY * containerRatio this / divider this)%js this) ;;
  redraw.

(** [Viewer.prototype.zoomSet] *)
Definition zoomSet (delta : number) : M doc_call Viewer unit :=
  modify (fun this =>
    set_zoom (Math_min (Fin 10) (Math_max (Fin 1) (zoom this + delta)%js))
      this) ;;
  modify (fun this =>
    set_divider (Math_pow (Fin 2) (zoom this - Fin 1)%js) this) ;;
  redraw.

End Viewer.

Import Viewer.
(** ** What a handler calls: the event's [preventDefault] and its two
    callbacks *)

Inductive call : Type :=
  | PreventDefault
  | PanCallback (deltaX deltaY : number)
  | ZoomCallback (delta : number).

Definition preventDefault {S} : M call S unit := emit PreventDefault.
Definition panCallback {S} (deltaX deltaY : number) : M call S unit :=
  emit (PanCallback deltaX deltaY).
Definition zoomCallback {S} (delta : number) : M call S unit :=
  emit (ZoomCallback delta).

(** ** The mouse handler *)

Module MouseHandler.

Record MouseEvent : Type := mkMouseEvent {
  clientX : number;
  clientY : number
}.

Record WheelEvent : Type := mkWheelEvent {
  detail : value;
  wheelDelta : value
}.

Record MouseHandler : Type := mkMouseHandler {
  dragging : bool;
  originX : number;
  originY : number
}.

Definition set_dragging (b : bool) (h : MouseHandler) : MouseHandler :=
  mkMouseHandler b (originX h) (originY h).
Definition set_originX (x : number) (h : MouseHandler) : MouseHandler :=
  mkMouseHandler (dragging h) x (originY h).
Definition set_originY (y : number) (h : MouseHandler) : MouseHandler :=
  mkMouseHandler (dragging h) (originX h) y.

(** [new SVGPAZ.MouseHandler(panCallback, zoomCallback)] *)
Definition new : MouseHandler :=
  {| dragging := false; originX := Fin 0; originY := Fin 0 |}.

(** The first block of [normalizeWheelDelta] ("Normalize delta"). *)
Definition rawDelta (event : WheelEvent) : number :=
  let detail := detail event in
  let wheelDelta := wheelDelta event in
  if ToBoolean detail then
    let f := (ToNumber wheelDelta / ToNumber detail)%js in
    if ToBoolean wheelDelta && truthy_number f then
      (ToNumber detail / f)%js
    else
      (- ToNumber detail / Fin 1.35)%js
  else
    (ToNumber wheelDelta / Fin 120)%js.

(** The second block ("Quadratic scale if |delta| > 1"), with [n = 225] and
    [n1 = n - 1]. *)
Definition quadraticScale (delta : number) : number :=
  let n := Fin 225 in
  let n1 := (n - Fin 1)%js in
  if (delta <? Fin 1)%js then
    if (delta <? Fin (-1))%js then
      ((- Math_pow delta (Fin 2) - n1) / n)%js
    else delta
  else
    ((Math_pow delta (Fin 2) + n1) / n)%js.

(** The third block ("Delta must be in [-2..2]"). *)
Definition finalClamp (delta : number) : number :=
  Math_min (Math_max (delta / Fin 2)%js (Fin (-1))) (Fin 1).

(** [MouseHandler.prototype.normalizeWheelDelta]; [window.event || event]
    is the event the handler was given. *)
Definition normalizeWheelDelta (event : WheelEvent) : number :=
  finalClamp (quadraticScale (rawDelta event)).

(** [MouseHandler.prototype.wheelHandler] *)
Definition wheelHandler (event : WheelEvent) : M call MouseHandler unit :=
  let delta := normalizeWheelDelta event in
  zoomCallback delta.

(** [MouseHandler.prototype.mouseUpHandler] *)
Definition mouseUpHandler (event : MouseEvent) : M call MouseHandler unit :=
  preventDefault ;;
  modify (set_dragging false).

(** [MouseHandler.prototype.mouseDownHandler] *)
Definition mouseDownHandler (event : MouseEvent) : M call MouseHandler unit :=
  preventDefault ;;
  modify (set_dragging true) ;;
  modify (set_originX (clientX event)) ;;
  modify (set_originY (clientY event)).

(** [MouseHandler.prototype.mouseMoveHandler] *)
Definition mouseMoveHandler (event : MouseEvent) : M call MouseHandler unit :=
  this <- get ;;
  if dragging this then
    preventDefault ;;
    panCallback (originX this - clientX event)%js
                (originY this - clientY event)%js ;;
    modify (set_originX (clientX event)) ;;
    modify (set_originY (clientY event))
  else
    ret tt.

End MouseHandler.

(** ** The keyboard handler *)

Module KeyboardHandler.

(** [which] and [keyCode] are integers of the host, or undefined. *)
Record KeyboardEvent : Type := mkKeyboardEvent {
  which : option Z;
  keyCode : option Z
}.

Definition truthy_code (c : option Z) : bool :=
  match c with
  | Some z => negb (z =? 0)%Z
  | None => false
  end.

(** [KeyboardHandler.prototype.keydownHandler]; the handler object holds
    nothing but its callbacks. *)
Definition keydownHandler (event : KeyboardEvent) : M call unit unit :=
  let charCode := if truthy_code (which event) then which event
                  else keyCode event in
  match charCode with
  | Some 107%Z => zoomCallback (Fin 1)
  | Some 109%Z => zoomCallback (Fin (-1))
  | Some 39%Z => panCallback (Fin 10) (Fin 0)
  | Some 37%Z => panCallback (Fin (-10)) (Fin 0)
  | Some 38%Z => panCallback (Fin 0) (Fin (-10))
  | Some 40%Z => panCallback (Fin 0) (Fin 10)
  | _ => ret tt
  end.

End KeyboardHandler.

(** ** The touch handler *)

Module TouchHandler.

(** A touch point of the host, which never changes one once an event
    carries it. *)
Record Touch : Type := mkTouch {
  pageX : number;
  pageY : number
}.

Record TouchEvent : Type := mkTouchEvent {
  touches : list Touch
}.

(** [fingers] is an array whose elements are a [Touch], or null or
    undefined ([None]). *)
Record TouchHandler : Type := mkTouchHandler {
  mode : nat;
  fingers : list (option Touch)
}.

Definition set_mode (m : nat) (h : TouchHandler) : TouchHandler :=
  mkTouchHandler m (fingers h).
Definition set_fingers (f : list (option Touch)) (h : TouchHandler)
  : TouchHandler :=
  mkTouchHandler (mode h) f.

(** [a[i] = x]: past the end, the array grows and the gap is undefined. *)
Definition array_set {A} (i : nat) (x : option A) (a : list (option A))
  : list (option A) :=
  if (i <? length a)%nat then <[i := x]> a
  else a ++ replicate (i - length a)%nat None ++ [x].

(** [a[i]]: undefined past the end. *)
Definition array_get {A} (a : list (option A)) (i : nat) : option A :=
  match a !! i with
  | Some x => x
  | None => None
  end.

(** [for (var i = start; i < start + count; i++) body(i)] *)
Fixpoint for_loop {E St} (i count : nat) (body : nat -> M E St unit)
  : M E St unit :=
  match count with
  | O => ret tt
  | S count' => body i ;; for_loop (S i) count' body
  end.

(** [new SVGPAZ.TouchHandler(panCallback, zoomCallback)] *)
Definition new : TouchHandler :=
  {| mode := 0%nat; fingers := [None; None] |}.

(** [TouchHandler.prototype.touchStartHandler] *)
Definition touchStartHandler (event : TouchEvent) : M call TouchHandler unit :=
  modify (set_mode (length (touches event))) ;;
  this <- get ;;
  if negb (mode this =? 1)%nat && negb (mode this =? 2)%nat then
    modify (set_mode 0%nat)
  else
    for_loop 0%nat (mode this) (fun i =>
      modify (fun this =>
        set_fingers (array_set i (touches event !! i) (fingers this)) this)).

(** [TouchHandler.prototype.touchMoveHandler] *)
Definition touchMoveHandler (event : TouchEvent) : M call TouchHandler unit :=
  this <- get ;;
  if (mode this =? 1)%nat then
    preventDefault ;;
    finger0 <- deref (array_get (fingers this) 0%nat) ;;
    touch0 <- deref (touches event !! 0%nat) ;;
    panCallback (pageX finger0 - pageX touch0)%js
                (pageY finger0 - pageY touch0)%js ;;
    modify (fun this =>
      set_fingers (array_set 0%nat (touches event !! 0%nat) (fingers this))
        this)
  else if (mode this =? 2)%nat then
    preventDefault ;;
    finger0 <- deref (array_get (fingers this) 0%nat) ;;
    finger1 <- deref (array_get (fingers this) 1%nat) ;;
    let previousDistance :=
      Math_sqrt (Math_pow (pageX finger0 - pageX finger1) (Fin 2) +
                 Math_pow (pageY finger0 - pageY finger1) (Fin 2))%js in
    touch0 <- deref (touches event !! 0%nat) ;;
    touch1 <- deref (touches event !! 1%nat) ;;
    let currentDistance :=
      Math_sqrt (Math_pow (pageX touch0 - pageX touch1) (Fin 2) +
                 Math_pow (pageY touch0 - pageY touch1) (Fin 2))%js in
    let distance := ((currentDistance - previousDistance) / Fin 100)%js in
    zoomCallback distance ;;
    modify (fun this =>
      set_fingers (array_set 0%nat (touches event !! 0%nat) (fingers this))
        this) ;;
    modify (fun this =>
      set_fingers (array_set 1%nat (touches event !! 1%nat) (fingers this))
        this)
  else
    ret tt.

(** [TouchHandler.prototype.touchEndHandler] is the same function. *)
Definition touchEndHandler : TouchEvent -> M call TouchHandler unit :=
  touchStartHandler.

End TouchHandler.

(** ** [SVGPAZ.init]: both callbacks are methods of the one viewer *)

Definition dispatch (c : call) : M doc_call Viewer unit :=
  match c with
  | PreventDefault => ret tt
  | PanCallback deltaX deltaY => panningSet deltaX deltaY
  | ZoomCallback delta => zoomSet delta
  end.

Fixpoint dispatch_all (cs : list call) : M doc_call Viewer unit :=
  match cs with
  | [] => ret tt
  | c :: cs' => dispatch c ;; dispatch_all cs'
  end.

(** ** The page: [SVGPAZ.handler], the three [listenOn] and [SVGPAZ.init] *)

Module SVGPAZ.

(** The events of the document, by type: the nine types a listener is
    registered for, each with the event object its listener reads, and any
    event of another type. *)
Inductive DOMEvent : Type :=
  | mousewheel (event : MouseHandler.WheelEvent)
  | DOMMouseScroll (event : MouseHandler.WheelEvent)
  | mouseup (event : MouseHandler.MouseEvent)
  | mousedown (event : MouseHandler.MouseEvent)
  | mousemove (event : MouseHandler.MouseEvent)
  | keydown (event : KeyboardHandler.KeyboardEvent)
  | touchstart (event : TouchHandler.TouchEvent)
  | touchmove (event : TouchHandler.TouchEvent)
  | touchend (event : TouchHandler.TouchEvent)
  | other_event.

(** The objects [init] ties together: the viewer it is given and the
    handlers it creates (the keyboard handler holds only its callbacks). *)
Record Page : Type := mkPage {
  viewer : Viewer;
  mouse : MouseHandler.MouseHandler;
  touch : TouchHandler.TouchHandler
}.

Definition set_viewer (v : Viewer) (p : Page) : Page :=
  mkPage v (mouse p) (touch p).
Definition set_mouse (h : MouseHandler.MouseHandler) (p : Page) : Page :=
  mkPage (viewer p) h (touch p).
Definition set_touch (h : TouchHandler.TouchHandler) (p : Page) : Page :=
  mkPage (viewer p) (mouse p) h.

(** [SVGPAZ.handler(object, method)]: the function that applies [method] to
    [object] with the arguments it is given, and returns nothing.  The
    object is a part of the page, read by [object] and written by
    [set_object]. *)
Definition handler {E St A} (object : Page -> St)
  (set_object : St -> Page -> Page) (method : M E St A) : M E Page unit :=
  fun p =>
    match method (object p) with
    | (Ok _, this, t) => (Ok tt, set_object this p, t)
    | (Throw e, this, t) => (Throw e, set_object this p, t)
    end.

(** [MouseHandler.prototype.listenOn]: the listener it adds for an event,
    if any. *)
Definition MouseHandler_listenOn (ev : DOMEvent)
  : option (M call Page unit) :=
  match ev with
  | mousewheel event =>
      Some (handler mouse set_mouse (MouseHandler.wheelHandler event))
  | DOMMouseScroll event =>
      Some (handler mouse set_mouse (MouseHandler.wheelHandler event))
  | mouseup event =>
      Some (handler mouse set_mouse (MouseHandler.mouseUpHandler event))
  | mousedown event =>
      Some (handler mouse set_mouse (MouseHandler.mouseDownHandler event))
  | mousemove event =>
      Some (handler mouse set_mouse (MouseHandler.mouseMoveHandler event))
  | _ => None
  end.

(** [KeyboardHandler.prototype.listenOn] *)
Definition KeyboardHandler_listenOn (ev : DOMEvent)
  : option (M call Page unit) :=
  match ev with
  | keydown event =>
      Some (handler (fun _ => tt) (fun _ p => p)
              (KeyboardHandler.keydownHandler event))
  | _ => None
  end.

(** [TouchHandler.prototype.listenOn] *)
Definition TouchHandler_listenOn (ev : DOMEvent)
  : option (M call Page unit) :=
  match ev with
  | touchstart event =>
      Some (handler touch set_touch (TouchHandler.touchStartHandler event))
  | touchmove event =>
      Some (handler touch set_touch (TouchHandler.touchMoveHandler event))
  | touchend event =>
      Some (handler touch set_touch (TouchHandler.touchEndHandler event))
  | _ => None
  end.

(** [SVGPAZ.init(viewer)]: the page once the handlers are created. *)
Definition init (v : Viewer) : Page :=
  {| viewer := v; mouse := MouseHandler.new; touch := TouchHandler.new |}.

(** The listeners [init] activates, in its order: keyboard, mouse, touch.
    No two of them listen to the same type. *)
Definition listeners (ev : DOMEvent) : list (M call Page unit) :=
  omap (fun listenOn => listenOn ev)
    [KeyboardHandler_listenOn; MouseHandler_listenOn; TouchHandler_listenOn].

(** Runs the listeners one after the other; a listener that throws does not
    keep the next ones from running. *)
Fixpoint run_listeners (ls : list (M call Page unit)) : M call Page unit :=
  match ls with
  | [] => ret tt
  | l :: ls' =>
      fun p =>
        match l p with
        | (r, p1, t1) =>
            match run_listeners ls' p1 with
            | (r', p2, t2) =>
                (match r with Throw e => Throw e | Ok _ => r' end,
                 p2, t1 ++ t2)
            end
        end
  end.

(** One event of the document: its listeners run, and each call a listener
    makes on [panCallback] or [zoomCallback] is, by [init], the method
    [panningSet] or [zoomSet] applied to the viewer.  The calls are made
    while the listener runs; no listener reads the viewer and no method of
    the viewer reads a handler, so they are applied here after it. *)
Definition deliver (ev : DOMEvent) : M doc_call Page unit :=
  fun p =>
    match run_listeners (listeners ev) p with
    | (r, p1, calls) =>
        match handler viewer set_viewer (dispatch_all calls) p1 with
        | (_, p2, published) => (r, p2, published)
        end
    end.

(** The events of a session, in the order of their delivery.  An uncaught
    TypeError ends its listener, not the session. *)
Fixpoint deliver_all (evs : list DOMEvent) (p : Page)
  : Page * list doc_call :=
  match evs with
  | [] => (p, [])
  | ev :: evs' =>
      match deliver ev p with
      | (_, p1, published1) =>
          match deliver_all evs' p1 with
          | (p2, published2) => (p2, published1 ++ published2)
          end
      end
  end.

End SVGPAZ.

(** ** Notions the properties are stated with *)

(** The rectangle of a viewer: width and height are the document's divided
    by the divider, and the top-left corner puts the center in the middle. *)
Definition viewBox (v : Viewer) : doc_call :=
  let viewWidth := (maxWidth v / divider v)%js in
  let viewHeight := (maxHeight v / divider v)%js in
  setAttribute_viewBox (centerX v - viewWidth / Fin 2)%js
                       (centerY v - viewHeight / Fin 2)%js
                       viewWidth viewHeight.

(** The viewer states that [new Viewer] and then pans and zooms lead to,
    when no zoom request is NaN. *)
Inductive viewer_reachable (width height offsetWidth : number)
  : Viewer -> Prop :=
  | viewer_reachable_new :
      viewer_reachable width height offsetWidth
        (Viewer.new width height offsetWidth)
  | viewer_reachable_pan v deltaX deltaY :
      viewer_reachable width height offsetWidth v ->
      viewer_reachable width height offsetWidth
        (final (panningSet deltaX deltaY v))
  | viewer_reachable_zoom v delta :
      viewer_reachable width height offsetWidth v ->
      delta <> NaN ->
      viewer_reachable width height offsetWidth (final (zoomSet delta v)).

(** The arguments of the pan callbacks of a trace, in order. *)
Fixpoint pan_calls (t : list call) : list (number * number) :=
  match t with
  | [] => []
  | PanCallback deltaX deltaY :: t' => (deltaX, deltaY) :: pan_calls t'
  | _ :: t' => pan_calls t'
  end.

(** The arguments of the zoom callbacks of a trace, in order. *)
Fixpoint zoom_calls (t : list call) : list number :=
  match t with
  | [] => []
  | ZoomCallback delta :: t' => delta :: zoom_calls t'
  | _ :: t' => zoom_calls t'
  end.

(** Whether a trace consumes the event. *)
Definition consumed (t : list call) : Prop := In PreventDefault t.

(** The key code the key-down handler dispatches on. *)
Definition charCode_of (ev : KeyboardHandler.KeyboardEvent) : option Z :=
  if KeyboardHandler.truthy_code (KeyboardHandler.which ev)
  then KeyboardHandler.which ev
  else KeyboardHandler.keyCode ev.

(** The Euclidean distance between the points (x0,y0) and (x1,y1). *)
Definition euclid (x0 y0 x1 y1 : R) : R :=
  sqrt ((x0 - x1) ^ 2 + (y0 - y1) ^ 2).

(** The distance between two touch points, as a [number]. *)
Definition distance (p q : TouchHandler.Touch) : number :=
  Math_sqrt
    (Math_pow (TouchHandler.pageX p - TouchHandler.pageX q) (Fin 2) +
     Math_pow (TouchHandler.pageY p - TouchHandler.pageY q) (Fin 2))%js.

(** The states a touch handler can be in: those its three listeners lead
    to from the constructor's.  A listener that throws leaves the state it
    had reached. *)
Inductive reachable : TouchHandler.TouchHandler -> Prop :=
  | reachable_new : reachable TouchHandler.new
  | reachable_start h ev :
      reachable h -> reachable (final (TouchHandler.touchStartHandler ev h))
  | reachable_move h ev :
      reachable h -> reachable (final (TouchHandler.touchMoveHandler ev h))
  | reachable_end h ev :
      reachable h -> reachable (final (TouchHandler.touchEndHandler ev h)).

(** What the handler relies on when it reads its finger slots. *)
Definition tracked (h : TouchHandler.TouchHandler) : Prop :=
  exists a b : option TouchHandler.Touch,
    TouchHandler.fingers h = [a; b] /\
    (TouchHandler.mode h = 1%nat -> is_Some a) /\
    (TouchHandler.mode h = 2%nat -> is_Some a /\ is_Some b).

(** The invariant of the viewer: a level of [1,10] and its power of two. *)
Definition level_ok (v : Viewer) : Prop :=
  exists z : R,
    zoom v = Fin z /\ 1 <= z <= 10 /\ divider v = Fin (Rpower 2 (z - 1)).

(** The rectangle whose four numbers are NaN. *)
Definition viewBox_NaN : doc_call := setAttribute_viewBox NaN NaN NaN NaN.

(** A wheel event the normaliser maps to a number. *)
Definition wheel_ok (e : MouseHandler.WheelEvent) : Prop :=
  ToBoolean (MouseHandler.detail e) = true \/
  ToNumber (MouseHandler.wheelDelta e) <> NaN.

(** A touch event whose first two touch points, when it carries them, are
    at a finite distance as the code computes it. *)
Definition touch_ok (e : TouchHandler.TouchEvent) : Prop :=
  forall t0 t1 : TouchHandler.Touch,
    TouchHandler.touches e !! 0%nat = Some t0 ->
    TouchHandler.touches e !! 1%nat = Some t1 ->
    finite (distance t0 t1).

(** A gesture tracker whose two finger snapshots, in two-finger mode, are
    at a finite distance as the code computes it. *)
Definition pinch_ok (h : TouchHandler.TouchHandler) : Prop :=
  TouchHandler.mode h = 2%nat ->
  forall f0 f1 : TouchHandler.Touch,
    TouchHandler.array_get (TouchHandler.fingers h) 0 = Some f0 ->
    TouchHandler.array_get (TouchHandler.fingers h) 1 = Some f1 ->
    finite (distance f0 f1).

(** The events whose numbers the handlers can compute with: wheel events
    that carry a usable field, touch events whose first two touch points
    are at a finite distance, and every other event. *)
Definition event_ok (ev : SVGPAZ.DOMEvent) : Prop :=
  match ev with
  | SVGPAZ.mousewheel e | SVGPAZ.DOMMouseScroll e => wheel_ok e
  | SVGPAZ.touchstart e | SVGPAZ.touchmove e | SVGPAZ.touchend e => touch_ok e
  | _ => True
  end.

(** A call that does not ask for a NaN zoom. *)
Definition call_ok (c : call) : Prop :=
  match c with
  | ZoomCallback delta => delta <> NaN
  | _ => True
  end.

(** The invariant of the page. *)
Definition page_ok (p : SVGPAZ.Page) : Prop :=
  level_ok (SVGPAZ.viewer p) /\ pinch_ok (SVGPAZ.touch p).

(** The key codes the key-down handler maps. *)
Definition mapped_codes : list Z := [107; 109; 39; 37; 38; 40]%Z.

(** The events of a drag: a press at (x0,y0), then a move to each point of
    [moves] in turn. *)
Definition drag (x0 y0 : R) (moves : list (R * R)) : list SVGPAZ.DOMEvent :=
  SVGPAZ.mousedown (MouseHandler.mkMouseEvent (Fin x0) (Fin y0)) ::
  map (fun m => SVGPAZ.mousemove
                  (MouseHandler.mkMouseEvent (Fin (fst m)) (Fin (snd m))))
      moves.

(** Where a path that starts at [start] and goes through [moves] ends. *)
Fixpoint end_of (start : R * R) (moves : list (R * R)) : R * R :=
  match moves with
  | [] => start
  | m :: moves' => end_of m moves'
  end.

(** The key-down event of a key code, as [which] gives it. *)
Definition key (code : Z) : SVGPAZ.DOMEvent :=
  SVGPAZ.keydown (KeyboardHandler.mkKeyboardEvent (Some code) None).

(** The events of a one-finger swipe: a touch-start at (x0,y0), then a
    touch-move to each point of [moves] in turn. *)
Definition swipe (x0 y0 : R) (moves : list (R * R)) : list SVGPAZ.DOMEvent :=
  SVGPAZ.touchstart
    (TouchHandler.mkTouchEvent [TouchHandler.mkTouch (Fin x0) (Fin y0)]) ::
  map (fun m => SVGPAZ.touchmove
                  (TouchHandler.mkTouchEvent
                     [TouchHandler.mkTouch (Fin (fst m)) (Fin (snd m))]))
      moves.

(** The events delivered in turn to the listeners of one object: its state
    is threaded from one event to the next and the calls accumulate; a
    listener that throws keeps the state it had reached, and the next
    event is delivered all the same. *)
Fixpoint handle_all {E St A} (method : A -> M E St unit) (evs : list A)
  (s : St) : St * list E :=
  match evs with
  | [] => (s, [])
  | ev :: evs' =>
      match method ev s with
      | (_, s1, calls1) =>
          match handle_all method evs' s1 with
          | (s2, calls2) => (s2, calls1 ++ calls2)
          end
      end
  end.

(** A whole number of pixels in the range of a DOM [long]: on such
    coordinates the differences and sums the handlers compute are exact in
    the code's arithmetic. *)
Definition pixel (n : Z) : Prop := (- 2 ^ 31 <= n < 2 ^ 31)%Z.

Definition pixels (m : Z * Z) : Prop := pixel (fst m) /\ pixel (snd m).

(** The mouse event, the touch point and the one-finger touch event at a
    point of whole coordinates. *)
Definition mouse_at (m : Z * Z) : MouseHandler.MouseEvent :=
  MouseHandler.mkMouseEvent (Fin (IZR (fst m))) (Fin (IZR (snd m))).

Definition touch_at (m : Z * Z) : TouchHandler.Touch :=
  TouchHandler.mkTouch (Fin (IZR (fst m))) (Fin (IZR (snd m))).

Definition finger_at (m : Z * Z) : TouchHandler.TouchEvent :=
  TouchHandler.mkTouchEvent [touch_at m].

(** Where a path of whole points that starts at [start] ends. *)
Fixpoint end_at (start : Z * Z) (moves : list (Z * Z)) : Z * Z :=
  match moves with
  | [] => start
  | m :: moves' => end_at m moves'
  end.

(** The pan requests of a list added up, each component on its own, in the
    order in which they were issued. *)
Definition add_pan (acc d : number * number) : number * number :=
  ((fst acc + fst d)%js, (snd acc + snd d)%js).

Definition total_pan (pans : list (number * number)) : number * number :=
  fold_left add_pan pans (Fin 0, Fin 0).


(** A drag as the mouse handler sees it: the state it is left in and the
    calls it made, after a press at [start] and a move to each point of
    [moves] in turn. *)
Definition drag_run (h : MouseHandler.MouseHandler) (start : Z * Z)
  (moves : list (Z * Z)) : MouseHandler.MouseHandler * list call :=
  handle_all MouseHandler.mouseMoveHandler (map mouse_at moves)
    (final (MouseHandler.mouseDownHandler (mouse_at start) h)).

(** A one-finger swipe as the touch handler sees it: a touch-start at
    [start], then a touch-move to each point of [moves] in turn. *)
Definition swipe_run (h : TouchHandler.TouchHandler) (start : Z * Z)
  (moves : list (Z * Z)) : TouchHandler.TouchHandler * list call :=
  handle_all TouchHandler.touchMoveHandler (map finger_at moves)
    (final (TouchHandler.touchStartHandler (finger_at start) h)).


(** * Properties *)

(** ** Arithmetic of [number] on finite values *)

(** Decides the comparisons of reals a goal branches on, closing the
    branches that contradict the context. *)
Ltac case_reals :=
  repeat match goal with
  | |- context [Rlt_dec ?a ?b] => destruct (Rlt_dec a b); try lra
  | |- context [Req_dec_T ?a ?b] => destruct (Req_dec_T a b); try lra
  | |- context [Rle_dec ?a ?b] => destruct (Rle_dec a b); try lra
  | H : context [Rle_dec ?a ?b] |- _ => destruct (Rle_dec a b); try lra
  | H : context [Rlt_dec ?a ?b] |- _ => destruct (Rlt_dec a b); try lra
  end.

(** Runs a handler: unfolds the operations of [M]. *)
Ltac run :=
  cbv [bind ret get modify emit throw deref preventDefault panCallback
       zoomCallback outcome final trace fst snd app].

Lemma integer_of_IZR (z : Z) : integer_of (IZR z) = Some z.
Proof.
  unfold integer_of.
  assert (H : Int_part (IZR z) = z).
  { symmetry. apply Int_part_spec. lra. }
  rewrite H. destruct (Req_dec_T (IZR z) (IZR z)); congruence.
Qed.

(** [Math.pow(2, e)] is the real power of two. *)
Lemma Math_pow_two_to (e : R) : Math_pow (Fin 2) (Fin e) = Fin (Rpower 2 e).
Proof.
  unfold Math_pow. destruct (Req_dec_T e 0) as [->|_].
  - rewrite Rpower_O by lra. reflexivity.
  - destruct (Rlt_dec 0 2); [reflexivity | lra].
Qed.

(** [Math.pow(a, 2)] is the square, whatever the sign of [a]. *)
Lemma Math_pow_square (a : R) : Math_pow (Fin a) (Fin 2) = Fin (a * a).
Proof.
  unfold Math_pow. destruct (Req_dec_T 2 0); [lra |].
  destruct (Rlt_dec 0 a) as [Hpos|Hnpos].
  - f_equal. replace 2 with (INR 2) by (simpl; lra).
    rewrite Rpower_pow by assumption. simpl. lra.
  - destruct (Req_dec_T a 0) as [->|Hnz].
    + destruct (Rlt_dec 0 2); [f_equal; lra | lra].
    + rewrite (integer_of_IZR 2). f_equal. simpl. lra.
Qed.

Lemma Math_sqrt_nonneg (a : R) : 0 <= a -> Math_sqrt (Fin a) = Fin (sqrt a).
Proof. intros Ha. unfold Math_sqrt. case_reals. reflexivity. Qed.

Lemma Math_min_Fin (a b : R) : Math_min (Fin a) (Fin b) = Fin (Rmin a b).
Proof.
  unfold Math_min, Rmin; simpl. case_reals; f_equal; lra.
Qed.

Lemma Math_max_Fin (a b : R) : Math_max (Fin a) (Fin b) = Fin (Rmax a b).
Proof.
  unfold Math_max, Rmax; simpl. case_reals; f_equal; lra.
Qed.

Lemma div_Fin (a b : R) : b <> 0 -> (Fin a / Fin b)%js = Fin (a / b).
Proof. intros Hb. unfold div. case_reals. reflexivity. Qed.

Lemma Rpower_2_nat (x : R) (n : nat) : x = INR n -> Rpower 2 x = 2 ^ n.
Proof. intros ->. apply Rpower_pow. lra. Qed.

(** ** The Viewer: zoom *)

(** The zoom level after [zoomSet], by the kind of the requested level
    [zoom + delta]. *)
Lemma zoomSet_zoom (v : Viewer) (delta : number) :
  zoom (final (zoomSet delta v)) =
  Math_min (Fin 10) (Math_max (Fin 1) (zoom v + delta)%js).
Proof. reflexivity. Qed.

Lemma zoomSet_divider (v : Viewer) (delta : number) :
  divider (final (zoomSet delta v)) =
  Math_pow (Fin 2) (zoom (final (zoomSet delta v)) - Fin 1)%js.
Proof. reflexivity. Qed.

(** Clamping a level that is not NaN gives a real of [1,10]. *)
Lemma clamp_level (x : number) :
  x <> NaN ->
  exists z : R,
    Math_min (Fin 10) (Math_max (Fin 1) x) = Fin z /\ 1 <= z <= 10 /\
    (forall a, x = Fin a -> z = Rmin 10 (Rmax 1 a)).
Proof.
  intros Hx. destruct x as [a| | |]; [| | |congruence].
  - rewrite Math_max_Fin, Math_min_Fin. eexists; split; [reflexivity|].
    split.
    + unfold Rmin, Rmax. case_reals.
    + intros a' [= ->]. reflexivity.
  - exists 10. unfold Math_min, Math_max; simpl. case_reals.
    repeat split; try lra. intros a [=].
  - exists 1. unfold Math_min, Math_max; simpl. case_reals.
    repeat split; try lra. intros a [=].
Qed.

(** [zoomSet] never throws and publishes the rectangle once. *)
Lemma zoomSet_returns (v : Viewer) (delta : number) :
  outcome (zoomSet delta v) = Ok tt /\ length (trace (zoomSet delta v)) = 1%nat.
Proof. split; reflexivity. Qed.

(** A request that is not NaN leaves a level of [1,10] and its power of
    two. *)
Lemma zoomSet_level (v : Viewer) (delta : number) :
  (zoom v + delta)%js <> NaN ->
  exists z : R,
    zoom (final (zoomSet delta v)) = Fin z /\ 1 <= z <= 10 /\
    divider (final (zoomSet delta v)) = Fin (Rpower 2 (z - 1)).
Proof.
  intros Hreq. destruct (clamp_level _ Hreq) as (z & Hz & Hrange & _).
  exists z. rewrite zoomSet_divider, zoomSet_zoom, Hz.
  split; [reflexivity|]. split; [lra|].
  simpl sub. simpl add. rewrite Math_pow_two_to. reflexivity.
Qed.

Lemma zoomSet_finite (v : Viewer) (z0 d : R) :
  zoom v = Fin z0 ->
  zoom (final (zoomSet (Fin d) v)) = Fin (Rmin 10 (Rmax 1 (z0 + d))).
Proof.
  intros Hz. rewrite zoomSet_zoom, Hz. simpl add.
  rewrite Math_max_Fin, Math_min_Fin. reflexivity.
Qed.

(** The invariant of the viewer, as long as no zoom request is NaN. *)
Lemma viewer_reachable_level (width height offsetWidth : number) (v : Viewer) :
  viewer_reachable width height offsetWidth v ->
  exists z : R,
    zoom v = Fin z /\ 1 <= z <= 10 /\ divider v = Fin (Rpower 2 (z - 1)).
Proof.
  induction 1 as [|v deltaX deltaY _ IH|v delta _ IH Hdelta].
  - exists 1. simpl. repeat split; try lra.
    f_equal. rewrite (Rpower_2_nat _ 0) by (simpl; lra). lra.
  - exact IH.
  - destruct IH as (z & Hz & _). apply zoomSet_level.
    rewrite Hz. destruct delta; simpl; congruence.
Qed.

(** C1 (as amended): whenever the requested level [zoom + delta] is not NaN
    (so in every state reached without a NaN request, for every delta
    other than NaN), [zoomSet delta] returns without error, leaves a zoom
    level in [1,10] and a divider equal to 2^(zoom-1); a finite request is
    clamped to [min 10 (max 1 (zoom + delta))].  From zoom 1, [zoomSet 1]
    gives zoom 2 and divider 2; from zoom 2, [zoomSet 20] gives zoom 10 and
    divider 512. *)
Theorem zoomSet_range :
  (forall (v : Viewer) (delta : number),
     (zoom v + delta)%js <> NaN ->
     outcome (zoomSet delta v) = Ok tt /\
     exists z : R,
       zoom (final (zoomSet delta v)) = Fin z /\ 1 <= z <= 10 /\
       divider (final (zoomSet delta v)) = Fin (Rpower 2 (z - 1))) /\
  (forall (width height offsetWidth : number) (v : Viewer) (delta : number),
     viewer_reachable width height offsetWidth v -> delta <> NaN ->
     outcome (zoomSet delta v) = Ok tt /\
     exists z : R,
       zoom (final (zoomSet delta v)) = Fin z /\ 1 <= z <= 10 /\
       divider (final (zoomSet delta v)) = Fin (Rpower 2 (z - 1))) /\
  (forall (v : Viewer) (z0 d : R),
     zoom v = Fin z0 ->
     zoom (final (zoomSet (Fin d) v)) = Fin (Rmin 10 (Rmax 1 (z0 + d)))) /\
  (forall v : Viewer,
     zoom v = Fin 1 ->
     zoom (final (zoomSet (Fin 1) v)) = Fin 2 /\
     divider (final (zoomSet (Fin 1) v)) = Fin 2) /\
  (forall v : Viewer,
     zoom v = Fin 2 ->
     zoom (final (zoomSet (Fin 20) v)) = Fin 10 /\
     divider (final (zoomSet (Fin 20) v)) = Fin 512).
Proof.
  split; [|split; [|split; [exact zoomSet_finite|split]]].
  - intros v delta Hreq. split; [reflexivity | apply zoomSet_level, Hreq].
  - intros width height offsetWidth v delta Hreach Hdelta.
    split; [reflexivity|].
    apply (viewer_reachable_level _ _ _ _
             (viewer_reachable_zoom _ _ _ v delta Hreach Hdelta)).
  - intros v Hz.
    assert (Hz' : zoom (final (zoomSet (Fin 1) v)) = Fin 2).
    { rewrite (zoomSet_finite v 1 1 Hz). f_equal. unfold Rmin, Rmax. case_reals. }
    split; [exact Hz'|].
    rewrite zoomSet_divider, Hz'. simpl sub. simpl add.
    rewrite Math_pow_two_to. f_equal.
    rewrite (Rpower_2_nat _ 1) by (simpl; lra). lra.
  - intros v Hz.
    assert (Hz' : zoom (final (zoomSet (Fin 20) v)) = Fin 10).
    { rewrite (zoomSet_finite v 2 20 Hz). f_equal. unfold Rmin, Rmax. case_reals. }
    split; [exact Hz'|].
    rewrite zoomSet_divider, Hz'. simpl sub. simpl add.
    rewrite Math_pow_two_to. f_equal.
    rewrite (Rpower_2_nat _ 9) by (simpl; lra). lra.
Qed.

(** The amended C1 at a fresh viewer of an 800 x 600 document shown 400
    pixels wide, zoomed by one level. *)
Lemma zoomSet_range_witness :
  outcome (zoomSet (Fin 1) (Viewer.new (Fin 800) (Fin 600) (Fin 400))) = Ok tt /\
  exists z : R,
    zoom (final (zoomSet (Fin 1) (Viewer.new (Fin 800) (Fin 600) (Fin 400))))
      = Fin z /\ 1 <= z <= 10 /\
    divider (final (zoomSet (Fin 1) (Viewer.new (Fin 800) (Fin 600) (Fin 400))))
      = Fin (Rpower 2 (z - 1)).
Proof.
  apply (proj1 zoomSet_range (Viewer.new (Fin 800) (Fin 600) (Fin 400)) (Fin 1)).
  simpl. discriminate.
Defined.

(** C1 as stated fails on a NaN request: from the initial state (zoom 1,
    divider 1), [zoomSet NaN] leaves zoom and divider NaN, so the level is
    not in [1,10]. *)
Lemma zoomSet_NaN_leaves_range :
  zoom (final (zoomSet NaN (Viewer.new (Fin 800) (Fin 600) (Fin 400)))) = NaN /\
  divider (final (zoomSet NaN (Viewer.new (Fin 800) (Fin 600) (Fin 400)))) = NaN /\
  ~ (exists z : R,
       zoom (final (zoomSet NaN (Viewer.new (Fin 800) (Fin 600) (Fin 400))))
         = Fin z /\ 1 <= z <= 10).
Proof.
  repeat split; try reflexivity.
  intros (z & Hz & _). discriminate Hz.
Qed.

(** Once NaN, the zoom level stays NaN whatever is requested next. *)
Lemma zoomSet_NaN_absorbing (v : Viewer) (delta : number) :
  zoom v = NaN -> zoom (final (zoomSet delta v)) = NaN.
Proof. intros Hz. rewrite zoomSet_zoom, Hz. reflexivity. Qed.

(** ** The Viewer: frame conditions *)

Lemma panningSet_keeps (v : Viewer) (deltaX deltaY : number) :
  divider (final (panningSet deltaX deltaY v)) = divider v /\
  containerRatio (final (panningSet deltaX deltaY v)) = containerRatio v.
Proof. split; reflexivity. Qed.

(** C9: [zoomSet] changes at most the zoom and the divider, [panningSet] at
    most the two center coordinates. *)
Theorem viewer_frame (v : Viewer) (delta deltaX deltaY : number) :
  (centerX (final (zoomSet delta v)) = centerX v /\
   centerY (final (zoomSet delta v)) = centerY v /\
   maxWidth (final (zoomSet delta v)) = maxWidth v /\
   maxHeight (final (zoomSet delta v)) = maxHeight v /\
   containerRatio (final (zoomSet delta v)) = containerRatio v) /\
  (zoom (final (panningSet deltaX deltaY v)) = zoom v /\
   divider (final (panningSet deltaX deltaY v)) = divider v /\
   maxWidth (final (panningSet deltaX deltaY v)) = maxWidth v /\
   maxHeight (final (panningSet deltaX deltaY v)) = maxHeight v /\
   containerRatio (final (panningSet deltaX deltaY v)) = containerRatio v).
Proof.
  split.
  - unfold zoomSet, redraw, bind, modify, get, emit, final. simpl.
    repeat split.
  - unfold panningSet, redraw, bind, modify, get, emit, final. simpl.
    repeat split.
Qed.

(** ** The Viewer: pan *)

Lemma new_viewer_fields :
  centerX (Viewer.new (Fin 800) (Fin 600) (Fin 400)) = Fin 400 /\
  centerY (Viewer.new (Fin 800) (Fin 600) (Fin 400)) = Fin 300 /\
  containerRatio (Viewer.new (Fin 800) (Fin 600) (Fin 400)) = Fin 2 /\
  divider (Viewer.new (Fin 800) (Fin 600) (Fin 400)) = Fin 1.
Proof.
  unfold Viewer.new; cbn [centerX centerY containerRatio divider].
  rewrite !div_Fin by lra.
  repeat split; f_equal; lra.
Qed.

Lemma panningSet_center (v : Viewer) (deltaX deltaY : number) :
  centerX (final (panningSet deltaX deltaY v)) =
    (centerX v + deltaX * containerRatio v / divider v)%js /\
  centerY (final (panningSet deltaX deltaY v)) =
    (centerY v + deltaY * containerRatio v / divider v)%js.
Proof. split; reflexivity. Qed.

(** C2: [panningSet deltaX deltaY] returns without error, adds
    [deltaX * containerRatio / divider] to [centerX] and
    [deltaY * containerRatio / divider] to [centerY], and then publishes the
    rectangle of the new state exactly once.  With a positive ratio and
    divider the center moves in the direction of the delta.  Nothing bounds
    the center: from the initial state of an 800 x 600 document shown 400
    pixels wide, a pan of 1000 pixels puts [centerX] at 2400. *)
Theorem panningSet_spec :
  (forall (v : Viewer) (deltaX deltaY : number),
     outcome (panningSet deltaX deltaY v) = Ok tt /\
     centerX (final (panningSet deltaX deltaY v)) =
       (centerX v + deltaX * containerRatio v / divider v)%js /\
     centerY (final (panningSet deltaX deltaY v)) =
       (centerY v + deltaY * containerRatio v / divider v)%js /\
     trace (panningSet deltaX deltaY v) =
       [viewBox (final (panningSet deltaX deltaY v))]) /\
  (forall (v : Viewer) (cx cy k d dx dy : R),
     centerX v = Fin cx -> centerY v = Fin cy ->
     containerRatio v = Fin k -> divider v = Fin d -> 0 < k -> 0 < d ->
     exists x' y' : R,
       centerX (final (panningSet (Fin dx) (Fin dy) v)) = Fin x' /\
       centerY (final (panningSet (Fin dx) (Fin dy) v)) = Fin y' /\
       x' = cx + dx * k / d /\ y' = cy + dy * k / d /\
       (0 < dx -> cx < x') /\ (dx < 0 -> x' < cx) /\
       (0 < dy -> cy < y') /\ (dy < 0 -> y' < cy)) /\
  (centerX (final (panningSet (Fin 1000) (Fin 0)
                     (Viewer.new (Fin 800) (Fin 600) (Fin 400)))) = Fin 2400 /\
   maxWidth (final (panningSet (Fin 1000) (Fin 0)
                      (Viewer.new (Fin 800) (Fin 600) (Fin 400)))) = Fin 800).
Proof.
  pose proof panningSet_center as Hgen.
  split; [|split].
  - intros v deltaX deltaY. destruct (Hgen v deltaX deltaY) as [HX HY].
    repeat split; assumption || reflexivity.
  - intros v cx cy k d dx dy Hcx Hcy Hk Hd Hkpos Hdpos.
    destruct (Hgen v (Fin dx) (Fin dy)) as [HX HY].
    rewrite Hcx, Hk, Hd in HX. rewrite Hcy, Hk, Hd in HY.
    simpl mul in HX, HY. rewrite div_Fin in HX, HY by lra.
    simpl add in HX, HY.
    exists (cx + dx * k / d), (cy + dy * k / d).
    assert (Hinv : 0 < / d) by (apply Rinv_0_lt_compat; assumption).
    assert (Hq : 0 < k * / d) by (apply Rmult_lt_0_compat; assumption).
    repeat split; try assumption; intros Hs; unfold Rdiv;
      rewrite Rmult_assoc; nra.
  - destruct new_viewer_fields as (Hcx & _ & Hk & Hd).
    destruct (Hgen (Viewer.new (Fin 800) (Fin 600) (Fin 400)) (Fin 1000) (Fin 0))
      as [HX _].
    rewrite Hcx, Hk, Hd in HX. simpl mul in HX. rewrite div_Fin in HX by lra.
    split; [|reflexivity].
    rewrite HX. cbn [add]. f_equal. lra.
Qed.

(** C2 at the initial state of an 800 x 600 document shown 400 pixels wide:
    a pan of (10, -5) pixels moves the center by (20, -10) units. *)
Lemma panningSet_spec_witness :
  exists x' y' : R,
    centerX (final (panningSet (Fin 10) (Fin (-5))
                      (Viewer.new (Fin 800) (Fin 600) (Fin 400)))) = Fin x' /\
    centerY (final (panningSet (Fin 10) (Fin (-5))
                      (Viewer.new (Fin 800) (Fin 600) (Fin 400)))) = Fin y' /\
    x' = 400 + 10 * 2 / 1 /\ y' = 300 + (-5) * 2 / 1 /\
    (0 < 10 -> 400 < x') /\ (10 < 0 -> x' < 400) /\
    (0 < -5 -> 300 < y') /\ (-5 < 0 -> y' < 300).
Proof.
  destruct new_viewer_fields as (Hcx & Hcy & Hk & Hd).
  apply (proj1 (proj2 panningSet_spec)
           (Viewer.new (Fin 800) (Fin 600) (Fin 400)) 400 300 2 1 10 (-5)
           Hcx Hcy Hk Hd); lra.
Defined.

(** C4: over exact arithmetic (finite center, ratio and deltas, and a
    finite divider other than zero), [panningSet] leaves the divider as it
    is, a pan of (a,b) followed by a pan of (c,e) leaves the center where
    one pan of (a+c, b+e) leaves it, and a pan of (a,b) followed by a pan
    of (-a,-b) restores the center. *)
Theorem panningSet_additive (v : Viewer) (cx cy k d a b c e : R) :
  centerX v = Fin cx -> centerY v = Fin cy ->
  containerRatio v = Fin k -> divider v = Fin d -> d <> 0 ->
  divider (final (panningSet (Fin a) (Fin b) v)) = divider v /\
  (centerX (final (panningSet (Fin c) (Fin e)
                     (final (panningSet (Fin a) (Fin b) v)))) =
     centerX (final (panningSet (Fin a + Fin c)%js (Fin b + Fin e)%js v)) /\
   centerY (final (panningSet (Fin c) (Fin e)
                     (final (panningSet (Fin a) (Fin b) v)))) =
     centerY (final (panningSet (Fin a + Fin c)%js (Fin b + Fin e)%js v))) /\
  (centerX (final (panningSet (- Fin a)%js (- Fin b)%js
                     (final (panningSet (Fin a) (Fin b) v)))) = centerX v /\
   centerY (final (panningSet (- Fin a)%js (- Fin b)%js
                     (final (panningSet (Fin a) (Fin b) v)))) = centerY v).
Proof.
  intros Hcx Hcy Hk Hd Hnz.
  destruct (panningSet_center v (Fin a) (Fin b)) as (HX1 & HY1).
  destruct (panningSet_keeps v (Fin a) (Fin b)) as (Hdiv & Hratio).
  split; [exact Hdiv|].
  assert (Hseq : forall p q : number,
            centerX (final (panningSet p q (final (panningSet (Fin a) (Fin b) v))))
              = (Fin (cx + a * k / d) + p * Fin k / Fin d)%js /\
            centerY (final (panningSet p q (final (panningSet (Fin a) (Fin b) v))))
              = (Fin (cy + b * k / d) + q * Fin k / Fin d)%js).
  { intros p q.
    destruct (panningSet_center (final (panningSet (Fin a) (Fin b) v)) p q)
      as (HX2 & HY2).
    rewrite HX2, HY2, HX1, HY1, Hdiv, Hratio, Hcx, Hcy, Hk, Hd.
    simpl mul. rewrite !div_Fin by assumption. split; reflexivity. }
  split.
  - destruct (Hseq (Fin c) (Fin e)) as [-> ->].
    destruct (panningSet_center v (Fin a + Fin c)%js (Fin b + Fin e)%js)
      as (-> & ->).
    rewrite Hcx, Hcy, Hk, Hd. cbn [mul add neg sub].
    rewrite !div_Fin by assumption. cbn [mul add neg sub].
    split; f_equal; field; assumption.
  - destruct (Hseq (- Fin a)%js (- Fin b)%js) as [-> ->].
    rewrite Hcx, Hcy. cbn [mul add neg sub].
    rewrite !div_Fin by assumption. cbn [mul add neg sub].
    split; f_equal; field; assumption.
Qed.

(** C4 at the initial state of an 800 x 600 document shown 400 pixels
    wide, for the pans (3,4) and (5,-6). *)
Lemma panningSet_additive_witness :
  divider (final (panningSet (Fin 3) (Fin 4)
                    (Viewer.new (Fin 800) (Fin 600) (Fin 400)))) =
    divider (Viewer.new (Fin 800) (Fin 600) (Fin 400)) /\
  (centerX (final (panningSet (Fin 5) (Fin (-6))
                     (final (panningSet (Fin 3) (Fin 4)
                               (Viewer.new (Fin 800) (Fin 600) (Fin 400)))))) =
     centerX (final (panningSet (Fin 3 + Fin 5)%js (Fin 4 + Fin (-6))%js
                       (Viewer.new (Fin 800) (Fin 600) (Fin 400)))) /\
   centerY (final (panningSet (Fin 5) (Fin (-6))
                     (final (panningSet (Fin 3) (Fin 4)
                               (Viewer.new (Fin 800) (Fin 600) (Fin 400)))))) =
     centerY (final (panningSet (Fin 3 + Fin 5)%js (Fin 4 + Fin (-6))%js
                       (Viewer.new (Fin 800) (Fin 600) (Fin 400))))) /\
  (centerX (final (panningSet (- Fin 3)%js (- Fin 4)%js
                     (final (panningSet (Fin 3) (Fin 4)
                               (Viewer.new (Fin 800) (Fin 600) (Fin 400)))))) =
     centerX (Viewer.new (Fin 800) (Fin 600) (Fin 400)) /\
   centerY (final (panningSet (- Fin 3)%js (- Fin 4)%js
                     (final (panningSet (Fin 3) (Fin 4)
                               (Viewer.new (Fin 800) (Fin 600) (Fin 400)))))) =
     centerY (Viewer.new (Fin 800) (Fin 600) (Fin 400))).
Proof.
  destruct new_viewer_fields as (Hcx & Hcy & Hk & Hd).
  apply (panningSet_additive
           (Viewer.new (Fin 800) (Fin 600) (Fin 400)) 400 300 2 1 3 4 5 (-6)
           Hcx Hcy Hk Hd).
  lra.
Defined.

(** ** The wheel normaliser *)

Import MouseHandler.

(** The three cases of the first block on finite values. *)
Lemma rawDelta_Fin (d w : R) :
  (d = 0 ->
   rawDelta (mkWheelEvent (num (Fin d)) (num (Fin w))) = Fin (w / 120)) /\
  (d <> 0 -> w = 0 ->
   rawDelta (mkWheelEvent (num (Fin d)) (num (Fin w))) = Fin (- d / 1.35)) /\
  (d <> 0 -> w <> 0 ->
   rawDelta (mkWheelEvent (num (Fin d)) (num (Fin w))) = Fin (d / (w / d))).
Proof.
  unfold rawDelta.
  cbn [detail wheelDelta ToBoolean ToNumber truthy_number neg].
  repeat split.
  - intros Hd. destruct (Req_dec_T d 0); [|contradiction].
    apply div_Fin. lra.
  - intros Hd Hw. destruct (Req_dec_T d 0); [contradiction|].
    destruct (Req_dec_T w 0); [|contradiction].
    cbn [andb]. apply div_Fin. lra.
  - intros Hd Hw. destruct (Req_dec_T d 0); [contradiction|].
    destruct (Req_dec_T w 0); [contradiction|].
    assert (Hf : w / d <> 0).
    { unfold Rdiv. apply Rmult_integral_contrapositive_currified;
        [assumption | apply Rinv_neq_0_compat; assumption]. }
    rewrite (div_Fin w d) by assumption.
    cbn [andb truthy_number].
    destruct (Req_dec_T (w / d) 0); [contradiction|].
    apply div_Fin. assumption.
Qed.

Lemma rawDelta_finite (d w : R) :
  exists y : R, rawDelta (mkWheelEvent (num (Fin d)) (num (Fin w))) = Fin y.
Proof.
  destruct (rawDelta_Fin d w) as (H0 & H1 & H2).
  destruct (Req_dec_T d 0) as [Hd|Hd]; [eexists; exact (H0 Hd)|].
  destruct (Req_dec_T w 0) as [Hw|Hw]; eexists; eauto.
Qed.

(** An event that carries neither [detail] nor [wheelDelta] is normalised
    to NaN. *)
Lemma normalizeWheelDelta_absent :
  normalizeWheelDelta (mkWheelEvent undefined undefined) = NaN.
Proof.
  unfold normalizeWheelDelta, rawDelta. cbn [detail ToBoolean ToNumber div].
  unfold quadraticScale. cbn [ltb]. unfold Math_pow.
  destruct (Req_dec_T 2 0); [lra | reflexivity].
Qed.

(** Through [SVGPAZ.init] such an event reaches the viewer: the wheel
    handler passes NaN to the zoom callback, and the viewer's zoom level
    becomes NaN. *)
Lemma wheelHandler_absent_reaches_viewer :
  trace (wheelHandler (mkWheelEvent undefined undefined) MouseHandler.new) =
    [ZoomCallback NaN] /\
  zoom (final (dispatch_all
                 (trace (wheelHandler (mkWheelEvent undefined undefined)
                           MouseHandler.new))
                 (Viewer.new (Fin 800) (Fin 600) (Fin 400)))) = NaN.
Proof.
  assert (Ht : trace (wheelHandler (mkWheelEvent undefined undefined)
                        MouseHandler.new) = [ZoomCallback NaN]).
  { unfold wheelHandler. run. rewrite normalizeWheelDelta_absent. reflexivity. }
  split; [exact Ht|]. rewrite Ht. reflexivity.
Qed.

(** The quadratic step on a finite delta, branch by branch. *)
Lemma quadraticScale_Fin (x : R) :
  quadraticScale (Fin x) =
  Fin (if Rlt_dec x 1
       then if Rlt_dec x (-1) then (- (x * x) - 224) / 225 else x
       else (x * x + 224) / 225).
Proof.
  unfold quadraticScale. cbn [ltb sub add neg].
  destruct (Rlt_dec x 1); [destruct (Rlt_dec x (-1))|];
    try reflexivity;
    rewrite Math_pow_square; cbn [add neg sub]; rewrite div_Fin by lra;
    f_equal; lra.
Qed.

(** C8: the quadratic step leaves a delta of [-1,1] as it is (at delta = 1
    it takes the quadratic branch, which gives 1 again), maps delta > 1 to
    (delta^2 + 224)/225 and delta < -1 to (-delta^2 - 224)/225. *)
Theorem quadraticScale_spec (x : R) :
  (-1 <= x <= 1 -> quadraticScale (Fin x) = Fin x) /\
  (1 < x -> quadraticScale (Fin x) = Fin ((x ^ 2 + 224) / 225)) /\
  (x < -1 -> quadraticScale (Fin x) = Fin ((- x ^ 2 - 224) / 225)).
Proof.
  rewrite quadraticScale_Fin.
  repeat split; intros Hx.
  - destruct (Rlt_dec x 1) as [Hlt|Hge].
    + destruct (Rlt_dec x (-1)); [lra | reflexivity].
    + assert (x = 1) by lra. subst x. f_equal. lra.
  - destruct (Rlt_dec x 1); [lra|]. f_equal. lra.
  - destruct (Rlt_dec x 1); [|lra].
    destruct (Rlt_dec x (-1)); [|lra]. f_equal. lra.
Qed.

(** C8 at the boundary delta = 1, and on either side of the unit range. *)
Lemma quadraticScale_spec_witness :
  quadraticScale (Fin 1) = Fin 1 /\
  quadraticScale (Fin 16) = Fin ((16 ^ 2 + 224) / 225) /\
  quadraticScale (Fin (-16)) = Fin ((- (-16) ^ 2 - 224) / 225).
Proof.
  split; [|split].
  - apply (proj1 (quadraticScale_spec 1)). lra.
  - apply (proj1 (proj2 (quadraticScale_spec 16))). lra.
  - apply (proj2 (proj2 (quadraticScale_spec (-16)))). lra.
Defined.

Lemma quadraticScale_finite (x : R) :
  exists y : R, quadraticScale (Fin x) = Fin y.
Proof. eexists. apply quadraticScale_Fin. Qed.

(** The last block on a finite delta: halve, then clamp to [-1,1]. *)
Lemma finalClamp_Fin (x : R) :
  finalClamp (Fin x) = Fin (Rmin (Rmax (x / 2) (-1)) 1).
Proof.
  unfold finalClamp. rewrite div_Fin by lra.
  rewrite Math_max_Fin, Math_min_Fin. reflexivity.
Qed.

(** Whatever the delta, the last block gives NaN or a number of [-1,1]. *)
Lemma finalClamp_range (x : number) :
  finalClamp x = NaN \/ exists r : R, finalClamp x = Fin r /\ -1 <= r <= 1.
Proof.
  destruct x as [a| | |].
  - right. rewrite finalClamp_Fin. eexists; split; [reflexivity|].
    unfold Rmin, Rmax. case_reals.
  - right. exists 1. unfold finalClamp, Math_min, Math_max, div; simpl.
    case_reals. simpl. case_reals. split; [reflexivity | lra].
  - right. exists (-1). unfold finalClamp, Math_min, Math_max, div; simpl.
    case_reals. simpl. case_reals. split; [reflexivity | lra].
  - left. reflexivity.
Qed.

(** Whatever the event, the normaliser gives NaN or a number of [-1,1]. *)
Lemma normalizeWheelDelta_NaN_or_range (ev : WheelEvent) :
  normalizeWheelDelta ev = NaN \/
  exists r : R, normalizeWheelDelta ev = Fin r /\ -1 <= r <= 1.
Proof. unfold normalizeWheelDelta. apply finalClamp_range. Qed.

(** One notch of a wheel that reports [wheelDelta] = 120 and no line count
    zooms by half a level. *)
Example normalizeWheelDelta_notch :
  normalizeWheelDelta (mkWheelEvent (num (Fin 0)) (num (Fin 120))) = Fin (1 / 2).
Proof.
  unfold normalizeWheelDelta.
  rewrite (proj1 (rawDelta_Fin 0 120)) by reflexivity.
  replace (120 / 120) with 1 by lra.
  rewrite quadraticScale_Fin, finalClamp_Fin.
  f_equal. unfold Rmin, Rmax. case_reals.
Qed.

(** C3: for a wheel event whose [detail] and [wheelDelta] are finite
    numbers, the delta that leaves the quadratic step is finite, the
    normaliser returns half of it clamped to [-1,1], and so a number of
    [-1,1]. *)
Theorem normalizeWheelDelta_range (d w : R) :
  exists x r : R,
    quadraticScale (rawDelta (mkWheelEvent (num (Fin d)) (num (Fin w)))) = Fin x /\
    normalizeWheelDelta (mkWheelEvent (num (Fin d)) (num (Fin w))) = Fin r /\
    r = Rmin (Rmax (x / 2) (-1)) 1 /\
    -1 <= r <= 1.
Proof.
  destruct (rawDelta_finite d w) as [y Hy].
  destruct (quadraticScale_finite y) as [x Hx].
  exists x, (Rmin (Rmax (x / 2) (-1)) 1).
  unfold normalizeWheelDelta. rewrite Hy, Hx.
  split; [reflexivity|]. split; [apply finalClamp_Fin|].
  split; [reflexivity|].
  unfold Rmin, Rmax. case_reals.
Qed.

(** ** The drag tracker *)

(** A press starts a drag at the event's coordinates, a release ends it;
    both consume the event and invoke no callback. *)
Lemma mouseDownHandler_spec (h : MouseHandler) (ev : MouseEvent) :
  mouseDownHandler ev h =
    (Ok tt, mkMouseHandler true (clientX ev) (clientY ev), [PreventDefault]).
Proof. reflexivity. Qed.

Lemma mouseUpHandler_spec (h : MouseHandler) (ev : MouseEvent) :
  mouseUpHandler ev h =
    (Ok tt, mkMouseHandler false (originX h) (originY h), [PreventDefault]).
Proof. reflexivity. Qed.

(** C5: a move while dragging returns without error, consumes the event,
    invokes the pan callback exactly once, with
    (originX - clientX, originY - clientY), invokes no zoom callback, and
    leaves the origin at the event's coordinates; a move while idle changes
    nothing and calls nothing.  A press at (100,100) followed by a move to
    (90,95) gives one pan callback, with (10,5). *)
Theorem mouseMoveHandler_spec :
  (forall (h : MouseHandler) (ev : MouseEvent),
     dragging h = true ->
     outcome (mouseMoveHandler ev h) = Ok tt /\
     pan_calls (trace (mouseMoveHandler ev h)) =
       [((originX h - clientX ev)%js, (originY h - clientY ev)%js)] /\
     zoom_calls (trace (mouseMoveHandler ev h)) = [] /\
     consumed (trace (mouseMoveHandler ev h)) /\
     final (mouseMoveHandler ev h) =
       mkMouseHandler true (clientX ev) (clientY ev)) /\
  (forall (h : MouseHandler) (ev : MouseEvent),
     dragging h = false ->
     mouseMoveHandler ev h = (Ok tt, h, [])) /\
  (forall h : MouseHandler,
     dragging (final (mouseDownHandler (mkMouseEvent (Fin 100) (Fin 100)) h))
       = true /\
     pan_calls
       (trace (mouseMoveHandler (mkMouseEvent (Fin 90) (Fin 95))
                 (final (mouseDownHandler (mkMouseEvent (Fin 100) (Fin 100)) h))))
       = [(Fin 10, Fin 5)]).
Proof.
  split; [|split].
  - intros [dr ox oy] ev Hd. simpl in Hd. subst dr.
    unfold mouseMoveHandler. run. cbn.
    repeat split. left. reflexivity.
  - intros [dr ox oy] ev Hd. simpl in Hd. subst dr. reflexivity.
  - intros [dr ox oy]. split; [reflexivity|].
    unfold mouseMoveHandler, mouseDownHandler. run. cbn.
    repeat f_equal; lra.
Qed.

(** C5 for a handler that was pressed at (100,100) and sees a move to
    (90,95). *)
Lemma mouseMoveHandler_spec_witness :
  outcome (mouseMoveHandler (mkMouseEvent (Fin 90) (Fin 95))
             (mkMouseHandler true (Fin 100) (Fin 100))) = Ok tt /\
  pan_calls (trace (mouseMoveHandler (mkMouseEvent (Fin 90) (Fin 95))
                      (mkMouseHandler true (Fin 100) (Fin 100)))) =
    [((Fin 100 - Fin 90)%js, (Fin 100 - Fin 95)%js)] /\
  zoom_calls (trace (mouseMoveHandler (mkMouseEvent (Fin 90) (Fin 95))
                       (mkMouseHandler true (Fin 100) (Fin 100)))) = [] /\
  consumed (trace (mouseMoveHandler (mkMouseEvent (Fin 90) (Fin 95))
                     (mkMouseHandler true (Fin 100) (Fin 100)))) /\
  final (mouseMoveHandler (mkMouseEvent (Fin 90) (Fin 95))
           (mkMouseHandler true (Fin 100) (Fin 100))) =
    mkMouseHandler true (Fin 90) (Fin 95).
Proof.
  apply (proj1 mouseMoveHandler_spec
           (mkMouseHandler true (Fin 100) (Fin 100))
           (mkMouseEvent (Fin 90) (Fin 95))).
  reflexivity.
Defined.

(** ** The key mapper *)

Import KeyboardHandler.

(** Whatever the key code, the handler makes at most one call, and that
    call is a callback. *)
Lemma keydownHandler_cases (ev : KeyboardEvent) :
  outcome (keydownHandler ev tt) = Ok tt /\
  (trace (keydownHandler ev tt) = [] \/
   (exists d, trace (keydownHandler ev tt) = [ZoomCallback d]) \/
   (exists dx dy, trace (keydownHandler ev tt) = [PanCallback dx dy])).
Proof.
  unfold keydownHandler.
  destruct (if truthy_code (which ev) then which ev else keyCode ev)
    as [[|p|p]|]; try (split; [reflexivity | left; reflexivity]).
  repeat (destruct p as [p|p|];
          try (split; [reflexivity | left; reflexivity])).
  all: split; try reflexivity; right; cbn; eauto.
Qed.

(** C10: the key-down handler never consumes the event, whether the key is
    mapped or not; and it does invoke its callback on each mapped key
    code: 107 and 109 zoom by 1 and -1, 39, 37, 38 and 40 pan by (10,0),
    (-10,0), (0,-10) and (0,10). *)
Theorem keydownHandler_never_consumes :
  (forall ev : KeyboardEvent,
     outcome (keydownHandler ev tt) = Ok tt /\
     ~ consumed (trace (keydownHandler ev tt))) /\
  (forall ev : KeyboardEvent,
     (charCode_of ev = Some 107%Z ->
      trace (keydownHandler ev tt) = [ZoomCallback (Fin 1)]) /\
     (charCode_of ev = Some 109%Z ->
      trace (keydownHandler ev tt) = [ZoomCallback (Fin (-1))]) /\
     (charCode_of ev = Some 39%Z ->
      trace (keydownHandler ev tt) = [PanCallback (Fin 10) (Fin 0)]) /\
     (charCode_of ev = Some 37%Z ->
      trace (keydownHandler ev tt) = [PanCallback (Fin (-10)) (Fin 0)]) /\
     (charCode_of ev = Some 38%Z ->
      trace (keydownHandler ev tt) = [PanCallback (Fin 0) (Fin (-10))]) /\
     (charCode_of ev = Some 40%Z ->
      trace (keydownHandler ev tt) = [PanCallback (Fin 0) (Fin 10)])).
Proof.
  split.
  - intros ev. destruct (keydownHandler_cases ev) as [Hok Htrace].
    split; [exact Hok|]. unfold consumed.
    destruct Htrace as [-> | [[d ->] | (dx & dy & ->)]]; simpl; intros H;
      repeat match type of H with _ \/ _ => destruct H as [H|H] end;
      try discriminate H; exact H.
  - intros ev. unfold keydownHandler, charCode_of.
    repeat split; intros ->; reflexivity.
Qed.

(** C10 on the plus key (code 107, given by [which]): one zoom callback,
    and the event is not consumed. *)
Lemma keydownHandler_never_consumes_witness :
  (outcome (keydownHandler (mkKeyboardEvent (Some 107%Z) None) tt) = Ok tt /\
   ~ consumed (trace (keydownHandler (mkKeyboardEvent (Some 107%Z) None) tt))) /\
  trace (keydownHandler (mkKeyboardEvent (Some 107%Z) None) tt)
    = [ZoomCallback (Fin 1)].
Proof.
  split.
  - apply (proj1 keydownHandler_never_consumes
             (mkKeyboardEvent (Some 107%Z) None)).
  - apply (proj1 (proj2 keydownHandler_never_consumes
                    (mkKeyboardEvent (Some 107%Z) None))).
    reflexivity.
Defined.

(** Through [SVGPAZ.init], the plus key takes a fresh viewer to zoom 2 and
    redraws once. *)
Example keydown_plus_zooms :
  zoom (final (dispatch_all
                 (trace (keydownHandler (mkKeyboardEvent (Some 107%Z) None) tt))
                 (Viewer.new (Fin 800) (Fin 600) (Fin 400)))) = Fin 2 /\
  length (trace (dispatch_all
                   (trace (keydownHandler (mkKeyboardEvent (Some 107%Z) None) tt))
                   (Viewer.new (Fin 800) (Fin 600) (Fin 400)))) = 1%nat.
Proof.
  split; [|reflexivity].
  change (zoom (final (zoomSet (Fin 1) (Viewer.new (Fin 800) (Fin 600) (Fin 400))))
          = Fin 2).
  rewrite (zoomSet_finite _ 1 1) by reflexivity.
  f_equal. unfold Rmin, Rmax. case_reals.
Qed.

(** ** The gesture tracker *)

Import TouchHandler.

Lemma touchStartHandler_tracked (h : TouchHandler) (ev : TouchEvent) :
  tracked h -> tracked (final (touchStartHandler ev h)).
Proof.
  intros (a & b & Hf & _).
  destruct h as [m fs]; simpl in Hf; subst fs.
  destruct ev as [[|t0 [|t1 [|t2 ts]]]]; unfold tracked;
    unfold touchStartHandler; run; cbn.
  - exists a, b. repeat split; discriminate.
  - exists (Some t0), b. repeat split; eauto; discriminate.
  - exists (Some t0), (Some t1). repeat split; eauto.
  - exists a, b. repeat split; discriminate.
Qed.

Lemma touchMoveHandler_tracked (h : TouchHandler) (ev : TouchEvent) :
  tracked h -> tracked (final (touchMoveHandler ev h)).
Proof.
  intros (a & b & Hf & H1 & H2).
  destruct h as [m fs]; simpl in Hf, H1, H2; subst fs.
  destruct m as [|[|[|m]]].
  - exists a, b. repeat split; discriminate.
  - destruct (H1 eq_refl) as [f0 ->].
    destruct ev as [[|t0 ts]]; unfold touchMoveHandler; run; cbn.
    + exists (Some f0), b. repeat split; eauto; discriminate.
    + exists (Some t0), b. repeat split; eauto; discriminate.
  - destruct (H2 eq_refl) as [[f0 ->] [f1 ->]].
    destruct ev as [[|t0 [|t1 ts]]]; unfold touchMoveHandler; run; cbn.
    + exists (Some f0), (Some f1). repeat split; eauto.
    + exists (Some f0), (Some f1). repeat split; eauto.
    + exists (Some t0), (Some t1). repeat split; eauto.
  - exists a, b. repeat split; discriminate.
Qed.

(** Every reachable state has two finger slots, and the slots its mode
    reads hold a touch. *)
Lemma reachable_tracked (h : TouchHandler) : reachable h -> tracked h.
Proof.
  induction 1 as [|h ev _ IH|h ev _ IH|h ev _ IH].
  - exists None, None. repeat split; discriminate.
  - apply touchStartHandler_tracked, IH.
  - apply touchMoveHandler_tracked, IH.
  - apply touchStartHandler_tracked, IH.
Qed.

(** The distance between two touch points of finite coordinates is the
    Euclidean one. *)
Lemma distance_finite (x0 y0 x1 y1 : R) :
  distance (mkTouch (Fin x0) (Fin y0)) (mkTouch (Fin x1) (Fin y1)) =
  Fin (euclid x0 y0 x1 y1).
Proof.
  unfold distance, euclid. cbn [pageX pageY sub add neg].
  rewrite !Math_pow_square. cbn [add].
  rewrite Math_sqrt_nonneg.
  - f_equal. f_equal. unfold Rminus. ring.
  - pose proof (Rle_0_sqr (x0 + - x1)) as Hx.
    pose proof (Rle_0_sqr (y0 + - y1)) as Hy.
    unfold Rsqr in Hx, Hy. lra.
Qed.

Lemma euclid_50 : euclid 0 0 30 40 = 50.
Proof.
  unfold euclid. replace ((0 - 30) ^ 2 + (0 - 40) ^ 2) with (50 * 50) by lra.
  apply sqrt_square. lra.
Qed.

Lemma euclid_150 : euclid 0 0 90 120 = 150.
Proof.
  unfold euclid. replace ((0 - 90) ^ 2 + (0 - 120) ^ 2) with (150 * 150) by lra.
  apply sqrt_square. lra.
Qed.

(** C6 (as amended): in a reachable state of mode 2, a touch-move that
    carries at least two touch points returns without error, consumes the
    event, invokes the zoom callback exactly once, with
    (currentDistance - previousDistance) / 100, where previousDistance is
    the distance between the two finger snapshots and currentDistance the
    one between the first two touch points of the event, each computed as
    the code computes it (the square root of the sum of the squared
    coordinate differences), invokes no pan callback, and leaves the two
    touch points in the finger slots.  Fingers first at (0,0) and (30,40),
    50 apart, then at (0,0) and (90,120), 150 apart, give a delta of 1. *)
Theorem touchMoveHandler_zoom :
  (forall (h : TouchHandler) (ev : TouchEvent) (t0 t1 : Touch)
          (rest : list Touch),
     reachable h -> mode h = 2%nat -> touches ev = t0 :: t1 :: rest ->
     exists f0 f1 : Touch,
       fingers h = [Some f0; Some f1] /\
       outcome (touchMoveHandler ev h) = Ok tt /\
       zoom_calls (trace (touchMoveHandler ev h)) =
         [((distance t0 t1 - distance f0 f1) / Fin 100)%js] /\
       pan_calls (trace (touchMoveHandler ev h)) = [] /\
       consumed (trace (touchMoveHandler ev h)) /\
       final (touchMoveHandler ev h) = mkTouchHandler 2 [Some t0; Some t1]) /\
  zoom_calls
    (trace (touchMoveHandler
              (mkTouchEvent [mkTouch (Fin 0) (Fin 0); mkTouch (Fin 90) (Fin 120)])
              (final (touchStartHandler
                        (mkTouchEvent [mkTouch (Fin 0) (Fin 0);
                                       mkTouch (Fin 30) (Fin 40)])
                        TouchHandler.new)))) = [Fin 1].
Proof.
  assert (Hmain : forall (h : TouchHandler) (ev : TouchEvent) (t0 t1 : Touch)
          (rest : list Touch),
     reachable h -> mode h = 2%nat -> touches ev = t0 :: t1 :: rest ->
     exists f0 f1 : Touch,
       fingers h = [Some f0; Some f1] /\
       outcome (touchMoveHandler ev h) = Ok tt /\
       zoom_calls (trace (touchMoveHandler ev h)) =
         [((distance t0 t1 - distance f0 f1) / Fin 100)%js] /\
       pan_calls (trace (touchMoveHandler ev h)) = [] /\
       consumed (trace (touchMoveHandler ev h)) /\
       final (touchMoveHandler ev h) = mkTouchHandler 2 [Some t0; Some t1]).
  { intros h ev t0 t1 rest Hreach Hmode Hts.
    destruct (reachable_tracked h Hreach) as (a & b & Hf & _ & H2).
    destruct (H2 Hmode) as [[f0 ->] [f1 ->]].
    exists f0, f1.
    destruct h as [m fs]; simpl in Hf, Hmode; subst m fs.
    destruct ev as [ts]; simpl in Hts; subst ts.
    split; [reflexivity|].
    unfold touchMoveHandler. run.
    cbn [mode fingers touches Nat.eqb array_get array_set lookup list_lookup
         length Nat.ltb Nat.leb insert list_insert set_fingers zoom_calls
         pan_calls].
    repeat split. left. reflexivity. }
  split; [exact Hmain|].
  destruct (Hmain
      (final (touchStartHandler
                (mkTouchEvent [mkTouch (Fin 0) (Fin 0); mkTouch (Fin 30) (Fin 40)])
                TouchHandler.new))
      (mkTouchEvent [mkTouch (Fin 0) (Fin 0); mkTouch (Fin 90) (Fin 120)])
      (mkTouch (Fin 0) (Fin 0)) (mkTouch (Fin 90) (Fin 120)) [])
    as (f0 & f1 & Hf & _ & Hz & _).
  - apply reachable_start, reachable_new.
  - reflexivity.
  - reflexivity.
  - injection Hf as <- <-.
    rewrite Hz, !distance_finite, euclid_50, euclid_150.
    cbn [sub add neg]. rewrite div_Fin by lra. do 2 f_equal. lra.
Qed.

(** C6 after a touch-start with fingers at (0,0) and (30,40), for a move
    to (0,0) and (90,120). *)
Lemma touchMoveHandler_zoom_witness :
  exists f0 f1 : Touch,
    fingers (final (touchStartHandler
                      (mkTouchEvent [mkTouch (Fin 0) (Fin 0);
                                     mkTouch (Fin 30) (Fin 40)])
                      TouchHandler.new)) = [Some f0; Some f1] /\
    outcome (touchMoveHandler
               (mkTouchEvent [mkTouch (Fin 0) (Fin 0); mkTouch (Fin 90) (Fin 120)])
               (final (touchStartHandler
                         (mkTouchEvent [mkTouch (Fin 0) (Fin 0);
                                        mkTouch (Fin 30) (Fin 40)])
                         TouchHandler.new))) = Ok tt /\
    zoom_calls
      (trace (touchMoveHandler
                (mkTouchEvent [mkTouch (Fin 0) (Fin 0); mkTouch (Fin 90) (Fin 120)])
                (final (touchStartHandler
                          (mkTouchEvent [mkTouch (Fin 0) (Fin 0);
                                         mkTouch (Fin 30) (Fin 40)])
                          TouchHandler.new)))) =
      [((distance (mkTouch (Fin 0) (Fin 0)) (mkTouch (Fin 90) (Fin 120)) -
         distance f0 f1) / Fin 100)%js] /\
    pan_calls
      (trace (touchMoveHandler
                (mkTouchEvent [mkTouch (Fin 0) (Fin 0); mkTouch (Fin 90) (Fin 120)])
                (final (touchStartHandler
                          (mkTouchEvent [mkTouch (Fin 0) (Fin 0);
                                         mkTouch (Fin 30) (Fin 40)])
                          TouchHandler.new)))) = [] /\
    consumed
      (trace (touchMoveHandler
                (mkTouchEvent [mkTouch (Fin 0) (Fin 0); mkTouch (Fin 90) (Fin 120)])
                (final (touchStartHandler
                          (mkTouchEvent [mkTouch (Fin 0) (Fin 0);
                                         mkTouch (Fin 30) (Fin 40)])
                          TouchHandler.new)))) /\
    final (touchMoveHandler
             (mkTouchEvent [mkTouch (Fin 0) (Fin 0); mkTouch (Fin 90) (Fin 120)])
             (final (touchStartHandler
                       (mkTouchEvent [mkTouch (Fin 0) (Fin 0);
                                      mkTouch (Fin 30) (Fin 40)])
                       TouchHandler.new))) =
      mkTouchHandler 2 [Some (mkTouch (Fin 0) (Fin 0));
                        Some (mkTouch (Fin 90) (Fin 120))].
Proof.
  apply (proj1 touchMoveHandler_zoom
           (final (touchStartHandler
                     (mkTouchEvent [mkTouch (Fin 0) (Fin 0);
                                    mkTouch (Fin 30) (Fin 40)])
                     TouchHandler.new))
           (mkTouchEvent [mkTouch (Fin 0) (Fin 0); mkTouch (Fin 90) (Fin 120)])
           (mkTouch (Fin 0) (Fin 0)) (mkTouch (Fin 90) (Fin 120)) []).
  - apply reachable_start, reachable_new.
  - reflexivity.
  - reflexivity.
Defined.

(** C6 as first worded fails: after a touch-start with two fingers, at
    (0,0) and (30,40), the handler is in mode 2; a touch-move that carries
    the single touch point (5,5), as after an unhandled touchcancel, stops
    on a TypeError once the event is consumed: the zoom callback is not
    invoked and neither finger slot is updated. *)
Lemma touchMoveHandler_one_touch_in_mode_2 :
  reachable (final (touchStartHandler
                      (mkTouchEvent [mkTouch (Fin 0) (Fin 0);
                                     mkTouch (Fin 30) (Fin 40)])
                      TouchHandler.new)) /\
  mode (final (touchStartHandler
                 (mkTouchEvent [mkTouch (Fin 0) (Fin 0);
                                mkTouch (Fin 30) (Fin 40)])
                 TouchHandler.new)) = 2%nat /\
  outcome (touchMoveHandler
             (mkTouchEvent [mkTouch (Fin 5) (Fin 5)])
             (final (touchStartHandler
                       (mkTouchEvent [mkTouch (Fin 0) (Fin 0);
                                      mkTouch (Fin 30) (Fin 40)])
                       TouchHandler.new))) = Throw TypeError /\
  zoom_calls
    (trace (touchMoveHandler
              (mkTouchEvent [mkTouch (Fin 5) (Fin 5)])
              (final (touchStartHandler
                        (mkTouchEvent [mkTouch (Fin 0) (Fin 0);
                                       mkTouch (Fin 30) (Fin 40)])
                        TouchHandler.new)))) = [] /\
  final (touchMoveHandler
           (mkTouchEvent [mkTouch (Fin 5) (Fin 5)])
           (final (touchStartHandler
                     (mkTouchEvent [mkTouch (Fin 0) (Fin 0);
                                    mkTouch (Fin 30) (Fin 40)])
                     TouchHandler.new))) =
    mkTouchHandler 2 [Some (mkTouch (Fin 0) (Fin 0));
                      Some (mkTouch (Fin 30) (Fin 40))].
Proof.
  split; [apply reachable_start, reachable_new|].
  repeat split.
Qed.

(** In mode 2, a touch-move that carries fewer than two touch points stops
    on a TypeError after consuming the event: no callback is invoked and
    the state is as it was. *)
Lemma touchMoveHandler_zoom_short (f0 f1 : Touch) (ts : list Touch) :
  (length ts < 2)%nat ->
  touchMoveHandler (mkTouchEvent ts) (mkTouchHandler 2 [Some f0; Some f1]) =
    (Throw TypeError, mkTouchHandler 2 [Some f0; Some f1], [PreventDefault]).
Proof.
  intros Hlen. destruct ts as [|t0 [|t1 ts]]; simpl in Hlen;
    [reflexivity | reflexivity | lia].
Qed.

(** In a reachable state of mode 1, a touch-move that carries a touch
    point invokes the pan callback once, with the last position of the
    finger minus the new one, and records the new one. *)
Lemma touchMoveHandler_pan (h : TouchHandler) (ev : TouchEvent) (t0 : Touch)
  (rest : list Touch) :
  reachable h -> mode h = 1%nat -> touches ev = t0 :: rest ->
  exists (f0 : Touch) (b : option Touch),
    fingers h = [Some f0; b] /\
    outcome (touchMoveHandler ev h) = Ok tt /\
    pan_calls (trace (touchMoveHandler ev h)) =
      [((pageX f0 - pageX t0)%js, (pageY f0 - pageY t0)%js)] /\
    zoom_calls (trace (touchMoveHandler ev h)) = [] /\
    final (touchMoveHandler ev h) = mkTouchHandler 1 [Some t0; b].
Proof.
  intros Hreach Hmode Hts.
  destruct (reachable_tracked h Hreach) as (a & b & Hf & H1 & _).
  destruct (H1 Hmode) as [f0 ->]. exists f0, b.
  destruct h as [m fs]; simpl in Hf, Hmode; subst m fs.
  destruct ev as [ts]; simpl in Hts; subst ts.
  repeat split.
Qed.

(** C7: a touch-start or touch-end whose number of touch points is neither
    1 nor 2 returns without error, calls nothing, and leaves mode 0 (the
    finger slots keep what they held); in mode 0 a touch-move changes
    nothing and calls nothing.  So after a touch-start with three touch
    points, a touch-move invokes no callback. *)
Theorem touchStartHandler_idle :
  (forall (h : TouchHandler) (ev : TouchEvent),
     length (touches ev) <> 1%nat -> length (touches ev) <> 2%nat ->
     touchStartHandler ev h = (Ok tt, mkTouchHandler 0 (fingers h), []) /\
     touchEndHandler ev h = (Ok tt, mkTouchHandler 0 (fingers h), [])) /\
  (forall (h : TouchHandler) (ev : TouchEvent),
     mode h = 0%nat -> touchMoveHandler ev h = (Ok tt, h, [])) /\
  (forall (h : TouchHandler) (t0 t1 t2 : Touch) (ev : TouchEvent),
     mode (final (touchStartHandler (mkTouchEvent [t0; t1; t2]) h)) = 0%nat /\
     pan_calls
       (trace (touchMoveHandler ev
                 (final (touchStartHandler (mkTouchEvent [t0; t1; t2]) h)))) = [] /\
     zoom_calls
       (trace (touchMoveHandler ev
                 (final (touchStartHandler (mkTouchEvent [t0; t1; t2]) h)))) = []).
Proof.
  assert (Hstart : forall (h : TouchHandler) (ev : TouchEvent),
            length (touches ev) <> 1%nat -> length (touches ev) <> 2%nat ->
            touchStartHandler ev h = (Ok tt, mkTouchHandler 0 (fingers h), [])).
  { intros [m fs] [ts] H1 H2. simpl in H1, H2.
    destruct ts as [|t0 [|t1 [|t2 ts]]]; simpl in H1, H2;
      try contradiction; reflexivity. }
  assert (Hmove : forall (h : TouchHandler) (ev : TouchEvent),
            mode h = 0%nat -> touchMoveHandler ev h = (Ok tt, h, [])).
  { intros [m fs] ev Hm. simpl in Hm. subst m. reflexivity. }
  split; [|split].
  - intros h ev H1 H2. split; apply Hstart; assumption.
  - exact Hmove.
  - intros h t0 t1 t2 ev.
    rewrite (Hstart h (mkTouchEvent [t0; t1; t2])) by (simpl; discriminate).
    rewrite Hmove by reflexivity. repeat split.
Qed.

(** C7 for a touch-start with no touch point at all, on a fresh handler. *)
Lemma touchStartHandler_idle_witness :
  touchStartHandler (mkTouchEvent []) TouchHandler.new =
    (Ok tt, mkTouchHandler 0 (fingers TouchHandler.new), []) /\
  touchEndHandler (mkTouchEvent []) TouchHandler.new =
    (Ok tt, mkTouchHandler 0 (fingers TouchHandler.new), []).
Proof.
  apply (proj1 touchStartHandler_idle TouchHandler.new (mkTouchEvent []));
    simpl; discriminate.
Defined.

(** * Further properties *)

(** ** The Viewer: what its methods publish and how they compose *)

Lemma Rpower_2_pos (x : R) : 0 < Rpower 2 x.
Proof. unfold Rpower. apply exp_pos. Qed.

Lemma Rpower_2_bounds (z : R) :
  1 <= z <= 10 -> 1 <= Rpower 2 (z - 1) <= 512.
Proof.
  intros Hz. split.
  - apply Rle_trans with (Rpower 2 0).
    + rewrite Rpower_O by lra. lra.
    + apply Rle_Rpower; lra.
  - apply Rle_trans with (Rpower 2 9).
    + apply Rle_Rpower; lra.
    + rewrite (Rpower_2_nat _ 9) by (simpl; lra). lra.
Qed.

(** Every method of the viewer returns normally and publishes its new
    rectangle. *)
Lemma zoomSet_run (v : Viewer) (delta : number) :
  zoomSet delta v =
    (Ok tt, final (zoomSet delta v), [viewBox (final (zoomSet delta v))]).
Proof. reflexivity. Qed.

Lemma panningSet_run (v : Viewer) (deltaX deltaY : number) :
  panningSet deltaX deltaY v =
    (Ok tt, final (panningSet deltaX deltaY v),
     [viewBox (final (panningSet deltaX deltaY v))]).
Proof. reflexivity. Qed.

Lemma zoomSet_trace (v : Viewer) (delta : number) :
  trace (zoomSet delta v) = [viewBox (final (zoomSet delta v))].
Proof. reflexivity. Qed.

Lemma zoomSet_final (v : Viewer) (delta : number) :
  final (zoomSet delta v) =
    mkViewer (maxWidth v) (maxHeight v) (centerX v) (centerY v)
      (Math_min (Fin 10) (Math_max (Fin 1) (zoom v + delta)%js))
      (Math_pow (Fin 2)
         (Math_min (Fin 10) (Math_max (Fin 1) (zoom v + delta)%js) - Fin 1)%js)
      (containerRatio v).
Proof. reflexivity. Qed.

Lemma clamp_in_range (x : R) : 1 <= x <= 10 -> Rmin 10 (Rmax 1 x) = x.
Proof. intros Hx. unfold Rmin, Rmax. case_reals. Qed.

(** Over exact arithmetic (sums of finite numbers not rounded), two zoom
    requests in a row amount to one request of their sum, as long as the
    first one is not clamped. *)
Lemma zoomSet_compose_exact (v : Viewer) (z a b : R) :
  zoom v = Fin z -> 1 <= z + a <= 10 ->
  final (zoomSet (Fin b) (final (zoomSet (Fin a) v))) =
    final (zoomSet (Fin a + Fin b)%js v) /\
  trace (zoomSet (Fin b) (final (zoomSet (Fin a) v))) =
    trace (zoomSet (Fin a + Fin b)%js v).
Proof.
  intros Hz Ha.
  assert (Hfinal : final (zoomSet (Fin b) (final (zoomSet (Fin a) v))) =
                   final (zoomSet (Fin a + Fin b)%js v)).
  { rewrite (zoomSet_final (final (zoomSet (Fin a) v))).
    rewrite (zoomSet_finite v z a Hz), (clamp_in_range _ Ha).
    rewrite (zoomSet_final v (Fin a + Fin b)%js), Hz.
    cbn [add maxWidth maxHeight centerX centerY containerRatio].
    replace (z + a + b) with (z + (a + b)) by lra.
    rewrite (zoomSet_final v (Fin a)).
    reflexivity. }
  split; [exact Hfinal|].
  rewrite !zoomSet_trace, Hfinal. reflexivity.
Qed.

(** X1: on whole zoom levels, which is what the + and - keys step through
    from the initial level 1, two whole zoom requests in a row amount to
    one request of their sum, as long as the first one is not clamped: the
    viewer ends in the same state and publishes the same rectangle last.
    (Sums of whole numbers of this size are exact in the code's
    arithmetic.) *)
Theorem zoomSet_compose_levels (v : Viewer) (n a b : Z) :
  zoom v = Fin (IZR n) -> (1 <= n <= 10)%Z -> (1 <= n + a <= 10)%Z ->
  final (zoomSet (Fin (IZR b)) (final (zoomSet (Fin (IZR a)) v))) =
    final (zoomSet (Fin (IZR a) + Fin (IZR b))%js v) /\
  trace (zoomSet (Fin (IZR b)) (final (zoomSet (Fin (IZR a)) v))) =
    trace (zoomSet (Fin (IZR a) + Fin (IZR b))%js v).
Proof.
  intros Hz _ Ha.
  apply (zoomSet_compose_exact v (IZR n) (IZR a) (IZR b) Hz).
  rewrite <- plus_IZR. split; apply IZR_le; lia.
Qed.

Lemma level_ok_new (width height offsetWidth : number) :
  level_ok (Viewer.new width height offsetWidth).
Proof.
  exists 1. cbn [Viewer.new zoom divider]. repeat split; try lra.
  f_equal. rewrite (Rpower_2_nat _ 0) by (simpl; lra). lra.
Qed.

(** X1 for two key presses' worth and then three from the initial level. *)
Lemma zoomSet_compose_levels_witness :
  final (zoomSet (Fin 3) (final (zoomSet (Fin 2)
           (Viewer.new (Fin 800) (Fin 600) (Fin 400))))) =
    final (zoomSet (Fin 2 + Fin 3)%js (Viewer.new (Fin 800) (Fin 600) (Fin 400))) /\
  trace (zoomSet (Fin 3) (final (zoomSet (Fin 2)
           (Viewer.new (Fin 800) (Fin 600) (Fin 400))))) =
    trace (zoomSet (Fin 2 + Fin 3)%js (Viewer.new (Fin 800) (Fin 600) (Fin 400))).
Proof.
  apply (zoomSet_compose_levels (Viewer.new (Fin 800) (Fin 600) (Fin 400))
           1%Z 2%Z 3%Z).
  - reflexivity.
  - lia.
  - lia.
Defined.

(** Over exact arithmetic, in a state that satisfies the invariant, a zoom
    request followed by the opposite request gives the state back when the
    first request is not clamped; when it is clamped at 10 the level comes
    back as max(1, 10 - a), and when it is clamped at 1 as
    min(10, 1 - a). *)
Lemma zoomSet_round_trip_exact (v : Viewer) (z a : R) :
  zoom v = Fin z -> 1 <= z <= 10 -> divider v = Fin (Rpower 2 (z - 1)) ->
  (1 <= z + a <= 10 ->
   final (zoomSet (- Fin a)%js (final (zoomSet (Fin a) v))) = v) /\
  (10 < z + a ->
   zoom (final (zoomSet (- Fin a)%js (final (zoomSet (Fin a) v)))) =
     Fin (Rmax 1 (10 - a))) /\
  (z + a < 1 ->
   zoom (final (zoomSet (- Fin a)%js (final (zoomSet (Fin a) v)))) =
     Fin (Rmin 10 (1 - a))).
Proof.
  intros Hz Hrange Hd. cbn [neg].
  assert (Hstep : zoom (final (zoomSet (Fin (- a)) (final (zoomSet (Fin a) v)))) =
                  Fin (Rmin 10 (Rmax 1 (Rmin 10 (Rmax 1 (z + a)) + - a)))).
  { apply zoomSet_finite. apply zoomSet_finite. exact Hz. }
  repeat split.
  - intros Ha.
    destruct v as [mw mh cx cy zm dv cr]. cbn in Hz, Hd. subst zm dv.
    rewrite !zoomSet_final.
    cbn [maxWidth maxHeight centerX centerY zoom containerRatio add].
    rewrite !Math_max_Fin, !Math_min_Fin. cbn [add].
    rewrite !Math_max_Fin, !Math_min_Fin.
    rewrite (clamp_in_range _ Ha).
    replace (Rmin 10 (Rmax 1 (z + a + - a))) with z
      by (unfold Rmin, Rmax; case_reals).
    cbn [sub add neg]. rewrite Math_pow_two_to. reflexivity.
  - intros Ha. rewrite Hstep. f_equal. unfold Rmin, Rmax. case_reals.
  - intros Ha. rewrite Hstep. f_equal. unfold Rmin, Rmax. case_reals.
Qed.

(** X2: on a whole zoom level of [1,10] with divider 2^(zoom-1), a whole
    zoom request followed by the opposite request gives the state back
    when the first request is not clamped; when it is clamped at 10 the
    level comes back as max(1, 10 - a), and when it is clamped at 1 as
    min(10, 1 - a): a round trip across a bound loses levels. *)
Theorem zoomSet_round_trip_levels (v : Viewer) (n a : Z) :
  zoom v = Fin (IZR n) -> (1 <= n <= 10)%Z ->
  divider v = Fin (Rpower 2 (IZR n - 1)) ->
  ((1 <= n + a <= 10)%Z ->
   final (zoomSet (- Fin (IZR a))%js (final (zoomSet (Fin (IZR a)) v))) = v) /\
  ((10 < n + a)%Z ->
   zoom (final (zoomSet (- Fin (IZR a))%js (final (zoomSet (Fin (IZR a)) v)))) =
     Fin (Rmax 1 (10 - IZR a))) /\
  ((n + a < 1)%Z ->
   zoom (final (zoomSet (- Fin (IZR a))%js (final (zoomSet (Fin (IZR a)) v)))) =
     Fin (Rmin 10 (1 - IZR a))).
Proof.
  intros Hz Hn Hd.
  assert (Hrange : 1 <= IZR n <= 10) by (split; apply IZR_le; lia).
  destruct (zoomSet_round_trip_exact v (IZR n) (IZR a) Hz Hrange Hd)
    as (Hin & Hhigh & Hlow).
  repeat split.
  - intros Ha. apply Hin. rewrite <- plus_IZR. split; apply IZR_le; lia.
  - intros Ha. apply Hhigh. rewrite <- plus_IZR. apply (IZR_lt 10). lia.
  - intros Ha. apply Hlow. rewrite <- plus_IZR. apply (IZR_lt _ 1). lia.
Qed.

(** X2 from the initial level 1: four levels up and back restore the
    state; twelve up are clamped at 10 and twelve down are clamped at 1;
    five down are clamped at 1 and five up end at 6. *)
Lemma zoomSet_round_trip_levels_witness :
  final (zoomSet (- Fin 4)%js (final (zoomSet (Fin 4)
           (Viewer.new (Fin 800) (Fin 600) (Fin 400))))) =
    Viewer.new (Fin 800) (Fin 600) (Fin 400) /\
  zoom (final (zoomSet (- Fin 12)%js (final (zoomSet (Fin 12)
           (Viewer.new (Fin 800) (Fin 600) (Fin 400)))))) =
    Fin (Rmax 1 (10 - 12)) /\
  zoom (final (zoomSet (- Fin (-5))%js (final (zoomSet (Fin (-5))
           (Viewer.new (Fin 800) (Fin 600) (Fin 400)))))) =
    Fin (Rmin 10 (1 - -5)).
Proof.
  assert (Hd : divider (Viewer.new (Fin 800) (Fin 600) (Fin 400)) =
               Fin (Rpower 2 (IZR 1 - 1))).
  { cbn [Viewer.new divider]. f_equal.
    rewrite (Rpower_2_nat _ 0) by (simpl; lra). lra. }
  split; [|split].
  - apply (proj1 (zoomSet_round_trip_levels
                    (Viewer.new (Fin 800) (Fin 600) (Fin 400)) 1%Z 4%Z
                    eq_refl (conj (Z.le_refl 1) (Zle_bool_imp_le 1 10 eq_refl)) Hd)).
    lia.
  - apply (proj1 (proj2 (zoomSet_round_trip_levels
                    (Viewer.new (Fin 800) (Fin 600) (Fin 400)) 1%Z 12%Z
                    eq_refl (conj (Z.le_refl 1) (Zle_bool_imp_le 1 10 eq_refl)) Hd))).
    lia.
  - apply (proj2 (proj2 (zoomSet_round_trip_levels
                    (Viewer.new (Fin 800) (Fin 600) (Fin 400)) 1%Z (-5)%Z
                    eq_refl (conj (Z.le_refl 1) (Zle_bool_imp_le 1 10 eq_refl)) Hd))).
    lia.
Defined.

Lemma zoomSet_keeps (v : Viewer) (delta : number) :
  centerX (final (zoomSet delta v)) = centerX v /\
  centerY (final (zoomSet delta v)) = centerY v /\
  maxWidth (final (zoomSet delta v)) = maxWidth v /\
  maxHeight (final (zoomSet delta v)) = maxHeight v /\
  containerRatio (final (zoomSet delta v)) = containerRatio v.
Proof. repeat split. Qed.

(** X3: when the center and the document's size are finite and the
    requested level is not NaN, the rectangle [zoomSet] publishes is
    centered on the center, which it leaves where it was, and its size is
    the document's divided by 2^(zoom-1), for the new zoom of [1,10]: it is
    never wider than the document and never narrower than a 512th of it. *)
Theorem zoomSet_publishes (v : Viewer) (delta : number) (w h cx cy : R) :
  maxWidth v = Fin w -> maxHeight v = Fin h ->
  centerX v = Fin cx -> centerY v = Fin cy ->
  (zoom v + delta)%js <> NaN ->
  exists z : R,
    zoom (final (zoomSet delta v)) = Fin z /\ 1 <= z <= 10 /\
    trace (zoomSet delta v) =
      [setAttribute_viewBox
         (Fin (cx - w / Rpower 2 (z - 1) / 2))
         (Fin (cy - h / Rpower 2 (z - 1) / 2))
         (Fin (w / Rpower 2 (z - 1)))
         (Fin (h / Rpower 2 (z - 1)))] /\
    (0 <= w -> w / 512 <= w / Rpower 2 (z - 1) <= w).
Proof.
  intros Hw Hh Hcx Hcy Hreq.
  destruct (zoomSet_level v delta Hreq) as (z & Hz & Hrange & Hd).
  exists z. split; [exact Hz|]. split; [exact Hrange|].
  pose proof (Rpower_2_pos (z - 1)) as Hpos.
  destruct (Rpower_2_bounds z Hrange) as [Hlo Hhi].
  split.
  - rewrite zoomSet_trace. unfold viewBox. cbv zeta. rewrite Hd.
    destruct (zoomSet_keeps v delta) as (HX & HY & HW & HH & _).
    rewrite HX, HY, HW, HH, Hw, Hh, Hcx, Hcy.
    rewrite !div_Fin by lra. cbn [sub add neg]. reflexivity.
  - intros Hw0. split.
    + unfold Rdiv. apply Rmult_le_compat_l; [assumption|].
      apply Rinv_le_contravar; lra.
    + apply Rle_trans with (w / 1); [|lra].
      unfold Rdiv. apply Rmult_le_compat_l; [assumption|].
      apply Rinv_le_contravar; lra.
Qed.

Lemma zoomSet_publishes_witness :
  exists z : R,
    zoom (final (zoomSet (Fin 1) (Viewer.new (Fin 800) (Fin 600) (Fin 400))))
      = Fin z /\ 1 <= z <= 10 /\
    trace (zoomSet (Fin 1) (Viewer.new (Fin 800) (Fin 600) (Fin 400))) =
      [setAttribute_viewBox
         (Fin (400 - 800 / Rpower 2 (z - 1) / 2))
         (Fin (300 - 600 / Rpower 2 (z - 1) / 2))
         (Fin (800 / Rpower 2 (z - 1)))
         (Fin (600 / Rpower 2 (z - 1)))] /\
    (0 <= 800 -> 800 / 512 <= 800 / Rpower 2 (z - 1) <= 800).
Proof.
  destruct new_viewer_fields as (Hcx & Hcy & _ & _).
  apply (zoomSet_publishes (Viewer.new (Fin 800) (Fin 600) (Fin 400)) (Fin 1)
           800 600 400 300 eq_refl eq_refl Hcx Hcy).
  simpl. discriminate.
Defined.

Lemma redraw_trace (v : Viewer) : redraw v = (Ok tt, v, [viewBox v]).
Proof. reflexivity. Qed.

Lemma viewBox_new (w h : R) (offsetWidth : number) :
  viewBox (Viewer.new (Fin w) (Fin h) offsetWidth) =
    setAttribute_viewBox (Fin 0) (Fin 0) (Fin w) (Fin h).
Proof.
  unfold viewBox, Viewer.new. cbv zeta.
  cbn [maxWidth maxHeight centerX centerY divider].
  rewrite !div_Fin by lra. cbn [sub add neg].
  f_equal; f_equal; lra.
Qed.

(** X4: the state the constructor makes shows the whole document.  A
    redraw of it publishes the rectangle 0 0 width height, and so does
    every request to zoom out, which is clamped at level 1 and leaves the
    state as it is. *)
Theorem new_shows_whole_document (w h d : R) (offsetWidth : number) :
  d <= 0 ->
  trace (redraw (Viewer.new (Fin w) (Fin h) offsetWidth)) =
    [setAttribute_viewBox (Fin 0) (Fin 0) (Fin w) (Fin h)] /\
  zoomSet (Fin d) (Viewer.new (Fin w) (Fin h) offsetWidth) =
    (Ok tt, Viewer.new (Fin w) (Fin h) offsetWidth,
     [setAttribute_viewBox (Fin 0) (Fin 0) (Fin w) (Fin h)]).
Proof.
  intros Hd. split.
  - rewrite redraw_trace. unfold trace; cbn [snd]. rewrite viewBox_new.
    reflexivity.
  - assert (Hfinal : final (zoomSet (Fin d) (Viewer.new (Fin w) (Fin h) offsetWidth))
                     = Viewer.new (Fin w) (Fin h) offsetWidth).
    { rewrite zoomSet_final. unfold Viewer.new.
      cbn [maxWidth maxHeight centerX centerY zoom containerRatio add].
      rewrite Math_max_Fin, Math_min_Fin.
      replace (Rmin 10 (Rmax 1 (1 + d))) with 1
        by (unfold Rmin, Rmax; case_reals).
      cbn [sub add neg]. rewrite Math_pow_two_to.
      rewrite (Rpower_2_nat _ 0) by (simpl; lra). reflexivity. }
    rewrite zoomSet_run, Hfinal, viewBox_new. reflexivity.
Qed.

Lemma new_shows_whole_document_witness :
  trace (redraw (Viewer.new (Fin 800) (Fin 600) (Fin 400))) =
    [setAttribute_viewBox (Fin 0) (Fin 0) (Fin 800) (Fin 600)] /\
  zoomSet (Fin (-1)) (Viewer.new (Fin 800) (Fin 600) (Fin 400)) =
    (Ok tt, Viewer.new (Fin 800) (Fin 600) (Fin 400),
     [setAttribute_viewBox (Fin 0) (Fin 0) (Fin 800) (Fin 600)]).
Proof.
  apply (new_shows_whole_document 800 600 (-1) (Fin 400)). lra.
Defined.

(** ** The callbacks on the viewer *)

Lemma dispatch_run (c : call) (v : Viewer) :
  dispatch c v = (Ok tt, final (dispatch c v), trace (dispatch c v)).
Proof. destruct c; reflexivity. Qed.

Lemma dispatch_all_cons (c : call) (cs : list call) (v : Viewer) :
  dispatch_all (c :: cs) v =
    (outcome (dispatch_all cs (final (dispatch c v))),
     final (dispatch_all cs (final (dispatch c v))),
     trace (dispatch c v) ++ trace (dispatch_all cs (final (dispatch c v)))).
Proof.
  cbn [dispatch_all]. unfold bind at 1. rewrite dispatch_run.
  cbn [final outcome trace fst snd].
  destruct (dispatch_all cs _) as [[r s2] t2]. reflexivity.
Qed.

Lemma dispatch_all_returns (cs : list call) (v : Viewer) :
  outcome (dispatch_all cs v) = Ok tt.
Proof.
  revert v. induction cs as [|c cs IH]; intros v; [reflexivity|].
  rewrite dispatch_all_cons. apply IH.
Qed.

Lemma div_NaN_r (x : number) : (x / NaN)%js = NaN.
Proof. destruct x; reflexivity. Qed.

Lemma sub_NaN_r (x : number) : (x - NaN)%js = NaN.
Proof. destruct x; reflexivity. Qed.

Lemma add_NaN_r (x : number) : (x + NaN)%js = NaN.
Proof. destruct x; reflexivity. Qed.

Lemma viewBox_divider_NaN (v : Viewer) :
  divider v = NaN -> viewBox v = viewBox_NaN.
Proof.
  intros Hd. unfold viewBox, viewBox_NaN. cbv zeta. rewrite Hd.
  rewrite !div_NaN_r. cbn [div]. rewrite !sub_NaN_r. reflexivity.
Qed.

(** Once zoom and divider are NaN, each call leaves them NaN and publishes
    NaN at most. *)
Lemma dispatch_NaN (c : call) (v : Viewer) :
  zoom v = NaN -> divider v = NaN ->
  zoom (final (dispatch c v)) = NaN /\ divider (final (dispatch c v)) = NaN /\
  Forall (eq viewBox_NaN) (trace (dispatch c v)).
Proof.
  intros Hz Hd. destruct c as [|deltaX deltaY|delta]; cbn [dispatch].
  - repeat split; try assumption. constructor.
  - rewrite panningSet_run. cbn [final trace fst snd].
    destruct (panningSet_keeps v deltaX deltaY) as [Hd' _].
    assert (Hz' : zoom (final (panningSet deltaX deltaY v)) = zoom v)
      by reflexivity.
    rewrite Hz', Hd', Hz, Hd. repeat split.
    constructor; [|constructor].
    symmetry. apply viewBox_divider_NaN. rewrite Hd'. exact Hd.
  - rewrite zoomSet_run. cbn [final trace fst snd].
    assert (Hz' : zoom (final (zoomSet delta v)) = NaN)
      by (apply zoomSet_NaN_absorbing; exact Hz).
    assert (Hd' : divider (final (zoomSet delta v)) = NaN)
      by (rewrite zoomSet_divider, Hz'; reflexivity).
    repeat split; try assumption.
    constructor; [|constructor].
    symmetry. apply viewBox_divider_NaN. exact Hd'.
Qed.

(** X5: a NaN zoom request is never repaired.  Whatever the state it is
    made in and whatever calls follow, the zoom level and the divider stay
    NaN, and every rectangle published from then on is NaN NaN NaN NaN. *)
Theorem zoom_NaN_is_permanent (v : Viewer) (cs : list call) :
  zoom (final (dispatch_all (ZoomCallback NaN :: cs) v)) = NaN /\
  divider (final (dispatch_all (ZoomCallback NaN :: cs) v)) = NaN /\
  Forall (eq viewBox_NaN) (trace (dispatch_all (ZoomCallback NaN :: cs) v)) /\
  (1 <= length (trace (dispatch_all (ZoomCallback NaN :: cs) v)))%nat.
Proof.
  assert (Hall : forall cs v, zoom v = NaN -> divider v = NaN ->
            zoom (final (dispatch_all cs v)) = NaN /\
            divider (final (dispatch_all cs v)) = NaN /\
            Forall (eq viewBox_NaN) (trace (dispatch_all cs v))).
  { clear. induction cs as [|c cs IH]; intros v Hz Hd.
    - repeat split; try assumption. constructor.
    - rewrite dispatch_all_cons. cbn [final trace fst snd].
      destruct (dispatch_NaN c v Hz Hd) as (Hz1 & Hd1 & Ht1).
      destruct (IH _ Hz1 Hd1) as (Hz2 & Hd2 & Ht2).
      repeat split; try assumption.
      apply Forall_app. split; assumption. }
  assert (Hz0 : zoom (final (zoomSet NaN v)) = NaN).
  { rewrite zoomSet_zoom, add_NaN_r. reflexivity. }
  assert (Hd0 : divider (final (zoomSet NaN v)) = NaN).
  { rewrite zoomSet_divider, Hz0. reflexivity. }
  rewrite dispatch_all_cons. cbn [dispatch final trace fst snd].
  destruct (Hall cs _ Hz0 Hd0) as (Hz & Hd & Ht).
  repeat split; try assumption.
  - rewrite zoomSet_trace. cbn [app]. constructor; [|exact Ht].
    symmetry. apply viewBox_divider_NaN. exact Hd0.
  - rewrite zoomSet_trace. cbn [app length]. lia.
Qed.

(** ** The wheel normaliser: when it fails, its direction, its symmetry *)

Lemma div_Fin_NaN_iff (x : number) (c : R) :
  c <> 0 -> (x / Fin c)%js = NaN <-> x = NaN.
Proof.
  intros Hc. destruct x as [a| | |]; cbn [div]; case_reals;
    split; intros H; congruence.
Qed.

Lemma odd_integer_2 : odd_integer 2 = false.
Proof. unfold odd_integer. rewrite (integer_of_IZR 2). reflexivity. Qed.

Lemma quadraticScale_PInf : quadraticScale PInf = PInf.
Proof.
  unfold quadraticScale. cbn [ltb]. unfold Math_pow. case_reals.
  cbn [add sub neg div]. case_reals. reflexivity.
Qed.

Lemma quadraticScale_NInf : quadraticScale NInf = NInf.
Proof.
  unfold quadraticScale. cbn [ltb]. unfold Math_pow. case_reals.
  rewrite odd_integer_2. cbn [add sub neg div]. case_reals. reflexivity.
Qed.

Lemma quadraticScale_NaN_iff (x : number) : quadraticScale x = NaN <-> x = NaN.
Proof.
  destruct x as [a| | |].
  - rewrite quadraticScale_Fin. split; congruence.
  - rewrite quadraticScale_PInf. split; congruence.
  - rewrite quadraticScale_NInf. split; congruence.
  - split; [reflexivity|]. intros _.
    unfold quadraticScale. cbn [ltb]. unfold Math_pow. case_reals. reflexivity.
Qed.

Lemma finalClamp_PInf : finalClamp PInf = Fin 1.
Proof.
  unfold finalClamp, Math_min, Math_max, div. case_reals.
  cbn [is_NaN orb ltb]. reflexivity.
Qed.

Lemma finalClamp_NInf : finalClamp NInf = Fin (-1).
Proof.
  unfold finalClamp, Math_min, Math_max, div. case_reals.
  cbn [is_NaN orb ltb]. case_reals. reflexivity.
Qed.

Lemma finalClamp_NaN_iff (x : number) : finalClamp x = NaN <-> x = NaN.
Proof.
  destruct x as [a| | |].
  - rewrite finalClamp_Fin. split; congruence.
  - rewrite finalClamp_PInf. split; congruence.
  - rewrite finalClamp_NInf. split; congruence.
  - split; reflexivity.
Qed.

(** With a truthy [detail] the first block never gives NaN. *)
Lemma rawDelta_truthy_detail (ev : WheelEvent) :
  ToBoolean (detail ev) = true -> rawDelta ev <> NaN.
Proof.
  destruct ev as [[|dn] wv]; cbn [detail ToBoolean]; [discriminate|].
  intros Hd. unfold rawDelta. cbn [detail wheelDelta ToBoolean ToNumber].
  rewrite Hd.
  destruct dn as [d| | |]; cbn [truthy_number] in Hd; try discriminate;
    destruct wv as [|[w| | |]];
    cbn [ToBoolean ToNumber truthy_number andb div neg];
    case_reals; cbn [andb truthy_number div]; case_reals;
    try discriminate.
  all: try (cbn [andb truthy_number div]; case_reals; discriminate).
Qed.

(** X6: the normaliser returns NaN exactly when [detail] is falsy
    (undefined, 0 or NaN) and [wheelDelta] is undefined or NaN; for every
    other event it returns a number of [-1,1]. *)
Theorem normalizeWheelDelta_NaN_iff (ev : WheelEvent) :
  (normalizeWheelDelta ev = NaN <->
   ToBoolean (detail ev) = false /\ ToNumber (wheelDelta ev) = NaN) /\
  (normalizeWheelDelta ev <> NaN ->
   exists r : R, normalizeWheelDelta ev = Fin r /\ -1 <= r <= 1).
Proof.
  split.
  - unfold normalizeWheelDelta.
    rewrite finalClamp_NaN_iff, quadraticScale_NaN_iff.
    destruct (ToBoolean (detail ev)) eqn:Hd.
    + split; [|intros [H _]; discriminate H].
      intros H. exfalso. exact (rawDelta_truthy_detail ev Hd H).
    + unfold rawDelta. rewrite Hd. rewrite div_Fin_NaN_iff by lra.
      split; [intros H; split; [reflexivity | exact H] | intros [_ H]; exact H].
  - intros Hnan. destruct (normalizeWheelDelta_NaN_or_range ev) as [H|H];
      [contradiction | exact H].
Qed.

Lemma normalizeWheelDelta_NaN_iff_witness :
  exists r : R,
    normalizeWheelDelta (mkWheelEvent (num (Fin 3)) undefined) = Fin r /\
    -1 <= r <= 1.
Proof.
  apply (proj2 (normalizeWheelDelta_NaN_iff (mkWheelEvent (num (Fin 3)) undefined))).
  intros H.
  apply (proj1 (normalizeWheelDelta_NaN_iff (mkWheelEvent (num (Fin 3)) undefined)))
    in H.
  destruct H as [H _]. cbn [detail ToBoolean truthy_number] in H.
  destruct (Req_dec_T 3 0); [lra | discriminate H].
Defined.

(** The last two blocks on a finite delta, in one formula. *)
Lemma scale_clamp_Fin (y : R) :
  finalClamp (quadraticScale (Fin y)) =
  Fin (Rmin (Rmax ((if Rlt_dec y 1
                    then if Rlt_dec y (-1) then (- (y * y) - 224) / 225 else y
                    else (y * y + 224) / 225) / 2) (-1)) 1).
Proof. rewrite quadraticScale_Fin, finalClamp_Fin. reflexivity. Qed.

(** The last two blocks keep the sign of a finite delta. *)
Lemma scale_clamp_sign (y : R) :
  exists r : R,
    finalClamp (quadraticScale (Fin y)) = Fin r /\ -1 <= r <= 1 /\
    (0 < y -> 0 < r) /\ (y < 0 -> r < 0) /\ (y = 0 -> r = 0).
Proof.
  rewrite scale_clamp_Fin. eexists. split; [reflexivity|].
  unfold Rmin, Rmax.
  destruct (Rlt_dec y 1); [destruct (Rlt_dec y (-1))|];
    case_reals; repeat split; intros; try lra; try nra.
Qed.

(** The last two blocks are odd. *)
Lemma scale_clamp_odd (y : R) :
  finalClamp (quadraticScale (Fin (- y))) =
  (- finalClamp (quadraticScale (Fin y)))%js.
Proof.
  rewrite !scale_clamp_Fin. cbn [neg]. f_equal.
  unfold Rmin, Rmax.
  destruct (Rlt_dec y 1); [destruct (Rlt_dec y (-1))|];
    (destruct (Rlt_dec (- y) 1); [destruct (Rlt_dec (- y) (-1))|]);
    try lra;
    try (assert (y = 1) by lra; subst y);
    try (assert (y = -1) by lra; subst y);
    case_reals; try lra; try nra.
Qed.

(** The last two blocks are monotone. *)
Lemma scale_clamp_mono (y1 y2 r1 r2 : R) :
  y1 <= y2 ->
  finalClamp (quadraticScale (Fin y1)) = Fin r1 ->
  finalClamp (quadraticScale (Fin y2)) = Fin r2 ->
  r1 <= r2.
Proof.
  intros Hy. rewrite !scale_clamp_Fin. intros [= <-] [= <-].
  unfold Rmin, Rmax.
  destruct (Rlt_dec y1 1); [destruct (Rlt_dec y1 (-1))|];
    (destruct (Rlt_dec y2 1); [destruct (Rlt_dec y2 (-1))|]);
    try lra;
    case_reals; try lra; try nra.
Qed.

Lemma rawDelta_detail_only (d : R) (wv : value) :
  d <> 0 -> ToBoolean wv = false ->
  rawDelta (mkWheelEvent (num (Fin d)) wv) = Fin (- d / 1.35).
Proof.
  intros Hd Hw. unfold rawDelta.
  cbn [detail wheelDelta ToBoolean ToNumber truthy_number neg].
  destruct (Req_dec_T d 0); [contradiction|]. rewrite Hw. cbn [andb].
  apply div_Fin. lra.
Qed.

Lemma rawDelta_wheelDelta_only (dv : value) (w : R) :
  ToBoolean dv = false ->
  rawDelta (mkWheelEvent dv (num (Fin w))) = Fin (w / 120).
Proof.
  intros Hd. unfold rawDelta. cbn [detail wheelDelta ToNumber]. rewrite Hd.
  apply div_Fin. lra.
Qed.

Lemma square_over_sign (d w : R) :
  d <> 0 -> w <> 0 ->
  (0 < w -> 0 < d / (w / d)) /\ (w < 0 -> d / (w / d) < 0).
Proof.
  intros Hd Hw.
  assert (Heq : d / (w / d) = d * d * / w) by (field; split; assumption).
  assert (Hsq : 0 < d * d) by nra.
  rewrite Heq. split; intros Hs.
  - apply Rmult_lt_0_compat; [assumption | apply Rinv_0_lt_compat; assumption].
  - assert (Hinv : / w < 0) by (apply Rinv_lt_0_compat; assumption). nra.
Qed.

(** When the test on [wheelDelta] and on the quotient [f] fails, the raw
    delta is the line count alone. *)
Lemma rawDelta_guard_fails (d : R) (wv : value) :
  d <> 0 ->
  ToBoolean wv && truthy_number (ToNumber wv / Fin d)%js = false ->
  rawDelta (mkWheelEvent (num (Fin d)) wv) = Fin (- d / 1.35).
Proof.
  intros Hd Hguard. unfold rawDelta.
  cbn [detail wheelDelta ToBoolean ToNumber truthy_number neg].
  destruct (Req_dec_T d 0); [contradiction|].
  cbv zeta. rewrite Hguard. apply div_Fin. lra.
Qed.

(** X7: the normalised delta never points the wrong way.  With a non-zero
    finite [detail]: when [wheelDelta] is a non-zero finite number and the
    quotient [f = wheelDelta / detail] is truthy, so that the code takes
    [detail / f], the result is a number that is never of the sign
    opposite to [wheelDelta]'s, whatever the sign of [detail]; when the
    test [wheelDelta && f] fails, the result is never of the sign of
    [detail].  With a falsy [detail] and a finite [wheelDelta], the result
    is never of the sign opposite to [wheelDelta]'s, and is 0 for 0. *)
Theorem normalizeWheelDelta_never_wrong_way :
  (forall d w : R, d <> 0 -> w <> 0 ->
     truthy_number (Fin w / Fin d)%js = true ->
     exists r : R,
       normalizeWheelDelta (mkWheelEvent (num (Fin d)) (num (Fin w))) = Fin r /\
       (0 < w -> 0 <= r) /\ (w < 0 -> r <= 0)) /\
  (forall (d : R) (wv : value), d <> 0 ->
     ToBoolean wv && truthy_number (ToNumber wv / Fin d)%js = false ->
     exists r : R,
       normalizeWheelDelta (mkWheelEvent (num (Fin d)) wv) = Fin r /\
       (0 < d -> r <= 0) /\ (d < 0 -> 0 <= r)) /\
  (forall (dv : value) (w : R), ToBoolean dv = false ->
     exists r : R,
       normalizeWheelDelta (mkWheelEvent dv (num (Fin w))) = Fin r /\
       (0 < w -> 0 <= r) /\ (w < 0 -> r <= 0) /\ (w = 0 -> r = 0)).
Proof.
  unfold normalizeWheelDelta. repeat split.
  - intros d w Hd Hw _.
    rewrite (proj2 (proj2 (rawDelta_Fin d w)) Hd Hw).
    destruct (scale_clamp_sign (d / (w / d))) as (r & Hr & _ & Hpos & Hneg & _).
    destruct (square_over_sign d w Hd Hw) as [Hp Hn].
    exists r. repeat split; [exact Hr | |]; intros Hs.
    + apply Rlt_le, Hpos, Hp, Hs.
    + apply Rlt_le, Hneg, Hn, Hs.
  - intros d wv Hd Hguard. rewrite (rawDelta_guard_fails d wv Hd Hguard).
    destruct (scale_clamp_sign (- d / 1.35)) as (r & Hr & _ & Hpos & Hneg & _).
    assert (Hinv : 0 < / 1.35) by (apply Rinv_0_lt_compat; lra).
    exists r. repeat split; [exact Hr | |]; intros Hs.
    + apply Rlt_le, Hneg. unfold Rdiv. nra.
    + apply Rlt_le, Hpos. unfold Rdiv. nra.
  - intros dv w Hd. rewrite (rawDelta_wheelDelta_only dv w Hd).
    destruct (scale_clamp_sign (w / 120)) as (r & Hr & _ & Hpos & Hneg & Hzero).
    exists r. repeat split; [exact Hr | | |]; intros Hs.
    + apply Rlt_le, Hpos. lra.
    + apply Rlt_le, Hneg. lra.
    + apply Hzero. lra.
Qed.

(** X7 for three lines up with a wheel delta of 120, and for three lines
    down with no wheel delta. *)
Lemma normalizeWheelDelta_never_wrong_way_witness :
  (exists r : R,
     normalizeWheelDelta (mkWheelEvent (num (Fin (-3))) (num (Fin 120))) = Fin r /\
     (0 < 120 -> 0 <= r) /\ (120 < 0 -> r <= 0)) /\
  (exists r : R,
     normalizeWheelDelta (mkWheelEvent (num (Fin 3)) undefined) = Fin r /\
     (0 < 3 -> r <= 0) /\ (3 < 0 -> 0 <= r)).
Proof.
  split.
  - apply (proj1 normalizeWheelDelta_never_wrong_way (-3) 120); try lra.
    rewrite div_Fin by lra. cbn [truthy_number].
    destruct (Req_dec_T (120 / -3) 0) as [H|H]; [lra | reflexivity].
  - apply (proj1 (proj2 normalizeWheelDelta_never_wrong_way) 3 undefined);
      [lra | reflexivity].
Defined.

(** X8: the normaliser is odd on finite events: the opposite [detail] and
    [wheelDelta] give the opposite delta, so a notch one way undoes the
    request of a notch the other way. *)
Theorem normalizeWheelDelta_odd (d w : R) :
  normalizeWheelDelta (mkWheelEvent (num (Fin (- d))) (num (Fin (- w)))) =
  (- normalizeWheelDelta (mkWheelEvent (num (Fin d)) (num (Fin w))))%js.
Proof.
  unfold normalizeWheelDelta.
  destruct (rawDelta_Fin d w) as (H0 & H1 & H2).
  destruct (rawDelta_Fin (- d) (- w)) as (H0' & H1' & H2').
  destruct (Req_dec_T d 0) as [Hd|Hd].
  - rewrite (H0 Hd), H0' by lra.
    replace (- w / 120) with (- (w / 120)) by lra. apply scale_clamp_odd.
  - destruct (Req_dec_T w 0) as [Hw|Hw].
    + rewrite (H1 Hd Hw), H1' by lra.
      replace (- - d / 1.35) with (- (- d / 1.35)) by lra. apply scale_clamp_odd.
    + rewrite (H2 Hd Hw), H2' by lra.
      replace (- d / (- w / - d)) with (- (d / (w / d)))
        by (field; split; assumption).
      apply scale_clamp_odd.
Qed.

(** X9: the normaliser is monotone in the field it reads: with no line
    count, a larger [wheelDelta] never gives a smaller delta; with no
    [wheelDelta], a larger [detail] never gives a larger delta. *)
Theorem normalizeWheelDelta_monotone :
  (forall (dv : value) (w1 w2 : R),
     ToBoolean dv = false -> w1 <= w2 ->
     exists r1 r2 : R,
       normalizeWheelDelta (mkWheelEvent dv (num (Fin w1))) = Fin r1 /\
       normalizeWheelDelta (mkWheelEvent dv (num (Fin w2))) = Fin r2 /\
       r1 <= r2) /\
  (forall (wv : value) (d1 d2 : R),
     ToBoolean wv = false -> d1 <> 0 -> d2 <> 0 -> d1 <= d2 ->
     exists r1 r2 : R,
       normalizeWheelDelta (mkWheelEvent (num (Fin d1)) wv) = Fin r1 /\
       normalizeWheelDelta (mkWheelEvent (num (Fin d2)) wv) = Fin r2 /\
       r2 <= r1).
Proof.
  unfold normalizeWheelDelta. split.
  - intros dv w1 w2 Hd Hw. rewrite !rawDelta_wheelDelta_only by assumption.
    destruct (scale_clamp_sign (w1 / 120)) as (r1 & Hr1 & _).
    destruct (scale_clamp_sign (w2 / 120)) as (r2 & Hr2 & _).
    exists r1, r2. repeat split; try assumption.
    apply (scale_clamp_mono (w1 / 120) (w2 / 120)); try assumption. lra.
  - intros wv d1 d2 Hw H1 H2 Hd. rewrite !rawDelta_detail_only by assumption.
    destruct (scale_clamp_sign (- d1 / 1.35)) as (r1 & Hr1 & _).
    destruct (scale_clamp_sign (- d2 / 1.35)) as (r2 & Hr2 & _).
    exists r1, r2. repeat split; try assumption.
    apply (scale_clamp_mono (- d2 / 1.35) (- d1 / 1.35)); try assumption.
    unfold Rdiv. assert (0 < / 1.35) by (apply Rinv_0_lt_compat; lra). nra.
Qed.

Lemma normalizeWheelDelta_monotone_witness :
  exists r1 r2 : R,
    normalizeWheelDelta (mkWheelEvent (num (Fin 0)) (num (Fin 120))) = Fin r1 /\
    normalizeWheelDelta (mkWheelEvent (num (Fin 0)) (num (Fin 240))) = Fin r2 /\
    r1 <= r2.
Proof.
  apply (proj1 normalizeWheelDelta_monotone (num (Fin 0)) 120 240).
  - cbn [ToBoolean truthy_number]. destruct (Req_dec_T 0 0); [reflexivity | lra].
  - lra.
Defined.

(** ** One event of the page *)

Import SVGPAZ.

Lemma handler_run {E St A} (object : Page -> St)
  (set_object : St -> Page -> Page) (method : M E St A) (p : Page) :
  final (handler object set_object method p) =
    set_object (final (method (object p))) p /\
  trace (handler object set_object method p) = trace (method (object p)) /\
  (outcome (handler object set_object method p) = Ok tt <->
   exists a, outcome (method (object p)) = Ok a).
Proof.
  unfold handler. destruct (method (object p)) as [[[a|e] this] t];
    cbn [final trace outcome fst snd]; repeat split; eauto.
  - intros H. discriminate H.
  - intros [a H]. discriminate H.
Qed.

(** An event with one listener: the listener runs, then its calls. *)
Lemma deliver_single (ev : DOMEvent) (l : M call Page unit) (p : Page) :
  listeners ev = [l] ->
  outcome (deliver ev p) = outcome (l p) /\
  final (deliver ev p) =
    set_viewer (final (dispatch_all (trace (l p)) (viewer (final (l p)))))
      (final (l p)) /\
  trace (deliver ev p) =
    trace (dispatch_all (trace (l p)) (viewer (final (l p)))).
Proof.
  intros Hl. unfold deliver. rewrite Hl. cbn [run_listeners].
  destruct (l p) as [[r p1] calls]. cbn [ret final trace outcome fst snd].
  rewrite app_nil_r.
  unfold handler.
  destruct (dispatch_all calls (viewer p1)) as [[[[]|e] v2] out];
    cbn [final trace outcome fst snd]; destruct r as [[]|e']; repeat split.
Qed.

(** An event whose listener is a method of one of the handlers. *)
Lemma deliver_handler {St} (ev : DOMEvent) (object : Page -> St)
  (set_object : St -> Page -> Page) (method : M call St unit) (p : Page) :
  listeners ev = [handler object set_object method] ->
  (forall s q, viewer (set_object s q) = viewer q) ->
  outcome (deliver ev p) = outcome (method (object p)) /\
  final (deliver ev p) =
    set_viewer
      (final (dispatch_all (trace (method (object p))) (viewer p)))
      (set_object (final (method (object p))) p) /\
  trace (deliver ev p) =
    trace (dispatch_all (trace (method (object p))) (viewer p)).
Proof.
  intros Hl Hview.
  destruct (deliver_single ev _ p Hl) as (Ho & Hf & Ht).
  destruct (handler_run object set_object method p) as (Hf' & Ht' & _).
  rewrite Hf', Ht', Hview in Hf. rewrite Hf', Ht', Hview in Ht.
  repeat split; try assumption.
  rewrite Ho. unfold handler.
  destruct (method (object p)) as [[[[]|e] this] t]; reflexivity.
Qed.

Lemma deliver_other (p : Page) : deliver other_event p = (Ok tt, p, []).
Proof. destruct p. reflexivity. Qed.

Lemma set_mouse_viewer (s : MouseHandler) (q : Page) :
  viewer (set_mouse s q) = viewer q.
Proof. reflexivity. Qed.

Lemma set_touch_viewer (s : TouchHandler) (q : Page) :
  viewer (set_touch s q) = viewer q.
Proof. reflexivity. Qed.

(** *** What each listener does, case by case *)

Lemma wheelHandler_run (e : WheelEvent) (h : MouseHandler) :
  wheelHandler e h = (Ok tt, h, [ZoomCallback (normalizeWheelDelta e)]).
Proof. reflexivity. Qed.

Lemma mouseMoveHandler_run (e : MouseEvent) (h : MouseHandler) :
  mouseMoveHandler e h =
    if dragging h
    then (Ok tt, mkMouseHandler true (clientX e) (clientY e),
          [PreventDefault;
           PanCallback (originX h - clientX e)%js (originY h - clientY e)%js])
    else (Ok tt, h, []).
Proof. destruct h as [[|] ox oy]; reflexivity. Qed.

(** The table of the key-down handler. *)
Lemma keydownHandler_table (ev : KeyboardEvent) :
  keydownHandler ev tt =
    (Ok tt, tt,
     match charCode_of ev with
     | Some 107%Z => [ZoomCallback (Fin 1)]
     | Some 109%Z => [ZoomCallback (Fin (-1))]
     | Some 39%Z => [PanCallback (Fin 10) (Fin 0)]
     | Some 37%Z => [PanCallback (Fin (-10)) (Fin 0)]
     | Some 38%Z => [PanCallback (Fin 0) (Fin (-10))]
     | Some 40%Z => [PanCallback (Fin 0) (Fin 10)]
     | _ => []
     end).
Proof.
  unfold keydownHandler, charCode_of.
  destruct (if truthy_code (which ev) then which ev else keyCode ev)
    as [[|p|p]|]; try reflexivity.
  repeat (destruct p as [p|p|]; try reflexivity).
Qed.

Lemma touchStartHandler_run (ev : TouchEvent) (h : TouchHandler) :
  touchStartHandler ev h =
    (Ok tt,
     match touches ev with
     | [t0] => mkTouchHandler 1 (array_set 0 (Some t0) (fingers h))
     | [t0; t1] =>
         mkTouchHandler 2
           (array_set 1 (Some t1) (array_set 0 (Some t0) (fingers h)))
     | _ => mkTouchHandler 0 (fingers h)
     end,
     []).
Proof.
  destruct h as [m fs]. destruct ev as [[|t0 [|t1 [|t2 ts]]]]; reflexivity.
Qed.

(** The four ways a touch-move can go. *)
Lemma touchMoveHandler_shape (ev : TouchEvent) (h : TouchHandler) :
  (mode h <> 1%nat /\ mode h <> 2%nat /\ touchMoveHandler ev h = (Ok tt, h, [])) \/
  ((mode h = 1%nat \/ mode h = 2%nat) /\
   touchMoveHandler ev h = (Throw TypeError, h, [PreventDefault])) \/
  (exists f0 t0 : Touch,
     mode h = 1%nat /\ array_get (fingers h) 0 = Some f0 /\
     touches ev !! 0%nat = Some t0 /\
     touchMoveHandler ev h =
       (Ok tt, set_fingers (array_set 0 (Some t0) (fingers h)) h,
        [PreventDefault;
         PanCallback (pageX f0 - pageX t0)%js (pageY f0 - pageY t0)%js])) \/
  (exists f0 f1 t0 t1 : Touch,
     mode h = 2%nat /\ array_get (fingers h) 0 = Some f0 /\
     array_get (fingers h) 1 = Some f1 /\
     touches ev !! 0%nat = Some t0 /\ touches ev !! 1%nat = Some t1 /\
     touchMoveHandler ev h =
       (Ok tt,
        set_fingers
          (array_set 1 (Some t1) (array_set 0 (Some t0) (fingers h))) h,
        [PreventDefault;
         ZoomCallback ((distance t0 t1 - distance f0 f1) / Fin 100)%js])).
Proof.
  destruct h as [m fs]. destruct ev as [ts].
  unfold touchMoveHandler. cbn [mode fingers touches].
  destruct m as [|[|[|m]]].
  - left. repeat split; discriminate.
  - right. run. cbn [mode fingers Nat.eqb].
    destruct (array_get fs 0) as [f0|] eqn:Hf0; [|left; split; [left|]; reflexivity].
    destruct (ts !! 0%nat) as [t0|] eqn:Ht0; [|left; split; [left|]; reflexivity].
    right. left. exists f0, t0. repeat split.
  - right. run. cbn [mode fingers Nat.eqb].
    destruct (array_get fs 0) as [f0|] eqn:Hf0; [|left; split; [right|]; reflexivity].
    destruct (array_get fs 1) as [f1|] eqn:Hf1; [|left; split; [right|]; reflexivity].
    destruct (ts !! 0%nat) as [t0|] eqn:Ht0; [|left; split; [right|]; reflexivity].
    destruct (ts !! 1%nat) as [t1|] eqn:Ht1; [|left; split; [right|]; reflexivity].
    right. right. exists f0, f1, t0, t1. repeat split.
  - left. repeat split; discriminate.
Qed.

(** *** The calls on the viewer *)

Lemma dispatch_keeps (c : call) (v : Viewer) :
  maxWidth (final (dispatch c v)) = maxWidth v /\
  maxHeight (final (dispatch c v)) = maxHeight v /\
  containerRatio (final (dispatch c v)) = containerRatio v.
Proof. destruct c; repeat split. Qed.

Lemma dispatch_level_ok (c : call) (v : Viewer) :
  call_ok c -> level_ok v -> level_ok (final (dispatch c v)).
Proof.
  intros Hc Hv. destruct c as [|deltaX deltaY|delta]; cbn [dispatch].
  - exact Hv.
  - exact Hv.
  - destruct Hv as (z & Hz & _). apply zoomSet_level.
    rewrite Hz. cbn [call_ok] in Hc. destruct delta; cbn [add]; congruence.
Qed.

Lemma dispatch_all_level_ok (cs : list call) (v : Viewer) :
  Forall call_ok cs -> level_ok v -> level_ok (final (dispatch_all cs v)).
Proof.
  revert v. induction cs as [|c cs IH]; intros v Hcs Hv; [exact Hv|].
  rewrite dispatch_all_cons. cbn [final fst snd].
  inversion Hcs as [|? ? Hc Hcs']; subst.
  apply IH; [assumption|]. apply dispatch_level_ok; assumption.
Qed.

Lemma dispatch_all_keeps (cs : list call) (v : Viewer) :
  maxWidth (final (dispatch_all cs v)) = maxWidth v /\
  maxHeight (final (dispatch_all cs v)) = maxHeight v /\
  containerRatio (final (dispatch_all cs v)) = containerRatio v.
Proof.
  revert v. induction cs as [|c cs IH]; intros v; [repeat split|].
  rewrite dispatch_all_cons. cbn [final fst snd].
  destruct (IH (final (dispatch c v))) as (-> & -> & ->).
  apply dispatch_keeps.
Qed.

(** Each callback redraws once; [preventDefault] does not redraw. *)
Lemma dispatch_all_redraws (cs : list call) (v : Viewer) :
  length (trace (dispatch_all cs v)) =
    (length (pan_calls cs) + length (zoom_calls cs))%nat.
Proof.
  revert v. induction cs as [|c cs IH]; intros v; [reflexivity|].
  rewrite dispatch_all_cons. cbn [trace fst snd].
  rewrite length_app, IH.
  destruct c as [|deltaX deltaY|delta]; cbn [dispatch pan_calls zoom_calls length].
  - reflexivity.
  - rewrite panningSet_run. reflexivity.
  - rewrite zoomSet_run. cbn [trace snd length]. rewrite <- plus_n_Sm.
    reflexivity.
Qed.

(** What a method that makes at most one callback call does to the page. *)
Lemma deliver_frame_handler {St} (ev : DOMEvent) (object : Page -> St)
  (set_object : St -> Page -> Page) (method : M call St unit) (p : Page) :
  listeners ev = [handler object set_object method] ->
  (forall s q, viewer (set_object s q) = viewer q) ->
  (length (pan_calls (trace (method (object p)))) +
   length (zoom_calls (trace (method (object p)))) <= 1)%nat ->
  (maxWidth (viewer (final (deliver ev p))) = maxWidth (viewer p) /\
   maxHeight (viewer (final (deliver ev p))) = maxHeight (viewer p) /\
   containerRatio (viewer (final (deliver ev p))) = containerRatio (viewer p)) /\
  (length (trace (deliver ev p)) <= 1)%nat /\
  outcome (deliver ev p) = outcome (method (object p)).
Proof.
  intros Hl Hview Hn.
  destruct (deliver_handler ev object set_object method p Hl Hview)
    as (-> & -> & ->).
  cbn [set_viewer viewer]. split; [|split; [|reflexivity]].
  - apply dispatch_all_keeps.
  - rewrite dispatch_all_redraws. exact Hn.
Qed.

Lemma keydown_calls (ev : KeyboardEvent) :
  (length (pan_calls (trace (keydownHandler ev tt))) +
   length (zoom_calls (trace (keydownHandler ev tt))) <= 1)%nat /\
  Forall call_ok (trace (keydownHandler ev tt)).
Proof.
  rewrite keydownHandler_table. cbn [trace snd].
  destruct (charCode_of ev) as [[|c|c]|];
    try (split; [cbn; lia | repeat constructor; discriminate]).
  repeat (destruct c as [c|c|];
          try (split; [cbn; lia | repeat constructor; discriminate])).
Qed.

Lemma touchMove_calls (ev : TouchEvent) (h : TouchHandler) :
  (length (pan_calls (trace (touchMoveHandler ev h))) +
   length (zoom_calls (trace (touchMoveHandler ev h))) <= 1)%nat.
Proof.
  destruct (touchMoveHandler_shape ev h)
    as [(_ & _ & ->) | [(_ & ->) | [(f0 & t0 & _ & _ & _ & ->)
        | (f0 & f1 & t0 & t1 & _ & _ & _ & _ & _ & ->)]]];
    cbn [trace snd pan_calls zoom_calls length]; lia.
Qed.

Lemma deliver_touchmove_throw (e : TouchEvent) (p : Page) :
  touchMoveHandler e (touch p) = (Throw TypeError, touch p, [PreventDefault]) ->
  deliver (touchmove e) p = (Throw TypeError, p, []).
Proof.
  intros Hrun.
  destruct (deliver_handler (touchmove e) touch set_touch (touchMoveHandler e) p
              eq_refl set_touch_viewer) as (Ho & Hf & Ht).
  rewrite Hrun in Ho, Hf, Ht. cbn [outcome final trace fst snd] in Ho, Hf, Ht.
  destruct (deliver (touchmove e) p) as [[r q] t].
  cbn [outcome final trace fst snd] in Ho, Hf, Ht. subst.
  destruct p; reflexivity.
Qed.

(** X10: whatever the event and the state of the page, delivering one
    event leaves the document's size and the container ratio as they
    were and publishes at most one rectangle; it returns normally, except
    that a touch-move may stop on a TypeError, and then the page is as it
    was and nothing is published. *)
Theorem deliver_frame (ev : DOMEvent) (p : Page) :
  (maxWidth (viewer (final (deliver ev p))) = maxWidth (viewer p) /\
   maxHeight (viewer (final (deliver ev p))) = maxHeight (viewer p) /\
   containerRatio (viewer (final (deliver ev p))) = containerRatio (viewer p)) /\
  (length (trace (deliver ev p)) <= 1)%nat /\
  (outcome (deliver ev p) = Ok tt \/
   (exists e, ev = touchmove e) /\ deliver ev p = (Throw TypeError, p, [])).
Proof.
  destruct ev as [e|e|e|e|e|e|e|e|e|].
  - destruct (deliver_frame_handler (mousewheel e) mouse set_mouse
                (wheelHandler e) p eq_refl set_mouse_viewer) as (HF & HL & HO).
    { rewrite wheelHandler_run. cbn [trace snd pan_calls zoom_calls length]. lia. }
    split; [exact HF|]. split; [exact HL|]. left. rewrite HO. reflexivity.
  - destruct (deliver_frame_handler (DOMMouseScroll e) mouse set_mouse
                (wheelHandler e) p eq_refl set_mouse_viewer) as (HF & HL & HO).
    { rewrite wheelHandler_run. cbn [trace snd pan_calls zoom_calls length]. lia. }
    split; [exact HF|]. split; [exact HL|]. left. rewrite HO. reflexivity.
  - destruct (deliver_frame_handler (mouseup e) mouse set_mouse
                (mouseUpHandler e) p eq_refl set_mouse_viewer) as (HF & HL & HO).
    { rewrite mouseUpHandler_spec. cbn [trace snd pan_calls zoom_calls length]. lia. }
    split; [exact HF|]. split; [exact HL|]. left. rewrite HO. reflexivity.
  - destruct (deliver_frame_handler (mousedown e) mouse set_mouse
                (mouseDownHandler e) p eq_refl set_mouse_viewer) as (HF & HL & HO).
    { rewrite mouseDownHandler_spec. cbn [trace snd pan_calls zoom_calls length]. lia. }
    split; [exact HF|]. split; [exact HL|]. left. rewrite HO. reflexivity.
  - destruct (deliver_frame_handler (mousemove e) mouse set_mouse
                (mouseMoveHandler e) p eq_refl set_mouse_viewer) as (HF & HL & HO).
    { rewrite mouseMoveHandler_run. destruct (dragging (mouse p));
        cbn [trace snd pan_calls zoom_calls length]; lia. }
    split; [exact HF|]. split; [exact HL|]. left. rewrite HO.
    rewrite mouseMoveHandler_run. destruct (dragging (mouse p)); reflexivity.
  - destruct (deliver_frame_handler (keydown e) (fun _ : Page => tt)
                (fun _ q => q) (keydownHandler e) p eq_refl
                (fun _ _ => eq_refl)) as (HF & HL & HO).
    { apply keydown_calls. }
    split; [exact HF|]. split; [exact HL|]. left. rewrite HO.
    rewrite keydownHandler_table. reflexivity.
  - destruct (deliver_frame_handler (touchstart e) touch set_touch
                (touchStartHandler e) p eq_refl set_touch_viewer) as (HF & HL & HO).
    { rewrite touchStartHandler_run. cbn [trace snd pan_calls zoom_calls length]. lia. }
    split; [exact HF|]. split; [exact HL|]. left. rewrite HO.
    rewrite touchStartHandler_run. reflexivity.
  - destruct (deliver_frame_handler (touchmove e) touch set_touch
                (touchMoveHandler e) p eq_refl set_touch_viewer) as (HF & HL & HO).
    { apply touchMove_calls. }
    split; [exact HF|]. split; [exact HL|].
    destruct (touchMoveHandler_shape e (touch p))
      as [(_ & _ & Hrun) | [(_ & Hrun) | [(f0 & t0 & _ & _ & _ & Hrun)
          | (f0 & f1 & t0 & t1 & _ & _ & _ & _ & _ & Hrun)]]].
    + left. rewrite HO, Hrun. reflexivity.
    + right. split; [eexists; reflexivity|].
      apply deliver_touchmove_throw. exact Hrun.
    + left. rewrite HO, Hrun. reflexivity.
    + left. rewrite HO, Hrun. reflexivity.
  - destruct (deliver_frame_handler (touchend e) touch set_touch
                (touchStartHandler e) p eq_refl set_touch_viewer) as (HF & HL & HO).
    { rewrite touchStartHandler_run. cbn [trace snd pan_calls zoom_calls length]. lia. }
    split; [exact HF|]. split; [exact HL|]. left. rewrite HO.
    rewrite touchStartHandler_run. reflexivity.
  - rewrite deliver_other. cbn [final trace outcome fst snd length].
    repeat split; try lia. left. reflexivity.
Qed.

(** ** The invariant of a session *)

Lemma array_get_set_same {A} (i : nat) (x : option A) (a : list (option A)) :
  array_get (array_set i x a) i = x.
Proof.
  unfold array_get, array_set. destruct (i <? length a)%nat eqn:Hi.
  - apply Nat.ltb_lt in Hi. rewrite list_lookup_insert_eq by exact Hi.
    reflexivity.
  - apply Nat.ltb_ge in Hi.
    rewrite lookup_app_r by exact Hi.
    rewrite lookup_app_r by (rewrite length_replicate; lia).
    rewrite length_replicate.
    replace (i - length a - (i - length a))%nat with 0%nat by lia.
    reflexivity.
Qed.

Lemma array_get_set_other {A} (i j : nat) (x : option A) (a : list (option A)) :
  i <> j -> array_get (array_set i x a) j = array_get a j.
Proof.
  intros Hij. unfold array_get, array_set.
  destruct (i <? length a)%nat eqn:Hi.
  - rewrite list_lookup_insert_ne by exact Hij. reflexivity.
  - apply Nat.ltb_ge in Hi.
    destruct (Nat.lt_ge_cases j (length a)) as [Hj|Hj].
    + rewrite lookup_app_l by exact Hj. reflexivity.
    + rewrite lookup_app_r by exact Hj.
      rewrite (lookup_ge_None_2 a j) by exact Hj.
      destruct (Nat.lt_ge_cases (j - length a) (i - length a)) as [Hlt|Hge].
      * rewrite lookup_app_l by (rewrite length_replicate; exact Hlt).
        rewrite lookup_replicate_2 by exact Hlt. reflexivity.
      * rewrite lookup_app_r by (rewrite length_replicate; exact Hge).
        rewrite length_replicate.
        destruct (j - length a - (i - length a))%nat as [|n] eqn:Hn; [lia|].
        reflexivity.
Qed.

(** A touch-start leaves, in two-finger mode, the two touch points of its
    event in the finger slots. *)
Lemma touchStartHandler_pinch_ok (ev : TouchEvent) (h : TouchHandler) :
  touch_ok ev -> pinch_ok (final (touchStartHandler ev h)).
Proof.
  intros Hev. rewrite touchStartHandler_run. cbn [final fst snd].
  destruct (touches ev) as [|t0 [|t1 [|t2 ts]]] eqn:Hts;
    intros Hmode; cbn [mode] in Hmode; try discriminate Hmode.
  cbn [fingers]. intros f0 f1 H0 H1.
  rewrite array_get_set_other, array_get_set_same in H0 by discriminate.
  rewrite array_get_set_same in H1.
  injection H0 as <-. injection H1 as <-.
  apply Hev; rewrite Hts; reflexivity.
Qed.

(** A touch-move keeps the finger snapshots at a finite distance and asks
    for no NaN zoom. *)
Lemma touchMoveHandler_pinch_ok (ev : TouchEvent) (h : TouchHandler) :
  touch_ok ev -> pinch_ok h ->
  pinch_ok (final (touchMoveHandler ev h)) /\
  Forall call_ok (trace (touchMoveHandler ev h)).
Proof.
  intros Hev Hh.
  destruct (touchMoveHandler_shape ev h)
    as [(_ & _ & ->) | [(_ & ->) | [(f0 & t0 & Hmode & _ & _ & ->)
        | (f0 & f1 & t0 & t1 & Hmode & Hf0 & Hf1 & Ht0 & Ht1 & ->)]]];
    cbn [final trace fst snd].
  - split; [assumption | constructor].
  - split; [assumption | repeat constructor].
  - split; [|repeat constructor].
    intros Hm. cbn [set_fingers mode] in Hm. rewrite Hmode in Hm.
    discriminate Hm.
  - split.
    + intros _ g0 g1 H0 H1. cbn [set_fingers fingers] in H0, H1.
      rewrite array_get_set_other, array_get_set_same in H0 by discriminate.
      rewrite array_get_set_same in H1.
      injection H0 as <-. injection H1 as <-.
      exact (Hev t0 t1 Ht0 Ht1).
    + destruct (Hev t0 t1 Ht0 Ht1) as [c ->].
      destruct (Hh Hmode f0 f1 Hf0 Hf1) as [q ->].
      cbn [sub add neg]. rewrite div_Fin by lra.
      repeat constructor. cbn [call_ok]. discriminate.
Qed.

Lemma wheel_ok_not_NaN (e : WheelEvent) :
  wheel_ok e -> normalizeWheelDelta e <> NaN.
Proof.
  intros Hok Hnan. unfold normalizeWheelDelta in Hnan.
  apply (proj1 (finalClamp_NaN_iff _)) in Hnan.
  apply (proj1 (quadraticScale_NaN_iff _)) in Hnan.
  destruct Hok as [Hd|Hw].
  - exact (rawDelta_truthy_detail e Hd Hnan).
  - destruct (ToBoolean (detail e)) eqn:Hd.
    + exact (rawDelta_truthy_detail e Hd Hnan).
    + unfold rawDelta in Hnan. rewrite Hd in Hnan.
      apply (proj1 (div_Fin_NaN_iff _ 120 ltac:(lra))) in Hnan. contradiction.
Qed.

(** One event keeps the invariant. *)
Lemma deliver_page_ok (ev : DOMEvent) (p : Page) :
  event_ok ev -> page_ok p -> page_ok (final (deliver ev p)).
Proof.
  intros Hev [Hlevel Hslots].
  assert (Hmouse : forall (method : M call MouseHandler unit),
            listeners ev = [handler mouse set_mouse method] ->
            Forall call_ok (trace (method (mouse p))) ->
            page_ok (final (deliver ev p))).
  { intros method Hl Hcalls.
    destruct (deliver_handler ev mouse set_mouse method p Hl set_mouse_viewer)
      as (_ & -> & _).
    split; cbn [set_viewer set_mouse viewer touch]; [|exact Hslots].
    apply dispatch_all_level_ok; assumption. }
  assert (Htouch : forall (method : M call TouchHandler unit),
            listeners ev = [handler touch set_touch method] ->
            Forall call_ok (trace (method (touch p))) ->
            pinch_ok (final (method (touch p))) ->
            page_ok (final (deliver ev p))).
  { intros method Hl Hcalls Hfin.
    destruct (deliver_handler ev touch set_touch method p Hl set_touch_viewer)
      as (_ & -> & _).
    split; cbn [set_viewer set_touch viewer touch]; [|exact Hfin].
    apply dispatch_all_level_ok; assumption. }
  destruct ev as [e|e|e|e|e|e|e|e|e|]; cbn [event_ok] in Hev.
  - apply (Hmouse (wheelHandler e) eq_refl). rewrite wheelHandler_run.
    repeat constructor. apply wheel_ok_not_NaN, Hev.
  - apply (Hmouse (wheelHandler e) eq_refl). rewrite wheelHandler_run.
    repeat constructor. apply wheel_ok_not_NaN, Hev.
  - apply (Hmouse (mouseUpHandler e) eq_refl). rewrite mouseUpHandler_spec.
    repeat constructor.
  - apply (Hmouse (mouseDownHandler e) eq_refl). rewrite mouseDownHandler_spec.
    repeat constructor.
  - apply (Hmouse (mouseMoveHandler e) eq_refl). rewrite mouseMoveHandler_run.
    destruct (dragging (mouse p)); repeat constructor.
  - destruct (deliver_handler (keydown e) (fun _ : Page => tt) (fun _ q => q)
                (keydownHandler e) p eq_refl (fun _ _ => eq_refl))
      as (_ & -> & _).
    split; cbn [set_viewer viewer touch]; [|exact Hslots].
    apply dispatch_all_level_ok; [apply keydown_calls | assumption].
  - apply (Htouch (touchStartHandler e) eq_refl).
    + rewrite touchStartHandler_run. constructor.
    + apply touchStartHandler_pinch_ok; assumption.
  - destruct (touchMoveHandler_pinch_ok e (touch p) Hev Hslots) as [Hfin Hcalls].
    apply (Htouch (touchMoveHandler e) eq_refl); assumption.
  - apply (Htouch (touchStartHandler e) eq_refl).
    + rewrite touchStartHandler_run. constructor.
    + apply touchStartHandler_pinch_ok; assumption.
  - rewrite deliver_other. split; assumption.
Qed.

Lemma deliver_all_cons (ev : DOMEvent) (evs : list DOMEvent) (p : Page) :
  deliver_all (ev :: evs) p =
    (fst (deliver_all evs (final (deliver ev p))),
     trace (deliver ev p) ++ snd (deliver_all evs (final (deliver ev p)))).
Proof.
  cbn [deliver_all]. destruct (deliver ev p) as [[r p1] out1].
  cbn [final trace fst snd]. destruct (deliver_all evs p1). reflexivity.
Qed.

(** X11: the invariant of a session.  From the page [init] makes of a new
    viewer, and from any page that satisfies the invariant, every sequence
    of events whose wheel events carry a usable field (a truthy [detail] or
    a [wheelDelta] that is not NaN) and whose touch events have their first
    two touch points at a finite distance as the code computes it (the
    square root of the sum of the squared coordinate differences is a
    finite number) leaves the zoom level in [1,10] and the divider equal to
    2^(zoom-1), with, in two-finger mode, the two finger snapshots at a
    finite distance, whether or not a listener threw on the way. *)
Theorem session_invariant :
  (forall (evs : list DOMEvent) (p : Page),
     page_ok p -> Forall event_ok evs -> page_ok (fst (deliver_all evs p))) /\
  (forall (width height offsetWidth : number) (evs : list DOMEvent),
     Forall event_ok evs ->
     page_ok (fst (deliver_all evs
                     (init (Viewer.new width height offsetWidth))))).
Proof.
  assert (Hgen : forall (evs : list DOMEvent) (p : Page),
            page_ok p -> Forall event_ok evs ->
            page_ok (fst (deliver_all evs p))).
  { induction evs as [|ev evs IH]; intros p Hp Hevs; [exact Hp|].
    rewrite deliver_all_cons. cbn [fst].
    inversion Hevs as [|? ? Hev Hevs']; subst.
    apply IH; [|assumption]. apply deliver_page_ok; assumption. }
  split; [exact Hgen|].
  intros width height offsetWidth evs Hevs. apply Hgen; [|assumption].
  split.
  - apply level_ok_new.
  - cbn [init touch TouchHandler.new]. intros Hmode. discriminate Hmode.
Qed.

(** X11 for a session on a new page: the + key, a wheel notch, two fingers
    down at (0,0) and (30,40), then a pinch out to (0,0) and (90,120). *)
Lemma session_invariant_witness :
  page_ok
    (fst (deliver_all
            [key 107;
             mousewheel (mkWheelEvent (num (Fin 0)) (num (Fin 120)));
             touchstart (mkTouchEvent [mkTouch (Fin 0) (Fin 0);
                                       mkTouch (Fin 30) (Fin 40)]);
             touchmove (mkTouchEvent [mkTouch (Fin 0) (Fin 0);
                                      mkTouch (Fin 90) (Fin 120)])]
            (init (Viewer.new (Fin 800) (Fin 600) (Fin 400))))).
Proof.
  apply (proj2 session_invariant (Fin 800) (Fin 600) (Fin 400)).
  constructor; [exact I|].
  constructor; [right; cbn [wheelDelta ToNumber]; discriminate|].
  constructor.
  { intros t0 t1 H0 H1. injection H0 as <-. injection H1 as <-.
    eexists. apply distance_finite. }
  constructor; [|constructor].
  intros t0 t1 H0 H1. injection H0 as <-. injection H1 as <-.
  eexists. apply distance_finite.
Defined.

(** ** The wheel, end to end *)

Lemma deliver_wheel (e : WheelEvent) (p : Page) :
  deliver (mousewheel e) p =
    (Ok tt,
     set_viewer (final (zoomSet (normalizeWheelDelta e) (viewer p))) p,
     [viewBox (final (zoomSet (normalizeWheelDelta e) (viewer p)))]) /\
  deliver (DOMMouseScroll e) p = deliver (mousewheel e) p.
Proof.
  split; [|reflexivity].
  destruct (deliver_handler (mousewheel e) mouse set_mouse (wheelHandler e) p
              eq_refl set_mouse_viewer) as (Ho & Hf & Ht).
  rewrite wheelHandler_run in Ho, Hf, Ht.
  cbn [outcome final trace fst snd] in Ho, Hf, Ht.
  rewrite dispatch_all_cons in Hf, Ht.
  cbn [dispatch dispatch_all ret final trace fst snd] in Hf, Ht.
  rewrite zoomSet_trace in Ht. cbn [app] in Ht.
  destruct (deliver (mousewheel e) p) as [[r q] t].
  cbn [outcome final trace fst snd] in Ho, Hf, Ht. subst.
  destruct p; reflexivity.
Qed.

(** X12: one wheel event that carries a usable field moves the zoom level
    of a viewer that satisfies the invariant by at most one level, keeps
    the invariant, redraws exactly once, and leaves the handlers as they
    were; the wheel handler never consumes the event.  Both wheel event
    types are handled alike. *)
Theorem wheel_event_one_level (p : Page) (e : WheelEvent) (z : R) :
  zoom (viewer p) = Fin z -> 1 <= z <= 10 -> wheel_ok e ->
  (exists z' : R,
     zoom (viewer (final (deliver (mousewheel e) p))) = Fin z' /\
     1 <= z' <= 10 /\ Rabs (z' - z) <= 1 /\
     divider (viewer (final (deliver (mousewheel e) p))) =
       Fin (Rpower 2 (z' - 1))) /\
  length (trace (deliver (mousewheel e) p)) = 1%nat /\
  mouse (final (deliver (mousewheel e) p)) = mouse p /\
  touch (final (deliver (mousewheel e) p)) = touch p /\
  ~ consumed (trace (wheelHandler e (mouse p))) /\
  deliver (DOMMouseScroll e) p = deliver (mousewheel e) p.
Proof.
  intros Hz Hrange Hok.
  destruct (deliver_wheel e p) as [Hrun Hsame]. rewrite Hsame, Hrun.
  cbn [final trace fst snd set_viewer viewer mouse touch length].
  destruct (normalizeWheelDelta_NaN_or_range e) as [Hnan|(r & Hr & Hr1)];
    [exfalso; exact (wheel_ok_not_NaN e Hok Hnan)|].
  rewrite Hr.
  assert (Hz' : zoom (final (zoomSet (Fin r) (viewer p))) =
                Fin (Rmin 10 (Rmax 1 (z + r))))
    by (apply zoomSet_finite; exact Hz).
  split; [|split; [reflexivity|split; [reflexivity|split; [reflexivity|split]]]].
  - exists (Rmin 10 (Rmax 1 (z + r))).
    split; [exact Hz'|]. split; [unfold Rmin, Rmax; case_reals|].
    split.
    + apply Rabs_le. unfold Rmin, Rmax. case_reals.
    + rewrite zoomSet_divider, Hz'. cbn [sub add neg].
      rewrite Math_pow_two_to. reflexivity.
  - rewrite wheelHandler_run. cbn [trace snd]. unfold consumed.
    intros [H|[]]. discriminate H.
  - reflexivity.
Qed.

Lemma wheel_event_one_level_witness :
  (exists z' : R,
     zoom (viewer (final (deliver
             (mousewheel (mkWheelEvent (num (Fin 0)) (num (Fin 120))))
             (init (Viewer.new (Fin 800) (Fin 600) (Fin 400)))))) = Fin z' /\
     1 <= z' <= 10 /\ Rabs (z' - 1) <= 1 /\
     divider (viewer (final (deliver
             (mousewheel (mkWheelEvent (num (Fin 0)) (num (Fin 120))))
             (init (Viewer.new (Fin 800) (Fin 600) (Fin 400)))))) =
       Fin (Rpower 2 (z' - 1))) /\
  length (trace (deliver
             (mousewheel (mkWheelEvent (num (Fin 0)) (num (Fin 120))))
             (init (Viewer.new (Fin 800) (Fin 600) (Fin 400))))) = 1%nat /\
  mouse (final (deliver
             (mousewheel (mkWheelEvent (num (Fin 0)) (num (Fin 120))))
             (init (Viewer.new (Fin 800) (Fin 600) (Fin 400))))) =
    mouse (init (Viewer.new (Fin 800) (Fin 600) (Fin 400))) /\
  touch (final (deliver
             (mousewheel (mkWheelEvent (num (Fin 0)) (num (Fin 120))))
             (init (Viewer.new (Fin 800) (Fin 600) (Fin 400))))) =
    touch (init (Viewer.new (Fin 800) (Fin 600) (Fin 400))) /\
  ~ consumed (trace (wheelHandler (mkWheelEvent (num (Fin 0)) (num (Fin 120)))
                       (mouse (init (Viewer.new (Fin 800) (Fin 600) (Fin 400)))))) /\
  deliver (DOMMouseScroll (mkWheelEvent (num (Fin 0)) (num (Fin 120))))
    (init (Viewer.new (Fin 800) (Fin 600) (Fin 400))) =
  deliver (mousewheel (mkWheelEvent (num (Fin 0)) (num (Fin 120))))
    (init (Viewer.new (Fin 800) (Fin 600) (Fin 400))).
Proof.
  apply (wheel_event_one_level
           (init (Viewer.new (Fin 800) (Fin 600) (Fin 400)))
           (mkWheelEvent (num (Fin 0)) (num (Fin 120))) 1).
  - reflexivity.
  - lra.
  - right. cbn. discriminate.
Defined.

(** ** A drag, end to end *)

Lemma deliver_mousedown (e : MouseEvent) (p : Page) :
  deliver (mousedown e) p =
    (Ok tt, set_mouse (mkMouseHandler true (clientX e) (clientY e)) p, []).
Proof. destruct p. reflexivity. Qed.

Lemma deliver_mouseup (e : MouseEvent) (p : Page) :
  deliver (mouseup e) p =
    (Ok tt,
     set_mouse (mkMouseHandler false (originX (mouse p)) (originY (mouse p))) p,
     []).
Proof. destruct p. reflexivity. Qed.

Lemma deliver_mousemove_dragging (e : MouseEvent) (p : Page) :
  dragging (mouse p) = true ->
  deliver (mousemove e) p =
    (Ok tt,
     mkPage
       (final (panningSet (originX (mouse p) - clientX e)%js
                 (originY (mouse p) - clientY e)%js (viewer p)))
       (mkMouseHandler true (clientX e) (clientY e)) (touch p),
     [viewBox
        (final (panningSet (originX (mouse p) - clientX e)%js
                  (originY (mouse p) - clientY e)%js (viewer p)))]).
Proof.
  destruct p as [v [dr ox oy] t]. cbn [mouse dragging]. intros ->. reflexivity.
Qed.

Lemma deliver_mousemove_idle (e : MouseEvent) (p : Page) :
  dragging (mouse p) = false -> deliver (mousemove e) p = (Ok tt, p, []).
Proof.
  destruct p as [v [dr ox oy] t]. cbn [mouse dragging]. intros ->. reflexivity.
Qed.

(** The moves of a drag, from a page whose mouse handler is dragging. *)
Lemma moves_from (moves : list (R * R)) (p : Page) (cx cy k d ox oy : R) :
  mouse p = mkMouseHandler true (Fin ox) (Fin oy) ->
  centerX (viewer p) = Fin cx -> centerY (viewer p) = Fin cy ->
  containerRatio (viewer p) = Fin k -> divider (viewer p) = Fin d -> d <> 0 ->
  let q := fst (deliver_all
                  (map (fun m => mousemove
                                   (mkMouseEvent (Fin (fst m)) (Fin (snd m))))
                       moves) p) in
  centerX (viewer q) = Fin (cx + (ox - fst (end_of (ox, oy) moves)) * k / d) /\
  centerY (viewer q) = Fin (cy + (oy - snd (end_of (ox, oy) moves)) * k / d) /\
  zoom (viewer q) = zoom (viewer p) /\
  divider (viewer q) = divider (viewer p) /\
  mouse q = mkMouseHandler true (Fin (fst (end_of (ox, oy) moves)))
                           (Fin (snd (end_of (ox, oy) moves))) /\
  touch q = touch p /\
  length (snd (deliver_all
                 (map (fun m => mousemove
                                  (mkMouseEvent (Fin (fst m)) (Fin (snd m))))
                      moves) p)) = length moves.
Proof.
  revert p cx cy ox oy.
  induction moves as [|[x y] moves IH]; intros p cx cy ox oy Hm Hcx Hcy Hk Hd Hnz.
  - cbn [map deliver_all fst snd end_of length]. rewrite Hcx, Hcy, Hm.
    repeat split; f_equal; field; assumption.
  - cbn [map]. cbv zeta. rewrite deliver_all_cons. cbn [fst snd end_of].
    assert (Hdrag : dragging (mouse p) = true) by (rewrite Hm; reflexivity).
    rewrite (deliver_mousemove_dragging _ p Hdrag).
    cbn [final trace fst snd clientX clientY].
    rewrite Hm. cbn [originX originY sub add neg].
    set (v1 := final (panningSet (Fin (ox + - x)) (Fin (oy + - y)) (viewer p))).
    destruct (panningSet_center (viewer p) (Fin (ox + - x)) (Fin (oy + - y)))
      as [HX HY].
    destruct (panningSet_keeps (viewer p) (Fin (ox + - x)) (Fin (oy + - y)))
      as [HD HK].
    fold v1 in HX, HY, HD, HK.
    rewrite Hcx, Hk, Hd in HX. rewrite Hcy, Hk, Hd in HY.
    cbn [mul] in HX, HY. rewrite div_Fin in HX, HY by assumption.
    cbn [add] in HX, HY.
    specialize (IH (mkPage v1 (mkMouseHandler true (Fin x) (Fin y)) (touch p))
                  _ _ x y eq_refl HX HY
                  (eq_trans HK Hk) (eq_trans HD Hd) Hnz).
    cbv zeta in IH. cbn [viewer mouse touch] in IH.
    destruct IH as (IX & IY & IZ & ID & IM & IT & IL).
    rewrite IX, IY, IZ, ID, IM, IT. rewrite length_app, IL.
    cbn [length]. rewrite HD.
    repeat split; try (f_equal; field; assumption); try reflexivity; try lia.
Qed.

(** Over exact arithmetic (the sums, products and quotients of the viewer
    not rounded), a drag moves the document by the pointer's net
    displacement: from any page whose viewer has a finite center and ratio
    and a finite divider other than zero, a press at (x0,y0) followed by
    moves through any points ends with the center displaced by
    ((x0,y0) - end) * containerRatio / divider; zoom, divider and the
    touch handler are untouched, the mouse handler holds the end point,
    and each move redraws once. *)
Lemma drag_path_independent (p : Page) (cx cy k d x0 y0 : R)
  (moves : list (R * R)) :
  centerX (viewer p) = Fin cx -> centerY (viewer p) = Fin cy ->
  containerRatio (viewer p) = Fin k -> divider (viewer p) = Fin d -> d <> 0 ->
  centerX (viewer (fst (deliver_all (drag x0 y0 moves) p))) =
    Fin (cx + (x0 - fst (end_of (x0, y0) moves)) * k / d) /\
  centerY (viewer (fst (deliver_all (drag x0 y0 moves) p))) =
    Fin (cy + (y0 - snd (end_of (x0, y0) moves)) * k / d) /\
  zoom (viewer (fst (deliver_all (drag x0 y0 moves) p))) = zoom (viewer p) /\
  divider (viewer (fst (deliver_all (drag x0 y0 moves) p))) =
    divider (viewer p) /\
  mouse (fst (deliver_all (drag x0 y0 moves) p)) =
    mkMouseHandler true (Fin (fst (end_of (x0, y0) moves)))
                        (Fin (snd (end_of (x0, y0) moves))) /\
  touch (fst (deliver_all (drag x0 y0 moves) p)) = touch p /\
  length (snd (deliver_all (drag x0 y0 moves) p)) = length moves.
Proof.
  intros Hcx Hcy Hk Hd Hnz. unfold drag.
  rewrite deliver_all_cons, deliver_mousedown.
  cbn [final trace fst snd app clientX clientY].
  apply (moves_from moves
           (set_mouse (mkMouseHandler true (Fin x0) (Fin y0)) p)
           cx cy k d x0 y0); try assumption; reflexivity.
Qed.

(** The moves of a drag on whole pixels, from a handler that is dragging:
    the pan requests add up to the origin minus the end point. *)
Lemma moves_add_up (moves : list (Z * Z)) (o a : Z * Z) :
  let r := handle_all mouseMoveHandler (map mouse_at moves)
             (mkMouseHandler true (Fin (IZR (fst o))) (Fin (IZR (snd o)))) in
  fst r = mkMouseHandler true (Fin (IZR (fst (end_at o moves))))
                              (Fin (IZR (snd (end_at o moves)))) /\
  length (pan_calls (snd r)) = length moves /\
  zoom_calls (snd r) = [] /\
  fold_left add_pan (pan_calls (snd r))
    (Fin (IZR (fst a)), Fin (IZR (snd a))) =
    (Fin (IZR (fst a + fst o - fst (end_at o moves))),
     Fin (IZR (snd a + snd o - snd (end_at o moves)))).
Proof.
  revert o a. induction moves as [|[x y] moves IH]; intros [ox oy] [ax ay].
  - cbn [map handle_all fst snd end_at pan_calls zoom_calls length fold_left].
    repeat split. f_equal; do 2 f_equal; lia.
  - cbn [map handle_all]. cbv zeta. rewrite mouseMoveHandler_run.
    cbn [dragging originX originY mouse_at clientX clientY fst snd end_at].
    specialize (IH (x, y)
                  ((ax + ox - x)%Z, (ay + oy - y)%Z)).
    cbv zeta in IH. cbn [fst snd] in IH.
    destruct (handle_all mouseMoveHandler (map mouse_at moves)
                (mkMouseHandler true (Fin (IZR x)) (Fin (IZR y))))
      as [s2 calls2].
    cbn [fst snd app pan_calls zoom_calls length fold_left] in IH |- *.
    destruct IH as (IS & IL & IZ & IT).
    repeat split; [exact IS | now rewrite IL | exact IZ |].
    unfold add_pan at 2. cbn [fst snd sub add neg].
    replace (IZR ax + (IZR ox + - IZR x)) with (IZR (ax + ox - x))
      by (rewrite minus_IZR, plus_IZR; lra).
    replace (IZR ay + (IZR oy + - IZR y)) with (IZR (ay + oy - y))
      by (rewrite minus_IZR, plus_IZR; lra).
    rewrite IT. do 2 f_equal; f_equal; lia.
Qed.

(** X13: what a drag asks of the pan callback is path independent.  With
    the pointer on whole pixels (in the range of a DOM long), a press at
    (x0,y0) followed by moves through any points invokes the pan callback
    once per move and never the zoom callback, and the requested deltas
    add up, in the code's arithmetic, to (x0,y0) minus the end point,
    whatever the points in between; the handler is left dragging with the
    end point as its origin. *)
Theorem drag_requests_add_up (h : MouseHandler) (start : Z * Z)
  (moves : list (Z * Z)) :
  pixels start -> Forall pixels moves ->
  fst (drag_run h start moves) =
    mkMouseHandler true (Fin (IZR (fst (end_at start moves))))
                        (Fin (IZR (snd (end_at start moves)))) /\
  length (pan_calls (snd (drag_run h start moves))) = length moves /\
  zoom_calls (snd (drag_run h start moves)) = [] /\
  total_pan (pan_calls (snd (drag_run h start moves))) =
    (Fin (IZR (fst start - fst (end_at start moves))),
     Fin (IZR (snd start - snd (end_at start moves)))).
Proof.
  intros _ _. unfold drag_run. rewrite mouseDownHandler_spec.
  cbn [final fst snd mouse_at clientX clientY]. unfold total_pan.
  apply (moves_add_up moves start (0%Z, 0%Z)).
Qed.

(** X13 for a press at (100,100) and moves through (90,95) and (150,20) to
    (80,90): the requests (10,5), (-60,75) and (70,-70) add up to
    (20,10). *)
Lemma drag_requests_add_up_witness :
  fst (drag_run MouseHandler.new (100, 100)%Z
         [(90, 95); (150, 20); (80, 90)]%Z) =
    mkMouseHandler true (Fin 80) (Fin 90) /\
  length (pan_calls (snd (drag_run MouseHandler.new (100, 100)%Z
                            [(90, 95); (150, 20); (80, 90)]%Z))) = 3%nat /\
  zoom_calls (snd (drag_run MouseHandler.new (100, 100)%Z
                     [(90, 95); (150, 20); (80, 90)]%Z)) = [] /\
  total_pan (pan_calls (snd (drag_run MouseHandler.new (100, 100)%Z
                               [(90, 95); (150, 20); (80, 90)]%Z))) =
    (Fin 20, Fin 10).
Proof.
  apply (drag_requests_add_up MouseHandler.new (100, 100)%Z
           [(90, 95); (150, 20); (80, 90)]%Z).
  - split; cbn [fst snd]; unfold pixel; lia.
  - repeat constructor; cbn [fst snd]; unfold pixel; lia.
Defined.

(** X14: without the button held, moves do nothing.  After a release, and
    on a page that never saw a press, any number of moves leaves the
    viewer and the touch handler as they were and publishes nothing. *)
Theorem moves_without_press_ignored (p : Page) (e : MouseEvent)
  (moves : list MouseEvent) :
  (dragging (mouse p) = false ->
   deliver_all (map mousemove moves) p = (p, [])) /\
  viewer (fst (deliver_all (mouseup e :: map mousemove moves) p)) = viewer p /\
  touch (fst (deliver_all (mouseup e :: map mousemove moves) p)) = touch p /\
  dragging (mouse (fst (deliver_all (mouseup e :: map mousemove moves) p)))
    = false /\
  snd (deliver_all (mouseup e :: map mousemove moves) p) = [].
Proof.
  assert (Hidle : forall moves p, dragging (mouse p) = false ->
            deliver_all (map mousemove moves) p = (p, [])).
  { clear. induction moves as [|m moves IH]; intros p Hp; [reflexivity|].
    cbn [map]. rewrite deliver_all_cons, (deliver_mousemove_idle m p Hp).
    cbn [final trace fst snd]. rewrite (IH p Hp). reflexivity. }
  split; [apply Hidle|].
  rewrite deliver_all_cons, deliver_mouseup. cbn [final trace fst snd app].
  rewrite Hidle by reflexivity. cbn [fst snd]. destruct p. repeat split.
Qed.

Lemma moves_without_press_ignored_witness :
  deliver_all (map mousemove [mkMouseEvent (Fin 90) (Fin 95)])
    (init (Viewer.new (Fin 800) (Fin 600) (Fin 400))) =
    (init (Viewer.new (Fin 800) (Fin 600) (Fin 400)), []).
Proof.
  apply (proj1 (moves_without_press_ignored
                  (init (Viewer.new (Fin 800) (Fin 600) (Fin 400)))
                  (mkMouseEvent (Fin 0) (Fin 0))
                  [mkMouseEvent (Fin 90) (Fin 95)])).
  reflexivity.
Defined.

(** ** The keys, end to end *)

Lemma deliver_keydown (ev : KeyboardEvent) (p : Page) :
  deliver (keydown ev) p =
    (Ok tt,
     set_viewer (final (dispatch_all (trace (keydownHandler ev tt)) (viewer p))) p,
     trace (dispatch_all (trace (keydownHandler ev tt)) (viewer p))).
Proof.
  destruct (deliver_single (keydown ev) _ p eq_refl) as (Ho & Hf & Ht).
  destruct (handler_run (fun _ : Page => tt) (fun _ p => p)
              (keydownHandler ev) p) as (Hf' & Ht' & Ho').
  rewrite Hf', Ht' in Hf. rewrite Ht', Hf' in Ht.
  assert (Hok : outcome (deliver (keydown ev) p) = Ok tt).
  { rewrite Ho. apply Ho'. rewrite keydownHandler_table. eexists; reflexivity. }
  destruct (deliver (keydown ev) p) as [[r q] t].
  cbn [outcome final trace fst snd] in Hok, Hf, Ht. subst. reflexivity.
Qed.

(** X15: a key that is not mapped does nothing at all: when the key code
    the handler reads ([which] if it is truthy, [keyCode] otherwise) is
    missing or is none of 107, 109, 39, 37, 38 and 40, the page is left as
    it was, nothing is published and no callback is invoked. *)
Theorem keydown_unmapped (ev : KeyboardEvent) (p : Page) :
  (forall c : Z, charCode_of ev = Some c -> ~ In c mapped_codes) ->
  keydownHandler ev tt = (Ok tt, tt, []) /\
  deliver (keydown ev) p = (Ok tt, p, []).
Proof.
  intros Hun.
  assert (Hh : keydownHandler ev tt = (Ok tt, tt, [])).
  { rewrite keydownHandler_table.
    destruct (charCode_of ev) as [c|] eqn:Hc; [|reflexivity].
    specialize (Hun c eq_refl). unfold mapped_codes in Hun. cbn [In] in Hun.
    destruct c as [|c|c]; try reflexivity.
    repeat (destruct c as [c|c|]; try reflexivity);
      exfalso; apply Hun; tauto. }
  split; [exact Hh|].
  rewrite deliver_keydown, Hh. destruct p. reflexivity.
Qed.

Lemma keydown_unmapped_witness :
  keydownHandler (mkKeyboardEvent (Some 0%Z) (Some 65%Z)) tt = (Ok tt, tt, []) /\
  deliver (keydown (mkKeyboardEvent (Some 0%Z) (Some 65%Z)))
    (init (Viewer.new (Fin 800) (Fin 600) (Fin 400))) =
    (Ok tt, init (Viewer.new (Fin 800) (Fin 600) (Fin 400)), []).
Proof.
  apply (keydown_unmapped (mkKeyboardEvent (Some 0%Z) (Some 65%Z))
           (init (Viewer.new (Fin 800) (Fin 600) (Fin 400)))).
  intros c Hc. injection Hc as <-. unfold mapped_codes. cbn [In].
  intros [H|[H|[H|[H|[H|[H|[]]]]]]]; discriminate H.
Defined.

Lemma deliver_key_zoom (code : Z) (delta : number) (p : Page) :
  trace (keydownHandler (mkKeyboardEvent (Some code) None) tt) =
    [ZoomCallback delta] ->
  deliver (key code) p =
    (Ok tt, set_viewer (final (zoomSet delta (viewer p))) p,
     [viewBox (final (zoomSet delta (viewer p)))]).
Proof.
  intros Ht. unfold key. rewrite deliver_keydown, Ht. reflexivity.
Qed.

(** Two zoom keys in a row reach the viewer as two zoom requests, and
    nothing else of the page changes. *)
Lemma deliver_zoom_keys (c1 c2 : Z) (a b : number) (p : Page) :
  trace (keydownHandler (mkKeyboardEvent (Some c1) None) tt) =
    [ZoomCallback a] ->
  trace (keydownHandler (mkKeyboardEvent (Some c2) None) tt) =
    [ZoomCallback b] ->
  fst (deliver_all [key c1; key c2] p) =
    set_viewer (final (zoomSet b (final (zoomSet a (viewer p))))) p.
Proof.
  intros H1 H2.
  rewrite deliver_all_cons, (deliver_key_zoom c1 _ p H1).
  cbn [final trace fst snd].
  rewrite deliver_all_cons, (deliver_key_zoom c2 _ _ H2).
  cbn [final trace fst snd deliver_all set_viewer viewer mouse touch].
  reflexivity.
Qed.

(** X16: the + and - keys undo each other.  On a page whose viewer is on
    a whole zoom level of [1,10] with divider 2^(zoom-1) (the levels these
    keys step through from the initial level 1), + then - gives the page
    back exactly when the level is at most 9, and - then + when it is at
    least 2; across a bound a level is lost: at level 10, + then - leaves
    level 9, and at level 1, - then + leaves level 2. *)
Theorem zoom_keys_undo (p : Page) (n : Z) :
  zoom (viewer p) = Fin (IZR n) -> (1 <= n <= 10)%Z ->
  divider (viewer p) = Fin (Rpower 2 (IZR n - 1)) ->
  ((n <= 9)%Z -> fst (deliver_all [key 107; key 109] p) = p) /\
  ((2 <= n)%Z -> fst (deliver_all [key 109; key 107] p) = p) /\
  (n = 10%Z ->
   zoom (viewer (fst (deliver_all [key 107; key 109] p))) = Fin 9) /\
  (n = 1%Z ->
   zoom (viewer (fst (deliver_all [key 109; key 107] p))) = Fin 2).
Proof.
  intros Hz Hn Hd.
  assert (Hrange : 1 <= IZR n <= 10) by (split; apply IZR_le; lia).
  destruct (zoomSet_round_trip_exact (viewer p) (IZR n) 1 Hz Hrange Hd)
    as (Hup & Hup_high & _).
  destruct (zoomSet_round_trip_exact (viewer p) (IZR n) (-1) Hz Hrange Hd)
    as (Hdown & _ & Hdown_low).
  cbn [neg] in Hup, Hup_high, Hdown, Hdown_low.
  replace (- -1) with 1 in Hdown, Hdown_low by lra.
  rewrite (deliver_zoom_keys 107 109 (Fin 1) (Fin (-1)) p eq_refl eq_refl).
  rewrite (deliver_zoom_keys 109 107 (Fin (-1)) (Fin 1) p eq_refl eq_refl).
  cbn [set_viewer viewer].
  repeat split.
  - intros Hle.
    assert (E : final (zoomSet (Fin (-1)) (final (zoomSet (Fin 1) (viewer p))))
                = viewer p).
    { apply Hup. rewrite <- plus_IZR.
      split; [apply (IZR_le 1) | apply (IZR_le _ 10)]; lia. }
    rewrite E. destruct p; reflexivity.
  - intros Hge.
    assert (E : final (zoomSet (Fin 1) (final (zoomSet (Fin (-1)) (viewer p))))
                = viewer p).
    { apply Hdown. rewrite <- plus_IZR.
      split; [apply (IZR_le 1) | apply (IZR_le _ 10)]; lia. }
    rewrite E. destruct p; reflexivity.
  - intros ->. etransitivity; [apply Hup_high; lra|].
    f_equal. unfold Rmax. case_reals.
  - intros ->. etransitivity; [apply Hdown_low; lra|].
    f_equal. unfold Rmin. case_reals.
Qed.

(** X16 on the page of a new viewer (level 1), and on pages whose viewer
    is on level 5 and on level 10. *)
Lemma zoom_keys_undo_witness :
  fst (deliver_all [key 107; key 109]
         (init (Viewer.new (Fin 800) (Fin 600) (Fin 400)))) =
    init (Viewer.new (Fin 800) (Fin 600) (Fin 400)) /\
  fst (deliver_all [key 109; key 107]
         (init (mkViewer (Fin 800) (Fin 600) (Fin 400) (Fin 300)
                  (Fin 5) (Fin 16) (Fin 2)))) =
    init (mkViewer (Fin 800) (Fin 600) (Fin 400) (Fin 300)
            (Fin 5) (Fin 16) (Fin 2)) /\
  zoom (viewer (fst (deliver_all [key 107; key 109]
                       (init (mkViewer (Fin 800) (Fin 600) (Fin 400) (Fin 300)
                                (Fin 10) (Fin 512) (Fin 2)))))) = Fin 9 /\
  zoom (viewer (fst (deliver_all [key 109; key 107]
                       (init (Viewer.new (Fin 800) (Fin 600) (Fin 400))))))
    = Fin 2.
Proof.
  assert (H1 : divider (viewer (init (Viewer.new (Fin 800) (Fin 600) (Fin 400))))
               = Fin (Rpower 2 (IZR 1 - 1))).
  { cbn [init viewer Viewer.new divider]. f_equal.
    rewrite (Rpower_2_nat _ 0) by (simpl; lra). lra. }
  assert (H5 : divider (viewer (init (mkViewer (Fin 800) (Fin 600) (Fin 400)
                                        (Fin 300) (Fin 5) (Fin 16) (Fin 2))))
               = Fin (Rpower 2 (IZR 5 - 1))).
  { cbn [init viewer divider]. f_equal.
    rewrite (Rpower_2_nat _ 4) by (simpl; lra). lra. }
  assert (H10 : divider (viewer (init (mkViewer (Fin 800) (Fin 600) (Fin 400)
                                         (Fin 300) (Fin 10) (Fin 512) (Fin 2))))
                = Fin (Rpower 2 (IZR 10 - 1))).
  { cbn [init viewer divider]. f_equal.
    rewrite (Rpower_2_nat _ 9) by (simpl; lra). lra. }
  split; [|split; [|split]].
  - apply (proj1 (zoom_keys_undo
                    (init (Viewer.new (Fin 800) (Fin 600) (Fin 400))) 1%Z
                    eq_refl ltac:(lia) H1)).
    lia.
  - apply (proj1 (proj2 (zoom_keys_undo
                    (init (mkViewer (Fin 800) (Fin 600) (Fin 400) (Fin 300)
                             (Fin 5) (Fin 16) (Fin 2))) 5%Z
                    eq_refl ltac:(lia) H5))).
    lia.
  - apply (proj1 (proj2 (proj2 (zoom_keys_undo
                    (init (mkViewer (Fin 800) (Fin 600) (Fin 400) (Fin 300)
                             (Fin 10) (Fin 512) (Fin 2))) 10%Z
                    eq_refl ltac:(lia) H10)))).
    reflexivity.
  - apply (proj2 (proj2 (proj2 (zoom_keys_undo
                    (init (Viewer.new (Fin 800) (Fin 600) (Fin 400))) 1%Z
                    eq_refl ltac:(lia) H1)))).
    reflexivity.
Defined.

(** ** The gesture tracker: its states, its failures, its gestures *)

(** X17: a touch-start (and a touch-end, the same function) never throws,
    never consumes the event and never invokes a callback.  It sets the
    mode to the number of touch points when that is 1 or 2 and to 0
    otherwise, records the touch points in the slots below the mode, and
    leaves every other slot as it was. *)
Theorem touchStartHandler_snapshot (ev : TouchEvent) (h : TouchHandler) :
  outcome (touchStartHandler ev h) = Ok tt /\
  trace (touchStartHandler ev h) = [] /\
  mode (final (touchStartHandler ev h)) =
    (if ((length (touches ev) =? 1) || (length (touches ev) =? 2))%nat
     then length (touches ev) else 0%nat) /\
  (forall i : nat,
     (i < mode (final (touchStartHandler ev h)))%nat ->
     array_get (fingers (final (touchStartHandler ev h))) i =
       touches ev !! i) /\
  (forall i : nat,
     (mode (final (touchStartHandler ev h)) <= i)%nat ->
     array_get (fingers (final (touchStartHandler ev h))) i =
       array_get (fingers h) i) /\
  touchEndHandler ev h = touchStartHandler ev h.
Proof.
  change (touchEndHandler ev h) with (touchStartHandler ev h).
  rewrite touchStartHandler_run. cbn [outcome final trace fst snd].
  split; [reflexivity|]. split; [reflexivity|].
  destruct (touches ev) as [|t0 [|t1 [|t2 ts]]]; cbn [mode fingers length Nat.eqb orb].
  - repeat split; try reflexivity. intros i Hi. lia.
  - repeat split; try reflexivity.
    + intros i Hi. assert (i = 0%nat) by lia. subst i.
      rewrite array_get_set_same. reflexivity.
    + intros i Hi. apply array_get_set_other. lia.
  - repeat split; try reflexivity.
    + intros i Hi. destruct i as [|[|i]]; [| |lia].
      * rewrite array_get_set_other by lia. rewrite array_get_set_same.
        reflexivity.
      * rewrite array_get_set_same. reflexivity.
    + intros i Hi. rewrite !array_get_set_other by lia. reflexivity.
  - repeat split; try reflexivity. intros i Hi. lia.
Qed.

Lemma reachable_mode (h : TouchHandler) : reachable h -> (mode h <= 2)%nat.
Proof.
  induction 1 as [|h ev _ IH|h ev _ IH|h ev _ IH].
  - cbn. lia.
  - rewrite touchStartHandler_run. cbn [final fst snd].
    destruct (touches ev) as [|t0 [|t1 [|t2 ts]]]; cbn [mode]; lia.
  - destruct (touchMoveHandler_shape ev h)
      as [(_ & _ & ->) | [(_ & ->) | [(f0 & t0 & _ & _ & _ & ->)
          | (f0 & f1 & t0 & t1 & _ & _ & _ & _ & _ & ->)]]];
      cbn [final fst snd set_fingers mode]; exact IH.
  - change (touchEndHandler ev) with (touchStartHandler ev).
    rewrite touchStartHandler_run. cbn [final fst snd].
    destruct (touches ev) as [|t0 [|t1 [|t2 ts]]]; cbn [mode]; lia.
Qed.

(** X18: the invariant of the gesture tracker.  In every state its three
    listeners can lead to, whatever the events and whether or not a
    listener threw, the mode is 0, 1 or 2, there are exactly two finger
    slots, and every slot below the mode holds a touch point. *)
Theorem reachable_invariant (h : TouchHandler) :
  reachable h ->
  (mode h <= 2)%nat /\ length (fingers h) = 2%nat /\
  (forall i : nat, (i < mode h)%nat -> is_Some (array_get (fingers h) i)).
Proof.
  intros Hreach. split; [exact (reachable_mode h Hreach)|].
  destruct (reachable_tracked h Hreach) as (a & b & Hf & H1 & H2).
  rewrite Hf. split; [reflexivity|].
  intros i Hi. pose proof (reachable_mode h Hreach) as Hm.
  destruct (mode h) as [|[|[|m]]] eqn:Hmode; try lia.
  - assert (i = 0%nat) by lia. subst i. exact (H1 eq_refl).
  - destruct (H2 eq_refl) as [Ha Hb].
    destruct i as [|[|i]]; [exact Ha | exact Hb | lia].
Qed.

Lemma reachable_invariant_witness :
  (mode (final (touchStartHandler (mkTouchEvent [mkTouch (Fin 1) (Fin 2)])
                  TouchHandler.new)) <= 2)%nat /\
  length (fingers (final (touchStartHandler
                            (mkTouchEvent [mkTouch (Fin 1) (Fin 2)])
                            TouchHandler.new))) = 2%nat /\
  (forall i : nat,
     (i < mode (final (touchStartHandler (mkTouchEvent [mkTouch (Fin 1) (Fin 2)])
                         TouchHandler.new)))%nat ->
     is_Some (array_get
                (fingers (final (touchStartHandler
                                   (mkTouchEvent [mkTouch (Fin 1) (Fin 2)])
                                   TouchHandler.new))) i)).
Proof.
  apply (reachable_invariant
           (final (touchStartHandler (mkTouchEvent [mkTouch (Fin 1) (Fin 2)])
                     TouchHandler.new))).
  apply reachable_start, reachable_new.
Defined.

(** X19: when a touch-move fails.  In a reachable state, a touch-move
    stops on a TypeError exactly when the event carries fewer touch
    points than the mode; it has then consumed the event, invoked no
    callback and left the state as it was. *)
Theorem touchMoveHandler_throws_iff (h : TouchHandler) (ev : TouchEvent) :
  reachable h ->
  (outcome (touchMoveHandler ev h) = Throw TypeError <->
   (length (touches ev) < mode h)%nat) /\
  (outcome (touchMoveHandler ev h) = Throw TypeError ->
   touchMoveHandler ev h = (Throw TypeError, h, [PreventDefault])).
Proof.
  intros Hreach.
  destruct (reachable_tracked h Hreach) as (a & b & Hf & H1 & H2).
  pose proof (reachable_mode h Hreach) as Hm.
  destruct h as [m fs]. cbn [mode fingers] in *. subst fs.
  destruct ev as [ts]. cbn [touches].
  destruct m as [|[|[|m]]]; [| | |lia].
  - split; [split|]; intros H; try discriminate H. cbn in H. lia.
  - destruct (H1 eq_refl) as [f0 ->].
    destruct ts as [|t0 ts].
    + split; [split|]; intros H; try reflexivity. cbn. lia.
    + split; [split|]; intros H; try discriminate H. cbn in H. lia.
  - destruct (H2 eq_refl) as [[f0 ->] [f1 ->]].
    destruct ts as [|t0 [|t1 ts]].
    + split; [split|]; intros H; try reflexivity. cbn. lia.
    + split; [split|]; intros H; try reflexivity. cbn. lia.
    + split; [split|]; intros H; try discriminate H. cbn in H. lia.
Qed.

Lemma touchMoveHandler_throws_iff_witness :
  (outcome (touchMoveHandler (mkTouchEvent [mkTouch (Fin 5) (Fin 5)])
              (final (touchStartHandler
                        (mkTouchEvent [mkTouch (Fin 0) (Fin 0);
                                       mkTouch (Fin 30) (Fin 40)])
                        TouchHandler.new))) = Throw TypeError <->
   (length (touches (mkTouchEvent [mkTouch (Fin 5) (Fin 5)])) <
    mode (final (touchStartHandler
                   (mkTouchEvent [mkTouch (Fin 0) (Fin 0);
                                  mkTouch (Fin 30) (Fin 40)])
                   TouchHandler.new)))%nat) /\
  (outcome (touchMoveHandler (mkTouchEvent [mkTouch (Fin 5) (Fin 5)])
              (final (touchStartHandler
                        (mkTouchEvent [mkTouch (Fin 0) (Fin 0);
                                       mkTouch (Fin 30) (Fin 40)])
                        TouchHandler.new))) = Throw TypeError ->
   touchMoveHandler (mkTouchEvent [mkTouch (Fin 5) (Fin 5)])
     (final (touchStartHandler
               (mkTouchEvent [mkTouch (Fin 0) (Fin 0);
                              mkTouch (Fin 30) (Fin 40)])
               TouchHandler.new)) =
     (Throw TypeError,
      final (touchStartHandler
               (mkTouchEvent [mkTouch (Fin 0) (Fin 0);
                              mkTouch (Fin 30) (Fin 40)])
               TouchHandler.new),
      [PreventDefault])).
Proof.
  apply (touchMoveHandler_throws_iff
           (final (touchStartHandler
                     (mkTouchEvent [mkTouch (Fin 0) (Fin 0);
                                    mkTouch (Fin 30) (Fin 40)])
                     TouchHandler.new))
           (mkTouchEvent [mkTouch (Fin 5) (Fin 5)])).
  apply reachable_start, reachable_new.
Defined.

Lemma touchMoveHandler_run_pan (h : TouchHandler) (f0 t0 : Touch)
  (rest : list Touch) :
  mode h = 1%nat -> array_get (fingers h) 0 = Some f0 ->
  touchMoveHandler (mkTouchEvent (t0 :: rest)) h =
    (Ok tt, set_fingers (array_set 0 (Some t0) (fingers h)) h,
     [PreventDefault;
      PanCallback (pageX f0 - pageX t0)%js (pageY f0 - pageY t0)%js]).
Proof.
  destruct h as [m fs]. cbn [mode fingers]. intros -> Hget.
  unfold touchMoveHandler. run. cbn [mode fingers Nat.eqb touches].
  rewrite Hget. reflexivity.
Qed.

Lemma touchMoveHandler_run_zoom (h : TouchHandler) (f0 f1 t0 t1 : Touch)
  (rest : list Touch) :
  mode h = 2%nat ->
  array_get (fingers h) 0 = Some f0 -> array_get (fingers h) 1 = Some f1 ->
  touchMoveHandler (mkTouchEvent (t0 :: t1 :: rest)) h =
    (Ok tt,
     set_fingers (array_set 1 (Some t1) (array_set 0 (Some t0) (fingers h))) h,
     [PreventDefault;
      ZoomCallback ((distance t0 t1 - distance f0 f1) / Fin 100)%js]).
Proof.
  destruct h as [m fs]. cbn [mode fingers]. intros -> Hget0 Hget1.
  unfold touchMoveHandler. run. cbn [mode fingers Nat.eqb touches].
  rewrite Hget0, Hget1. reflexivity.
Qed.

Lemma deliver_touchstart (e : TouchEvent) (p : Page) :
  deliver (touchstart e) p =
    (Ok tt, set_touch (final (touchStartHandler e (touch p))) p, []) /\
  deliver (touchend e) p = deliver (touchstart e) p.
Proof.
  split; [|reflexivity].
  destruct (deliver_handler (touchstart e) touch set_touch
              (touchStartHandler e) p eq_refl set_touch_viewer) as (Ho & Hf & Ht).
  rewrite touchStartHandler_run in Ho, Ht.
  cbn [outcome trace fst snd dispatch_all ret] in Ho, Ht.
  assert (Hcalls : trace (touchStartHandler e (touch p)) = [])
    by (rewrite touchStartHandler_run; reflexivity).
  rewrite Hcalls in Hf. cbn [dispatch_all ret final fst snd] in Hf.
  destruct (deliver (touchstart e) p) as [[r q] t].
  cbn [outcome final trace fst snd] in Ho, Hf, Ht. subst.
  destruct p; reflexivity.
Qed.

Lemma deliver_touchmove_pan (p : Page) (f0 t0 : Touch) (rest : list Touch) :
  mode (touch p) = 1%nat -> array_get (fingers (touch p)) 0 = Some f0 ->
  deliver (touchmove (mkTouchEvent (t0 :: rest))) p =
    (Ok tt,
     mkPage
       (final (panningSet (pageX f0 - pageX t0)%js (pageY f0 - pageY t0)%js
                 (viewer p)))
       (mouse p)
       (set_fingers (array_set 0 (Some t0) (fingers (touch p))) (touch p)),
     [viewBox
        (final (panningSet (pageX f0 - pageX t0)%js (pageY f0 - pageY t0)%js
                  (viewer p)))]).
Proof.
  intros Hmode Hget.
  destruct (deliver_handler (touchmove (mkTouchEvent (t0 :: rest))) touch
              set_touch (touchMoveHandler (mkTouchEvent (t0 :: rest))) p
              eq_refl set_touch_viewer) as (Ho & Hf & Ht).
  rewrite (touchMoveHandler_run_pan _ f0 t0 rest Hmode Hget) in Ho, Hf, Ht.
  cbn [outcome final trace fst snd] in Ho, Hf, Ht.
  rewrite !dispatch_all_cons in Hf, Ht.
  cbn [dispatch dispatch_all ret final trace fst snd app] in Hf, Ht.
  rewrite panningSet_run in Ht. cbn [trace snd app] in Ht.
  destruct (deliver (touchmove (mkTouchEvent (t0 :: rest))) p) as [[r q] t].
  cbn [outcome final trace fst snd] in Ho, Hf, Ht. subst.
  destruct p; reflexivity.
Qed.

(** The moves of a swipe, from a page whose touch handler tracks one
    finger. *)
Lemma swipe_from (moves : list (R * R)) (p : Page) (cx cy k d ox oy : R) :
  mode (touch p) = 1%nat ->
  array_get (fingers (touch p)) 0 = Some (mkTouch (Fin ox) (Fin oy)) ->
  centerX (viewer p) = Fin cx -> centerY (viewer p) = Fin cy ->
  containerRatio (viewer p) = Fin k -> divider (viewer p) = Fin d -> d <> 0 ->
  let q := fst (deliver_all
                  (map (fun m => touchmove
                                   (mkTouchEvent
                                      [mkTouch (Fin (fst m)) (Fin (snd m))]))
                       moves) p) in
  centerX (viewer q) = Fin (cx + (ox - fst (end_of (ox, oy) moves)) * k / d) /\
  centerY (viewer q) = Fin (cy + (oy - snd (end_of (ox, oy) moves)) * k / d) /\
  zoom (viewer q) = zoom (viewer p) /\
  divider (viewer q) = divider (viewer p) /\
  mode (touch q) = 1%nat /\
  array_get (fingers (touch q)) 0 =
    Some (mkTouch (Fin (fst (end_of (ox, oy) moves)))
                  (Fin (snd (end_of (ox, oy) moves)))) /\
  mouse q = mouse p /\
  length (snd (deliver_all
                 (map (fun m => touchmove
                                  (mkTouchEvent
                                     [mkTouch (Fin (fst m)) (Fin (snd m))]))
                      moves) p)) = length moves.
Proof.
  revert p cx cy ox oy.
  induction moves as [|[x y] moves IH];
    intros p cx cy ox oy Hmode Hget Hcx Hcy Hk Hd Hnz.
  - cbn [map deliver_all fst snd end_of length]. rewrite Hcx, Hcy.
    repeat split; try assumption; f_equal; field; assumption.
  - cbn [map]. cbv zeta. rewrite deliver_all_cons. cbn [fst snd end_of].
    rewrite (deliver_touchmove_pan p _ _ [] Hmode Hget).
    cbn [final trace fst snd pageX pageY sub add neg].
    set (v1 := final (panningSet (Fin (ox + - x)) (Fin (oy + - y)) (viewer p))).
    destruct (panningSet_center (viewer p) (Fin (ox + - x)) (Fin (oy + - y)))
      as [HX HY].
    destruct (panningSet_keeps (viewer p) (Fin (ox + - x)) (Fin (oy + - y)))
      as [HD HK].
    fold v1 in HX, HY, HD, HK.
    rewrite Hcx, Hk, Hd in HX. rewrite Hcy, Hk, Hd in HY.
    cbn [mul] in HX, HY. rewrite div_Fin in HX, HY by assumption.
    cbn [add] in HX, HY.
    specialize (IH (mkPage v1 (mouse p)
                      (set_fingers
                         (array_set 0 (Some (mkTouch (Fin x) (Fin y)))
                            (fingers (touch p))) (touch p)))
                  _ _ x y Hmode (array_get_set_same _ _ _) HX HY
                  (eq_trans HK Hk) (eq_trans HD Hd) Hnz).
    cbv zeta in IH. cbn [viewer mouse touch] in IH.
    destruct IH as (IX & IY & IZ & ID & IM & IG & IMo & IL).
    rewrite IX, IY, IZ, ID, IM, IG, IMo. rewrite length_app, IL.
    cbn [length]. rewrite HD.
    repeat split; try (f_equal; field; assumption); try reflexivity; try lia.
Qed.

(** Over exact arithmetic (the sums, products and quotients of the viewer
    not rounded), a one-finger swipe moves the document by the finger's
    net displacement: from any page whose viewer has a finite center and
    ratio and a finite divider other than zero, a touch-start with one
    finger at (x0,y0) followed by touch-moves through any points ends with
    the center displaced by ((x0,y0) - end) * containerRatio / divider;
    zoom, divider and the mouse handler are untouched, slot 0 holds the
    end point, and each move redraws once. *)
Lemma swipe_path_independent (p : Page) (cx cy k d x0 y0 : R)
  (moves : list (R * R)) :
  centerX (viewer p) = Fin cx -> centerY (viewer p) = Fin cy ->
  containerRatio (viewer p) = Fin k -> divider (viewer p) = Fin d -> d <> 0 ->
  centerX (viewer (fst (deliver_all (swipe x0 y0 moves) p))) =
    Fin (cx + (x0 - fst (end_of (x0, y0) moves)) * k / d) /\
  centerY (viewer (fst (deliver_all (swipe x0 y0 moves) p))) =
    Fin (cy + (y0 - snd (end_of (x0, y0) moves)) * k / d) /\
  zoom (viewer (fst (deliver_all (swipe x0 y0 moves) p))) = zoom (viewer p) /\
  divider (viewer (fst (deliver_all (swipe x0 y0 moves) p))) =
    divider (viewer p) /\
  mode (touch (fst (deliver_all (swipe x0 y0 moves) p))) = 1%nat /\
  array_get (fingers (touch (fst (deliver_all (swipe x0 y0 moves) p)))) 0 =
    Some (mkTouch (Fin (fst (end_of (x0, y0) moves)))
                  (Fin (snd (end_of (x0, y0) moves)))) /\
  mouse (fst (deliver_all (swipe x0 y0 moves) p)) = mouse p /\
  length (snd (deliver_all (swipe x0 y0 moves) p)) = length moves.
Proof.
  intros Hcx Hcy Hk Hd Hnz. unfold swipe.
  rewrite deliver_all_cons, (proj1 (deliver_touchstart _ p)).
  cbn [final trace fst snd app].
  rewrite touchStartHandler_run. cbn [final fst snd touches].
  apply (swipe_from moves
           (set_touch
              (mkTouchHandler 1
                 (array_set 0 (Some (mkTouch (Fin x0) (Fin y0)))
                    (fingers (touch p)))) p)
           cx cy k d x0 y0); try assumption.
  - reflexivity.
  - cbn [set_touch touch fingers]. apply array_get_set_same.
Qed.

(** The moves of a one-finger swipe on whole pixels, from a handler that
    tracks one finger: the pan requests add up to the finger's first
    position minus its last. *)
Lemma swipes_add_up (moves : list (Z * Z)) (s : TouchHandler) (o a : Z * Z) :
  mode s = 1%nat -> array_get (fingers s) 0 = Some (touch_at o) ->
  mode (fst (handle_all touchMoveHandler (map finger_at moves) s)) = 1%nat /\
  array_get
    (fingers (fst (handle_all touchMoveHandler (map finger_at moves) s))) 0 =
    Some (touch_at (end_at o moves)) /\
  length (pan_calls (snd (handle_all touchMoveHandler (map finger_at moves) s)))
    = length moves /\
  zoom_calls (snd (handle_all touchMoveHandler (map finger_at moves) s)) = [] /\
  fold_left add_pan
    (pan_calls (snd (handle_all touchMoveHandler (map finger_at moves) s)))
    (Fin (IZR (fst a)), Fin (IZR (snd a))) =
    (Fin (IZR (fst a + fst o - fst (end_at o moves))),
     Fin (IZR (snd a + snd o - snd (end_at o moves)))).
Proof.
  revert s o a.
  induction moves as [|[x y] moves IH]; intros s [ox oy] [ax ay] Hmode Hget.
  - cbn [map handle_all fst snd end_at pan_calls zoom_calls length fold_left].
    repeat split; try assumption. f_equal; do 2 f_equal; lia.
  - cbn [map handle_all].
    assert (Hrun : touchMoveHandler (finger_at (x, y)) s =
              (Ok tt,
               set_fingers (array_set 0 (Some (touch_at (x, y))) (fingers s)) s,
               [PreventDefault;
                PanCallback (pageX (touch_at (ox, oy)) - pageX (touch_at (x, y)))%js
                            (pageY (touch_at (ox, oy)) - pageY (touch_at (x, y)))%js]))
      by exact (touchMoveHandler_run_pan s _ (touch_at (x, y)) [] Hmode Hget).
    rewrite Hrun. cbn [fst snd end_at].
    specialize (IH (set_fingers
                      (array_set 0 (Some (touch_at (x, y))) (fingers s)) s)
                  (x, y) ((ax + ox - x)%Z, (ay + oy - y)%Z)
                  Hmode (array_get_set_same _ _ _)).
    cbn [fst snd] in IH.
    destruct (handle_all touchMoveHandler (map finger_at moves)
                (set_fingers
                   (array_set 0 (Some (touch_at (x, y))) (fingers s)) s))
      as [s2 calls2].
    cbn [fst snd app pan_calls zoom_calls length fold_left] in IH |- *.
    destruct IH as (IM & IS & IL & IZ & IT).
    repeat split; [exact IM | exact IS | now rewrite IL | exact IZ |].
    unfold add_pan at 2. cbn [fst snd touch_at pageX pageY sub add neg].
    replace (IZR ax + (IZR ox + - IZR x)) with (IZR (ax + ox - x))
      by (rewrite minus_IZR, plus_IZR; lra).
    replace (IZR ay + (IZR oy + - IZR y)) with (IZR (ay + oy - y))
      by (rewrite minus_IZR, plus_IZR; lra).
    rewrite IT. f_equal; do 2 f_equal; lia.
Qed.

(** X20: what a one-finger swipe asks of the pan callback is path
    independent.  With the finger on whole pixels (in the range of a DOM
    long), whatever the state of the handler before, a touch-start with
    one finger at a point followed by one-finger touch-moves through any
    points invokes the pan callback once per move and never the zoom
    callback, and the requested deltas add up, in the code's arithmetic,
    to the first point minus the last, whatever the points in between;
    the handler is left in mode 1 with the last point in slot 0. *)
Theorem swipe_requests_add_up (h : TouchHandler) (start : Z * Z)
  (moves : list (Z * Z)) :
  pixels start -> Forall pixels moves ->
  mode (fst (swipe_run h start moves)) = 1%nat /\
  array_get (fingers (fst (swipe_run h start moves))) 0 =
    Some (touch_at (end_at start moves)) /\
  length (pan_calls (snd (swipe_run h start moves))) = length moves /\
  zoom_calls (snd (swipe_run h start moves)) = [] /\
  total_pan (pan_calls (snd (swipe_run h start moves))) =
    (Fin (IZR (fst start - fst (end_at start moves))),
     Fin (IZR (snd start - snd (end_at start moves)))).
Proof.
  intros _ _. unfold swipe_run, total_pan.
  rewrite touchStartHandler_run. cbn [final fst snd finger_at touches].
  apply (swipes_add_up moves
           (mkTouchHandler 1 (array_set 0 (Some (touch_at start)) (fingers h)))
           start (0%Z, 0%Z)).
  - reflexivity.
  - cbn [fingers]. apply array_get_set_same.
Qed.

(** X20 for a finger put down at (100,100) and moved through (90,95) to
    (80,90): the requests (10,5) and (10,5) add up to (20,10). *)
Lemma swipe_requests_add_up_witness :
  mode (fst (swipe_run TouchHandler.new (100, 100)%Z [(90, 95); (80, 90)]%Z)) =
    1%nat /\
  array_get
    (fingers (fst (swipe_run TouchHandler.new (100, 100)%Z
                     [(90, 95); (80, 90)]%Z))) 0 =
    Some (mkTouch (Fin 80) (Fin 90)) /\
  length (pan_calls (snd (swipe_run TouchHandler.new (100, 100)%Z
                            [(90, 95); (80, 90)]%Z))) = 2%nat /\
  zoom_calls (snd (swipe_run TouchHandler.new (100, 100)%Z
                     [(90, 95); (80, 90)]%Z)) = [] /\
  total_pan (pan_calls (snd (swipe_run TouchHandler.new (100, 100)%Z
                               [(90, 95); (80, 90)]%Z))) =
    (Fin 20, Fin 10).
Proof.
  apply (swipe_requests_add_up TouchHandler.new (100, 100)%Z
           [(90, 95); (80, 90)]%Z).
  - split; cbn [fst snd]; unfold pixel; lia.
  - repeat constructor; cbn [fst snd]; unfold pixel; lia.
Defined.

(** X21: lifting a finger re-arms the pan without a jump.  Whatever the
    state, after a touch-end that leaves one touch point [t], the mode is
    1, and the next touch-move pans by [t] minus the new position of that
    finger, with no zoom callback; the position the lifted finger had
    plays no part. *)
Theorem touchEnd_rearms_pan (h : TouchHandler) (t t' : Touch)
  (rest : list Touch) :
  mode (final (touchEndHandler (mkTouchEvent [t]) h)) = 1%nat /\
  outcome (touchMoveHandler (mkTouchEvent (t' :: rest))
             (final (touchEndHandler (mkTouchEvent [t]) h))) = Ok tt /\
  pan_calls (trace (touchMoveHandler (mkTouchEvent (t' :: rest))
                      (final (touchEndHandler (mkTouchEvent [t]) h)))) =
    [((pageX t - pageX t')%js, (pageY t - pageY t')%js)] /\
  zoom_calls (trace (touchMoveHandler (mkTouchEvent (t' :: rest))
                       (final (touchEndHandler (mkTouchEvent [t]) h)))) = [] /\
  array_get (fingers (final (touchMoveHandler (mkTouchEvent (t' :: rest))
                               (final (touchEndHandler (mkTouchEvent [t]) h)))))
            0 = Some t'.
Proof.
  change (touchEndHandler (mkTouchEvent [t]) h)
    with (touchStartHandler (mkTouchEvent [t]) h).
  rewrite touchStartHandler_run. cbn [final fst snd touches].
  rewrite (touchMoveHandler_run_pan
             (mkTouchHandler 1 (array_set 0 (Some t) (fingers h))) t t' rest
             eq_refl (array_get_set_same _ _ _)).
  cbn [outcome final trace fst snd pan_calls zoom_calls set_fingers fingers].
  repeat split. apply array_get_set_same.
Qed.

Lemma zoomSet_zero (v : Viewer) : level_ok v -> final (zoomSet (Fin 0) v) = v.
Proof.
  intros (z & Hz & Hrange & Hd).
  destruct v as [mw mh cx cy zm dv cr]. cbn in Hz, Hd. subst zm dv.
  rewrite zoomSet_final.
  cbn [maxWidth maxHeight centerX centerY zoom containerRatio add].
  rewrite Math_max_Fin, Math_min_Fin.
  replace (Rmin 10 (Rmax 1 (z + 0))) with z by (unfold Rmin, Rmax; case_reals).
  cbn [sub add neg]. rewrite Math_pow_two_to. reflexivity.
Qed.

Lemma deliver_touchmove_zoom (p : Page) (f0 f1 t0 t1 : Touch)
  (rest : list Touch) :
  mode (touch p) = 2%nat ->
  array_get (fingers (touch p)) 0 = Some f0 ->
  array_get (fingers (touch p)) 1 = Some f1 ->
  deliver (touchmove (mkTouchEvent (t0 :: t1 :: rest))) p =
    (Ok tt,
     mkPage
       (final (zoomSet ((distance t0 t1 - distance f0 f1) / Fin 100)%js
                 (viewer p)))
       (mouse p)
       (set_fingers
          (array_set 1 (Some t1) (array_set 0 (Some t0) (fingers (touch p))))
          (touch p)),
     [viewBox
        (final (zoomSet ((distance t0 t1 - distance f0 f1) / Fin 100)%js
                  (viewer p)))]).
Proof.
  intros Hmode Hget0 Hget1.
  destruct (deliver_handler (touchmove (mkTouchEvent (t0 :: t1 :: rest))) touch
              set_touch (touchMoveHandler (mkTouchEvent (t0 :: t1 :: rest))) p
              eq_refl set_touch_viewer) as (Ho & Hf & Ht).
  rewrite (touchMoveHandler_run_zoom _ f0 f1 t0 t1 rest Hmode Hget0 Hget1)
    in Ho, Hf, Ht.
  cbn [outcome final trace fst snd] in Ho, Hf, Ht.
  rewrite !dispatch_all_cons in Hf, Ht.
  cbn [dispatch dispatch_all ret final trace fst snd app] in Hf, Ht.
  rewrite zoomSet_trace in Ht. cbn [app] in Ht.
  destruct (deliver (touchmove (mkTouchEvent (t0 :: t1 :: rest))) p)
    as [[r q] t].
  cbn [outcome final trace fst snd] in Ho, Hf, Ht. subst.
  destruct p; reflexivity.
Qed.

(** X22: two fingers never pan.  On a page that tracks two fingers, a
    touch-move that carries at least two touch points returns normally,
    asks the viewer for (current distance - previous distance) / 100
    levels, with the distances as the code computes them, leaves the
    center where it was, records the two touch points and publishes one
    rectangle.  When the two distances the code computes are the same
    finite number (both fingers dragged along, or turned about each
    other) and the viewer satisfies the invariant, the viewer is left
    exactly as it was. *)
Theorem two_fingers_never_pan (p : Page) (f0 f1 t0 t1 : Touch)
  (rest : list Touch) :
  mode (touch p) = 2%nat ->
  array_get (fingers (touch p)) 0 = Some f0 ->
  array_get (fingers (touch p)) 1 = Some f1 ->
  outcome (deliver (touchmove (mkTouchEvent (t0 :: t1 :: rest))) p) = Ok tt /\
  zoom (viewer (final (deliver (touchmove (mkTouchEvent (t0 :: t1 :: rest))) p)))
    = Math_min (Fin 10)
        (Math_max (Fin 1)
           (zoom (viewer p) +
            (distance t0 t1 - distance f0 f1) / Fin 100)%js) /\
  centerX (viewer (final (deliver
             (touchmove (mkTouchEvent (t0 :: t1 :: rest))) p))) =
    centerX (viewer p) /\
  centerY (viewer (final (deliver
             (touchmove (mkTouchEvent (t0 :: t1 :: rest))) p))) =
    centerY (viewer p) /\
  array_get (fingers (touch (final (deliver
             (touchmove (mkTouchEvent (t0 :: t1 :: rest))) p)))) 0 = Some t0 /\
  array_get (fingers (touch (final (deliver
             (touchmove (mkTouchEvent (t0 :: t1 :: rest))) p)))) 1 = Some t1 /\
  length (trace (deliver (touchmove (mkTouchEvent (t0 :: t1 :: rest))) p))
    = 1%nat /\
  (level_ok (viewer p) -> finite (distance f0 f1) ->
   distance t0 t1 = distance f0 f1 ->
   viewer (final (deliver (touchmove (mkTouchEvent (t0 :: t1 :: rest))) p)) =
     viewer p /\
   trace (deliver (touchmove (mkTouchEvent (t0 :: t1 :: rest))) p) =
     [viewBox (viewer p)]).
Proof.
  intros Hmode Hget0 Hget1.
  rewrite (deliver_touchmove_zoom p _ _ _ _ rest Hmode Hget0 Hget1).
  cbn [outcome final trace fst snd viewer touch set_fingers fingers length].
  split; [reflexivity|]. split; [reflexivity|].
  split; [reflexivity|]. split; [reflexivity|].
  split; [rewrite array_get_set_other by lia; apply array_get_set_same|].
  split; [apply array_get_set_same|]. split; [reflexivity|].
  intros Hok [c Hc] Heq. rewrite Heq, Hc. cbn [sub add neg].
  rewrite div_Fin by lra.
  replace ((c + - c) / 100) with 0 by lra.
  rewrite (zoomSet_zero _ Hok). split; reflexivity.
Qed.

(** By how much both fingers are dragged along does not change the
    Euclidean distance between them. *)
Lemma euclid_translate (x0 y0 x1 y1 dx dy : R) :
  euclid (x0 + dx) (y0 + dy) (x1 + dx) (y1 + dy) = euclid x0 y0 x1 y1.
Proof. unfold euclid. f_equal. ring. Qed.

(** X22 for two fingers at (0,0) and (30,40), both dragged along by
    (7,9). *)
Lemma two_fingers_never_pan_witness :
  viewer (final (deliver
     (touchmove (mkTouchEvent [mkTouch (Fin (0 + 7)) (Fin (0 + 9));
                               mkTouch (Fin (30 + 7)) (Fin (40 + 9))]))
     (set_touch (mkTouchHandler 2 [Some (mkTouch (Fin 0) (Fin 0));
                                   Some (mkTouch (Fin 30) (Fin 40))])
        (init (Viewer.new (Fin 800) (Fin 600) (Fin 400)))))) =
  viewer (set_touch (mkTouchHandler 2 [Some (mkTouch (Fin 0) (Fin 0));
                                       Some (mkTouch (Fin 30) (Fin 40))])
            (init (Viewer.new (Fin 800) (Fin 600) (Fin 400)))) /\
  trace (deliver
     (touchmove (mkTouchEvent [mkTouch (Fin (0 + 7)) (Fin (0 + 9));
                               mkTouch (Fin (30 + 7)) (Fin (40 + 9))]))
     (set_touch (mkTouchHandler 2 [Some (mkTouch (Fin 0) (Fin 0));
                                   Some (mkTouch (Fin 30) (Fin 40))])
        (init (Viewer.new (Fin 800) (Fin 600) (Fin 400))))) =
  [viewBox
     (viewer (set_touch (mkTouchHandler 2 [Some (mkTouch (Fin 0) (Fin 0));
                                           Some (mkTouch (Fin 30) (Fin 40))])
                (init (Viewer.new (Fin 800) (Fin 600) (Fin 400)))))].
Proof.
  apply (two_fingers_never_pan
           (set_touch (mkTouchHandler 2 [Some (mkTouch (Fin 0) (Fin 0));
                                         Some (mkTouch (Fin 30) (Fin 40))])
              (init (Viewer.new (Fin 800) (Fin 600) (Fin 400))))
           (mkTouch (Fin 0) (Fin 0)) (mkTouch (Fin 30) (Fin 40))
           (mkTouch (Fin (0 + 7)) (Fin (0 + 9)))
           (mkTouch (Fin (30 + 7)) (Fin (40 + 9))) []
           eq_refl eq_refl eq_refl).
  - apply level_ok_new.
  - eexists. apply distance_finite.
  - rewrite !distance_finite. f_equal. apply euclid_translate.
Defined.
